(** * Deception Strategy Evolution Engine

    A shallow embedding of [deception_layer/genetic_deception.py]
    (class [GeneticDeceptionEvolver]) and of the diversity metric of
    [utilities/metrics.py], together with the properties claimed of them.

    Modelling conventions.
    - Python [int] is [Z]; Python [float] is idealised as an exact rational
      [Q] (rounding is left out); a value that is an [int] at creation and a
      [float] after blending is a [Q].
    - A [dict] with fixed keys is a record; a [dict] used as a map
      (telemetry, the per-generation batch) is a [gmap].
    - Chromosomes are Python objects that are shared between the live
      population, the breeding pool and the history: they live in a store
      ([heap]) and are referred to by location.
    - The module-level generator [random] is an explicit source of draws
      threaded through every stochastic operation.
    - Python exceptions are values of [exn]. *)

From Stdlib Require Import ZArith QArith Qround Qabs Qminmax Lia Lqa Ascii String.
From stdpp Require Import base option list sorting strings gmap pretty.

(** ** Numbers *)

Definition Qltb (x y : Q) : bool :=
  match (x ?= y)%Q with Lt => true | _ => false end.

(** Python's two-argument [min(a, b)] and [max(a, b)]: the first argument
    is kept unless the second is strictly better. *)
Definition py_min (a b : Q) : Q := if Qltb b a then b else a.
Definition py_max (a b : Q) : Q := if Qltb a b then b else a.

(** ** The random source

    A raw draw [(n, d)] stands for the fraction [(n mod (d+1)) / (d+1)] of
    the half-open unit interval; an exhausted source keeps answering [0]. *)

Definition rng : Type := list (nat * nat).

Definition unit_of (r : nat * nat) : Q :=
  Z.of_nat (r.1 mod S r.2) # Pos.of_nat (S r.2).

Definition Rand (A : Type) : Type := rng -> A * rng.

Definition ret {A} (a : A) : Rand A := fun g => (a, g).
Definition bind {A B} (c : Rand A) (k : A -> Rand B) : Rand B :=
  fun g => let (a, g') := c g in k a g'.

Notation "x <~ c ;; k" := (bind c (fun x => k))
  (at level 100, c at next level, right associativity).

(** [random.random()] *)
Definition random_random : Rand Q :=
  fun g => match g with
           | [] => (0%Q, [])
           | r :: g' => (unit_of r, g')
           end.

(** [random._randbelow(n)], as [int(random() * n)] *)
Definition randbelow (n : nat) : Rand nat :=
  u <~ random_random ;;
  ret (Z.to_nat (Qfloor (u * inject_Z (Z.of_nat n)))).

(** [random.randint(a, b)] is [a + randbelow(b - a + 1)] *)
Definition random_randint (a b : Z) : Rand Z :=
  u <~ random_random ;;
  ret (a + Qfloor (u * inject_Z (b - a + 1)))%Z.

(** [random.uniform(a, b)] is [a + (b - a) * random()] *)
Definition random_uniform (a b : Q) : Rand Q :=
  u <~ random_random ;;
  ret (a + (b - a) * u)%Q.

(** [random.sample(population, k)]: [k] members at pairwise distinct
    positions, selected one after the other from the positions that are
    left. [sample_positions] works on the list of remaining positions. *)
Fixpoint sample_positions (pool : list nat) (k : nat) : Rand (list nat) :=
  match k with
  | O => ret []
  | S k' =>
      j <~ randbelow (length pool) ;;
      match pool !! j with
      | None => ret []
      | Some p =>
          rest <~ sample_positions (delete j pool) k' ;;
          ret (p :: rest)
      end
  end.

(** ** Exceptions *)

Inductive exn : Type :=
  | IndexError
  | ValueError
  | ZeroDivisionError
  | DanglingReference
  | OutOfFuel.

Definition result (A : Type) : Type := exn + A.

(** ** The chromosome *)

Record mirage_config : Type := {
  count : Z;
  mutation_rate : Q;
  process_types : list string;
  polymorphism_intensity : Q
}.

Record credential_config : Type := {
  complexity : Q;
  realism_level : Q;
  diversity : Q
}.

Record filesystem_config : Type := {
  decoy_density : Q;
  file_types : list string;
  fractal_depth : Z
}.

Record network_config : Type := {
  service_diversity : Q;
  response_delay : Q;
  traffic_mimicry : Q
}.

Record math_config : Type := {
  chaos_parameter : Q;
  entropy_target : Q;
  fractal_complexity : Q
}.

(** The key ['id'] is absent from the dictionary built by
    [_create_random_chromosome] and is assigned by the caller on the next
    line; the record carries the empty string until then. *)
Record chromosome : Type := {
  honeypot_count : Z;
  honeypot_types : list string;
  mirage : mirage_config;
  credential : credential_config;
  filesystem : filesystem_config;
  network : network_config;
  math : math_config;
  fitness : Q;
  generation_created : nat;
  parent_ids : list string;
  id : string
}.

(** Assignments to one key of the dictionary. *)
Definition set_honeypot_count (v : Z) (c : chromosome) : chromosome :=
  {| honeypot_count := v; honeypot_types := honeypot_types c;
     mirage := mirage c; credential := credential c;
     filesystem := filesystem c; network := network c; math := math c;
     fitness := fitness c; generation_created := generation_created c;
     parent_ids := parent_ids c; id := id c |}.

Definition set_mirage (v : mirage_config) (c : chromosome) : chromosome :=
  {| honeypot_count := honeypot_count c; honeypot_types := honeypot_types c;
     mirage := v; credential := credential c;
     filesystem := filesystem c; network := network c; math := math c;
     fitness := fitness c; generation_created := generation_created c;
     parent_ids := parent_ids c; id := id c |}.

Definition set_credential (v : credential_config) (c : chromosome) : chromosome :=
  {| honeypot_count := honeypot_count c; honeypot_types := honeypot_types c;
     mirage := mirage c; credential := v;
     filesystem := filesystem c; network := network c; math := math c;
     fitness := fitness c; generation_created := generation_created c;
     parent_ids := parent_ids c; id := id c |}.

Definition set_filesystem (v : filesystem_config) (c : chromosome) : chromosome :=
  {| honeypot_count := honeypot_count c; honeypot_types := honeypot_types c;
     mirage := mirage c; credential := credential c;
     filesystem := v; network := network c; math := math c;
     fitness := fitness c; generation_created := generation_created c;
     parent_ids := parent_ids c; id := id c |}.

Definition set_network (v : network_config) (c : chromosome) : chromosome :=
  {| honeypot_count := honeypot_count c; honeypot_types := honeypot_types c;
     mirage := mirage c; credential := credential c;
     filesystem := filesystem c; network := v; math := math c;
     fitness := fitness c; generation_created := generation_created c;
     parent_ids := parent_ids c; id := id c |}.

Definition set_math (v : math_config) (c : chromosome) : chromosome :=
  {| honeypot_count := honeypot_count c; honeypot_types := honeypot_types c;
     mirage := mirage c; credential := credential c;
     filesystem := filesystem c; network := network c; math := v;
     fitness := fitness c; generation_created := generation_created c;
     parent_ids := parent_ids c; id := id c |}.

Definition set_fitness (v : Q) (c : chromosome) : chromosome :=
  {| honeypot_count := honeypot_count c; honeypot_types := honeypot_types c;
     mirage := mirage c; credential := credential c;
     filesystem := filesystem c; network := network c; math := math c;
     fitness := v; generation_created := generation_created c;
     parent_ids := parent_ids c; id := id c |}.

Definition set_generation_created (v : nat) (c : chromosome) : chromosome :=
  {| honeypot_count := honeypot_count c; honeypot_types := honeypot_types c;
     mirage := mirage c; credential := credential c;
     filesystem := filesystem c; network := network c; math := math c;
     fitness := fitness c; generation_created := v;
     parent_ids := parent_ids c; id := id c |}.

Definition set_parent_ids (v : list string) (c : chromosome) : chromosome :=
  {| honeypot_count := honeypot_count c; honeypot_types := honeypot_types c;
     mirage := mirage c; credential := credential c;
     filesystem := filesystem c; network := network c; math := math c;
     fitness := fitness c; generation_created := generation_created c;
     parent_ids := v; id := id c |}.

Definition set_id (v : string) (c : chromosome) : chromosome :=
  {| honeypot_count := honeypot_count c; honeypot_types := honeypot_types c;
     mirage := mirage c; credential := credential c;
     filesystem := filesystem c; network := network c; math := math c;
     fitness := fitness c; generation_created := generation_created c;
     parent_ids := parent_ids c; id := v |}.

Definition set_count (v : Z) (m : mirage_config) : mirage_config :=
  {| count := v; mutation_rate := mutation_rate m;
     process_types := process_types m;
     polymorphism_intensity := polymorphism_intensity m |}.

Definition set_mutation_rate (v : Q) (m : mirage_config) : mirage_config :=
  {| count := count m; mutation_rate := v;
     process_types := process_types m;
     polymorphism_intensity := polymorphism_intensity m |}.

Definition set_complexity (v : Q) (k : credential_config) : credential_config :=
  {| complexity := v; realism_level := realism_level k; diversity := diversity k |}.

Definition set_realism_level (v : Q) (k : credential_config) : credential_config :=
  {| complexity := complexity k; realism_level := v; diversity := diversity k |}.

Definition set_diversity (v : Q) (k : credential_config) : credential_config :=
  {| complexity := complexity k; realism_level := realism_level k; diversity := v |}.

Definition set_decoy_density (v : Q) (f : filesystem_config) : filesystem_config :=
  {| decoy_density := v; file_types := file_types f; fractal_depth := fractal_depth f |}.

Definition set_service_diversity (v : Q) (n : network_config) : network_config :=
  {| service_diversity := v; response_delay := response_delay n;
     traffic_mimicry := traffic_mimicry n |}.

Definition set_chaos_parameter (v : Q) (m : math_config) : math_config :=
  {| chaos_parameter := v; entropy_target := entropy_target m;
     fractal_complexity := fractal_complexity m |}.

(** ** Mutation *)

(** [if random.random() < p: <body>] *)
Definition gated {A} (p : Q) (body : A -> Rand A) (a : A) : Rand A :=
  u <~ random_random ;;
  if Qltb u p then body a else ret a.

Definition _mutate (chrom : chromosome) : Rand chromosome :=
  let mutated := chrom in
  mutated <~ gated 0.3 (fun m =>
      d <~ random_randint (-2) 2 ;;
      let v := (honeypot_count m + d)%Z in
      ret (set_honeypot_count (Z.max 3 (Z.min 10 v)) m)) mutated ;;
  mutated <~ gated 0.3 (fun m =>
      d <~ random_randint (-3) 3 ;;
      let v := (count (mirage m) + d)%Z in
      ret (set_mirage (set_count (Z.max 5 (Z.min 15 v)) (mirage m)) m)) mutated ;;
  mutated <~ gated 0.3 (fun m =>
      d <~ random_uniform (-0.1) 0.1 ;;
      let v := (mutation_rate (mirage m) + d)%Q in
      ret (set_mirage (set_mutation_rate (py_max 0.1 (py_min 0.5 v)) (mirage m)) m)) mutated ;;
  mutated <~ gated 0.3 (fun m =>
      d <~ random_uniform (-0.1) 0.1 ;;
      let v := (complexity (credential m) + d)%Q in
      ret (set_credential (set_complexity (py_max 0.0 (py_min 1.0 v)) (credential m)) m)) mutated ;;
  mutated <~ gated 0.3 (fun m =>
      d <~ random_uniform (-0.1) 0.1 ;;
      let v := (realism_level (credential m) + d)%Q in
      ret (set_credential (set_realism_level (py_max 0.0 (py_min 1.0 v)) (credential m)) m)) mutated ;;
  mutated <~ gated 0.3 (fun m =>
      d <~ random_uniform (-0.1) 0.1 ;;
      let v := (diversity (credential m) + d)%Q in
      ret (set_credential (set_diversity (py_max 0.0 (py_min 1.0 v)) (credential m)) m)) mutated ;;
  mutated <~ gated 0.3 (fun m =>
      d <~ random_uniform (-0.1) 0.1 ;;
      let v := (decoy_density (filesystem m) + d)%Q in
      ret (set_filesystem (set_decoy_density (py_max 0.1 (py_min 0.8 v)) (filesystem m)) m)) mutated ;;
  mutated <~ gated 0.3 (fun m =>
      d <~ random_randint (-2) 2 ;;
      let v := (service_diversity (network m) + inject_Z d)%Q in
      ret (set_network (set_service_diversity (py_max 3 (py_min 10 v)) (network m)) m)) mutated ;;
  mutated <~ gated 0.3 (fun m =>
      d <~ random_uniform (-0.1) 0.1 ;;
      let v := (chaos_parameter (math m) + d)%Q in
      ret (set_math (set_chaos_parameter (py_max 3.6 (py_min 4.0 v)) (math m)) m)) mutated ;;
  ret mutated.

(** [n] mutation passes in a row, on one random source. *)
Fixpoint mutation_passes (n : nat) (c : chromosome) : Rand chromosome :=
  match n with
  | O => ret c
  | S n' => c' <~ _mutate c ;; mutation_passes n' c'
  end.

(** The ranges that the data model declares for the bounded numeric genes. *)
Record declared_ranges (c : chromosome) : Prop := {
  dr_honeypot_count : (3 <= honeypot_count c <= 10)%Z;
  dr_count : (5 <= count (mirage c) <= 15)%Z;
  dr_mutation_rate : (0.1 <= mutation_rate (mirage c) <= 0.5)%Q;
  dr_polymorphism_intensity : (0.3 <= polymorphism_intensity (mirage c) <= 1.0)%Q;
  dr_complexity : (0.3 <= complexity (credential c) <= 0.9)%Q;
  dr_realism_level : (0.5 <= realism_level (credential c) <= 1.0)%Q;
  dr_diversity : (0.4 <= diversity (credential c) <= 0.9)%Q;
  dr_decoy_density : (0.1 <= decoy_density (filesystem c) <= 0.8)%Q;
  dr_fractal_depth : (2 <= fractal_depth (filesystem c) <= 5)%Z;
  dr_service_diversity : (3 <= service_diversity (network c) <= 10)%Q;
  dr_response_delay : (0.1 <= response_delay (network c) <= 2.0)%Q;
  dr_traffic_mimicry : (0.5 <= traffic_mimicry (network c) <= 1.0)%Q;
  dr_chaos_parameter : (3.6 <= chaos_parameter (math c) <= 4.0)%Q;
  dr_entropy_target : (0.6 <= entropy_target (math c) <= 0.9)%Q;
  dr_fractal_complexity : (0.4 <= fractal_complexity (math c) <= 0.9)%Q
}.

(** The ranges that [_mutate] maintains: the declared ones, except that the
    three credential genes are only kept inside the unit interval. *)
Record mutation_ranges (c : chromosome) : Prop := {
  mr_honeypot_count : (3 <= honeypot_count c <= 10)%Z;
  mr_count : (5 <= count (mirage c) <= 15)%Z;
  mr_mutation_rate : (0.1 <= mutation_rate (mirage c) <= 0.5)%Q;
  mr_polymorphism_intensity : (0.3 <= polymorphism_intensity (mirage c) <= 1.0)%Q;
  mr_complexity : (0.0 <= complexity (credential c) <= 1.0)%Q;
  mr_realism_level : (0.0 <= realism_level (credential c) <= 1.0)%Q;
  mr_diversity : (0.0 <= diversity (credential c) <= 1.0)%Q;
  mr_decoy_density : (0.1 <= decoy_density (filesystem c) <= 0.8)%Q;
  mr_fractal_depth : (2 <= fractal_depth (filesystem c) <= 5)%Z;
  mr_service_diversity : (3 <= service_diversity (network c) <= 10)%Q;
  mr_response_delay : (0.1 <= response_delay (network c) <= 2.0)%Q;
  mr_traffic_mimicry : (0.5 <= traffic_mimicry (network c) <= 1.0)%Q;
  mr_chaos_parameter : (3.6 <= chaos_parameter (math c) <= 4.0)%Q;
  mr_entropy_target : (0.6 <= entropy_target (math c) <= 0.9)%Q;
  mr_fractal_complexity : (0.4 <= fractal_complexity (math c) <= 0.9)%Q
}.

(** ** Host functions

    Two functions of the host platform are not part of the repository and
    have no exact counterpart on rationals: [numpy.log2] and the textual
    representation [str] of a list of numbers. The model is parametric in
    them. *)

Inductive pynum : Type :=
  | PInt (z : Z)
  | PFloat (q : Q).

Class Host : Type := {
  np_log2 : Q -> Q;
  py_str : list pynum -> string
}.

(** ** Telemetry *)

(** The values of an [attack_results] dictionary: numbers and booleans. *)
Inductive pyval : Type :=
  | VNum (q : Q)
  | VBool (b : bool).

(** A boolean used as a number is [1] or [0]. *)
Definition num_of (v : pyval) : Q :=
  match v with
  | VNum q => q
  | VBool b => if b then 1 else 0
  end.

(** Truth value of [v] in a conditional. *)
Definition truthy (v : pyval) : bool :=
  match v with
  | VNum q => negb (Qeq_bool q 0)
  | VBool b => b
  end.

Abbreviation stats := (gmap string pyval).

(** [d.get(key, default)] *)
Definition dict_get (d : stats) (key : string) (dflt : pyval) : pyval :=
  default dflt (d !! key).

(** ** Shannon entropy ([MetricsTracker.calculate_entropy]) *)

(** [char_freq[char] = char_freq.get(char, 0) + 1], on a dictionary kept
    in insertion order. *)
Fixpoint bump (char : ascii) (char_freq : list (ascii * nat)) : list (ascii * nat) :=
  match char_freq with
  | [] => [(char, 1)]
  | (c, n) :: rest =>
      if decide (c = char) then (c, S n) :: rest else (c, n) :: bump char rest
  end.

(** The number of characters counted in a frequency dictionary. *)
Definition counts_sum (d : list (ascii * nat)) : nat :=
  foldr (fun cf acc => cf.2 + acc) 0 d.

(** Python's [sum]: a left fold from [0]. *)
Definition py_sum (l : list Q) : Q := fold_left Qplus l 0%Q.

Definition Qnat (n : nat) : Q := inject_Z (Z.of_nat n).

Definition calculate_entropy `{Host} (data : string) : Q :=
  if decide (data = "") then 0.0%Q else
  let data_str := String.list_ascii_of_string data in
  let char_freq := fold_left (fun d char => bump char d) data_str [] in
  let total_chars := length data_str in
  let probabilities := map (fun cf => (Qnat cf.2 / Qnat total_chars)%Q) char_freq in
  let entropy :=
    (- py_sum (map (fun p => p * np_log2 p)
                   (filter (fun p => Qltb 0 p = true) probabilities)))%Q in
  entropy.

(** ** Fitness *)

Record fitness_weights : Type := {
  w_engagement_time : Q;
  w_data_quality : Q;
  w_confusion_score : Q;
  w_genetic_diversity : Q
}.

Definition _calculate_chromosome_diversity `{Host} (chrom : chromosome) : Q :=
  let config_values :=
    [ PInt (honeypot_count chrom);
      PInt (count (mirage chrom));
      PFloat (mutation_rate (mirage chrom));
      PFloat (complexity (credential chrom));
      PFloat (decoy_density (filesystem chrom));
      PFloat (service_diversity (network chrom)) ] in
  let entropy := calculate_entropy (py_str config_values) in
  let diversity_score := py_min (entropy / 10.0) 1.0 in
  diversity_score.

Definition fitness_function `{Host} (weights : fitness_weights)
    (chrom : chromosome) (attack_results : stats) : Q :=
  if decide (size attack_results = 0) then 0.0%Q else
  let engagement_time := num_of (dict_get attack_results "total_interaction_time" (VNum 0)) in
  let engagement_score := py_min (engagement_time / 120.0) 1.0 in
  let data_points := num_of (dict_get attack_results "data_points_collected" (VNum 0)) in
  let data_score := py_min (data_points / 100.0) 1.0 in
  let failed_exploits := num_of (dict_get attack_results "failed_exploits" (VNum 0)) in
  let repeated_attempts := num_of (dict_get attack_results "repeated_attempts" (VNum 0)) in
  let abandoned := dict_get attack_results "abandoned" (VBool false) in
  let total_attempts := num_of (dict_get attack_results "total_attempts" (VNum 1)) in
  let confusion_score :=
    ((failed_exploits / py_max total_attempts 1) * 0.5 +
     (repeated_attempts / py_max total_attempts 1) * 0.3 +
     (if truthy abandoned then 0.2 else 0.0))%Q in
  let diversity_score := _calculate_chromosome_diversity chrom in
  let fitness :=
    (engagement_score * w_engagement_time weights +
     data_score * w_data_quality weights +
     confusion_score * w_confusion_score weights +
     diversity_score * w_genetic_diversity weights)%Q in
  (fitness * 1000)%Q.

(** The three telemetry factors of [fitness_function], by name. *)
Definition engagement_score_of (attack_results : stats) : Q :=
  py_min (num_of (dict_get attack_results "total_interaction_time" (VNum 0)) / 120.0) 1.0.

Definition data_score_of (attack_results : stats) : Q :=
  py_min (num_of (dict_get attack_results "data_points_collected" (VNum 0)) / 100.0) 1.0.

Definition confusion_score_of (attack_results : stats) : Q :=
  let total_attempts := num_of (dict_get attack_results "total_attempts" (VNum 1)) in
  ((num_of (dict_get attack_results "failed_exploits" (VNum 0)) / py_max total_attempts 1) * 0.5 +
   (num_of (dict_get attack_results "repeated_attempts" (VNum 0)) / py_max total_attempts 1) * 0.3 +
   (if truthy (dict_get attack_results "abandoned" (VBool false)) then 0.2 else 0.0))%Q.

(** ** The object store

    A chromosome dictionary is an object: the live population, the
    breeding pool, the history and the value returned by
    [evolve_generation] may all refer to the same one. [copy.deepcopy]
    and the dictionary displays allocate fresh objects. *)

Abbreviation loc := nat.

Record world : Type := {
  heap : list chromosome;
  source : rng
}.

Definition M (A : Type) : Type := world -> result (A * world).

Definition pureM {A} (a : A) : M A := fun w => inr (a, w).

Definition bindM {A B} (c : M A) (k : A -> M B) : M B :=
  fun w => match c w with
           | inl e => inl e
           | inr (a, w') => k a w'
           end.

Notation "x <- c ;; k" := (bindM c (fun x => k))
  (at level 100, c at next level, right associativity).

Definition raise {A} (e : exn) : M A := fun _ => inl e.

(** A stochastic operation draws from the source of the world. *)
Definition liftR {A} (c : Rand A) : M A :=
  fun w => let (a, g) := c (source w) in
           inr (a, {| heap := heap w; source := g |}).

Definition read (l : loc) : M chromosome :=
  fun w => match heap w !! l with
           | Some c => inr (c, w)
           | None => inl DanglingReference
           end.

Definition write (l : loc) (c : chromosome) : M unit :=
  fun w => inr (tt, {| heap := <[l := c]> (heap w); source := source w |}).

Definition alloc (c : chromosome) : M loc :=
  fun w => inr (length (heap w), {| heap := heap w ++ [c]; source := source w |}).

(** [copy.deepcopy(obj)] *)
Definition deepcopy (l : loc) : M loc :=
  c <- read l ;; alloc c.

(** ** Sequences *)

(** [l[:k]], where a negative [k] counts from the end. *)
Definition slice_to {A} (l : list A) (k : Z) : list A :=
  if (0 <=? k)%Z then take (Z.to_nat k) l
  else take (Z.to_nat (Z.of_nat (length l) + k)) l.

(** [l[-k:]] for a positive [k]. *)
Definition slice_last {A} (k : nat) (l : list A) : list A :=
  drop (length l - k) l.

(** [sorted(l, key=key, reverse=True)]: descending and stable. *)
Fixpoint insert_desc {A} (key : A -> Q) (x : A) (l : list A) : list A :=
  match l with
  | [] => [x]
  | y :: l' =>
      if Qltb (key x) (key y) then y :: insert_desc key x l' else x :: y :: l'
  end.

Definition sorted_reverse {A} (key : A -> Q) (l : list A) : list A :=
  foldr (insert_desc key) [] l.

(** [max(l, key=key)]: the first member with the greatest key. *)
Fixpoint max_from {A} (key : A -> Q) (best : A) (l : list A) : A :=
  match l with
  | [] => best
  | x :: l' => max_from key (if Qltb (key best) (key x) then x else best) l'
  end.

Definition py_max_key {A} (key : A -> Q) (l : list A) : option A :=
  match l with
  | [] => None
  | x :: l' => Some (max_from key x l')
  end.

(** [numpy.mean] *)
Definition np_mean (l : list Q) : Q := (py_sum l / Qnat (length l))%Q.

(** [random.sample(population, k)] *)
Definition random_sample {A} (population : list A) (k : nat) : M (list A) :=
  if length population <? k then raise ValueError
  else
    positions <- liftR (sample_positions (seq 0 (length population)) k) ;;
    pureM (omap (fun p => population !! p) positions).

(** [random.choice(seq)] *)
Definition random_choice {A} (l : list A) : M A :=
  j <- liftR (randbelow (length l)) ;;
  match l !! j with
  | Some x => pureM x
  | None => raise IndexError
  end.

(** ** The engine *)

Record ga_config : Type := {
  cfg_population_size : Z;
  cfg_mutation_rate : Q;
  cfg_crossover_rate : Q;
  cfg_elite_size : Z;
  cfg_fitness_weights : fitness_weights
}.

(** [utilities/config.py] *)
Definition GA_CONFIG : ga_config := {|
  cfg_population_size := 20;
  cfg_mutation_rate := 0.2;
  cfg_crossover_rate := 0.8;
  cfg_elite_size := 4;
  cfg_fitness_weights := {|
    w_engagement_time := 0.3;
    w_data_quality := 0.25;
    w_confusion_score := 0.25;
    w_genetic_diversity := 0.2 |}
|}.

(** One entry of [fitness_history]; [best_chromosome] is a reference. *)
Record evolution_data : Type := {
  generation : nat;
  best_fitness : Q;
  avg_fitness : Q;
  worst_fitness : Q;
  best_chromosome : loc;
  improvement : Q
}.

(** The attributes of a [GeneticDeceptionEvolver]. *)
Record engine : Type := {
  population_size : Z;
  self_mutation_rate : Q;
  crossover_rate : Q;
  elite_size : Z;
  self_fitness_weights : fitness_weights;
  population : list loc;
  self_generation : nat;
  fitness_history : list evolution_data;
  best_chromosome_history : list loc
}.

(** ** Construction *)

Definition _create_random_chromosome (self_generation : nat) : M chromosome :=
  v_honeypot_count <- liftR (random_randint 3 10) ;;
  k <- liftR (random_randint 3 6) ;;
  v_honeypot_types <-
    random_sample ["ssh"; "ftp"; "http"; "mysql"; "redis"; "smtp"] (Z.to_nat k) ;;
  v_count <- liftR (random_randint 5 15) ;;
  v_mutation_rate <- liftR (random_uniform 0.1 0.5) ;;
  k <- liftR (random_randint 4 8) ;;
  v_process_types <-
    random_sample ["database"; "web_server"; "ssh_daemon"; "backup_service";
                   "cache_server"; "api_gateway"; "file_server"; "mail_server"]
                  (Z.to_nat k) ;;
  v_polymorphism_intensity <- liftR (random_uniform 0.3 1.0) ;;
  v_complexity <- liftR (random_uniform 0.3 0.9) ;;
  v_realism_level <- liftR (random_uniform 0.5 1.0) ;;
  v_diversity <- liftR (random_uniform 0.4 0.9) ;;
  v_decoy_density <- liftR (random_uniform 0.1 0.8) ;;
  k <- liftR (random_randint 3 6) ;;
  v_file_types <-
    random_sample ["config"; "database"; "backup"; "log"; "key"; "credential"]
                  (Z.to_nat k) ;;
  v_fractal_depth <- liftR (random_randint 2 5) ;;
  v_service_diversity <- liftR (random_randint 3 10) ;;
  v_response_delay <- liftR (random_uniform 0.1 2.0) ;;
  v_traffic_mimicry <- liftR (random_uniform 0.5 1.0) ;;
  v_chaos_parameter <- liftR (random_uniform 3.6 4.0) ;;
  v_entropy_target <- liftR (random_uniform 0.6 0.9) ;;
  v_fractal_complexity <- liftR (random_uniform 0.4 0.9) ;;
  pureM {|
    honeypot_count := v_honeypot_count;
    honeypot_types := v_honeypot_types;
    mirage := {| count := v_count; mutation_rate := v_mutation_rate;
                 process_types := v_process_types;
                 polymorphism_intensity := v_polymorphism_intensity |};
    credential := {| complexity := v_complexity;
                     realism_level := v_realism_level;
                     diversity := v_diversity |};
    filesystem := {| decoy_density := v_decoy_density;
                     file_types := v_file_types;
                     fractal_depth := v_fractal_depth |};
    network := {| service_diversity := inject_Z v_service_diversity;
                  response_delay := v_response_delay;
                  traffic_mimicry := v_traffic_mimicry |};
    math := {| chaos_parameter := v_chaos_parameter;
               entropy_target := v_entropy_target;
               fractal_complexity := v_fractal_complexity |};
    fitness := 0.0;
    generation_created := self_generation;
    parent_ids := [];
    id := ""
  |}.

(** The loop of [_initialize_population], from index [i], [n] rounds. *)
Fixpoint initialize_from (self_generation i n : nat) : M (list loc) :=
  match n with
  | O => pureM []
  | S n' =>
      chrom <- _create_random_chromosome self_generation ;;
      l <- alloc (set_id ("gen0_chr" +:+ pretty i) chrom) ;;
      rest <- initialize_from self_generation (S i) n' ;;
      pureM (l :: rest)
  end.

Definition _initialize_population (self_population_size : Z) (self_generation : nat)
    : M (list loc) :=
  initialize_from self_generation 0 (Z.to_nat self_population_size).

Definition __init__ (config : ga_config) : M engine :=
  v_population <- _initialize_population (cfg_population_size config) 0 ;;
  pureM {|
    population_size := cfg_population_size config;
    self_mutation_rate := cfg_mutation_rate config;
    crossover_rate := cfg_crossover_rate config;
    elite_size := cfg_elite_size config;
    self_fitness_weights := cfg_fitness_weights config;
    population := v_population;
    self_generation := 0;
    fitness_history := [];
    best_chromosome_history := []
  |}.

(** ** Crossover *)

(** The two children start as deep copies of the parents; the parents are
    only read. The result is the pair of new dictionaries. *)
Definition _crossover (self_generation : nat) (parent1 parent2 : chromosome)
    : Rand (chromosome * chromosome) :=
  let child1 := parent1 in
  let child2 := parent2 in
  u <~ random_random ;;
  let child1' := if Qltb u 0.5
                 then set_honeypot_count (honeypot_count parent2) child1 else child1 in
  let child2' := if Qltb u 0.5
                 then set_honeypot_count (honeypot_count parent1) child2 else child2 in
  let child1 := child1' in let child2 := child2' in
  u <~ random_random ;;
  let child1' := if Qltb u 0.5
                 then set_mirage (set_count (count (mirage parent2)) (mirage child1)) child1
                 else child1 in
  let child2' := if Qltb u 0.5
                 then set_mirage (set_count (count (mirage parent1)) (mirage child2)) child2
                 else child2 in
  let child1 := child1' in let child2 := child2' in
  u <~ random_random ;;
  let child1' := if Qltb u 0.5 then set_credential (credential parent2) child1 else child1 in
  let child2' := if Qltb u 0.5 then set_credential (credential parent1) child2 else child2 in
  let child1 := child1' in let child2 := child2' in
  u <~ random_random ;;
  let child1' := if Qltb u 0.5 then set_filesystem (filesystem parent2) child1 else child1 in
  let child2' := if Qltb u 0.5 then set_filesystem (filesystem parent1) child2 else child2 in
  let child1 := child1' in let child2 := child2' in
  (* network_config: every key is numeric, one weight per key *)
  a1 <~ random_random ;;
  a2 <~ random_random ;;
  a3 <~ random_random ;;
  let n1 := network parent1 in let n2 := network parent2 in
  let child1 := set_network
    {| service_diversity := a1 * service_diversity n1 + (1 - a1) * service_diversity n2;
       response_delay := a2 * response_delay n1 + (1 - a2) * response_delay n2;
       traffic_mimicry := a3 * traffic_mimicry n1 + (1 - a3) * traffic_mimicry n2 |}%Q
    child1 in
  let child2 := set_network
    {| service_diversity := (1 - a1) * service_diversity n1 + a1 * service_diversity n2;
       response_delay := (1 - a2) * response_delay n1 + a2 * response_delay n2;
       traffic_mimicry := (1 - a3) * traffic_mimicry n1 + a3 * traffic_mimicry n2 |}%Q
    child2 in
  (* math_config *)
  a1 <~ random_random ;;
  a2 <~ random_random ;;
  a3 <~ random_random ;;
  let m1 := math parent1 in let m2 := math parent2 in
  let child1 := set_math
    {| chaos_parameter := a1 * chaos_parameter m1 + (1 - a1) * chaos_parameter m2;
       entropy_target := a2 * entropy_target m1 + (1 - a2) * entropy_target m2;
       fractal_complexity := a3 * fractal_complexity m1 + (1 - a3) * fractal_complexity m2 |}%Q
    child1 in
  let child2 := set_math
    {| chaos_parameter := (1 - a1) * chaos_parameter m1 + a1 * chaos_parameter m2;
       entropy_target := (1 - a2) * entropy_target m1 + a2 * entropy_target m2;
       fractal_complexity := (1 - a3) * fractal_complexity m1 + a3 * fractal_complexity m2 |}%Q
    child2 in
  (* metadata *)
  r1 <~ random_randint 1000 9999 ;;
  let child1 := set_id ("gen" +:+ pretty self_generation +:+ "_chr" +:+ pretty r1) child1 in
  r2 <~ random_randint 1000 9999 ;;
  let child2 := set_id ("gen" +:+ pretty self_generation +:+ "_chr" +:+ pretty r2) child2 in
  let child1 := set_parent_ids [id parent1; id parent2] child1 in
  let child2 := set_parent_ids [id parent1; id parent2] child2 in
  let child1 := set_generation_created self_generation child1 in
  let child2 := set_generation_created self_generation child2 in
  ret (child1, child2).

(** ** Tournament selection *)

(** [n] rounds of the loop of [_tournament_selection]. *)
Fixpoint tournament_rounds (sorted_population : list (loc * Q)) (n : nat)
    : M (list loc) :=
  match n with
  | O => pureM []
  | S n' =>
      let k := 3 in
      tournament <- random_sample sorted_population k ;;
      match py_max_key snd tournament with
      | None => raise ValueError
      | Some best =>
          let winner := best.1 in
          selected <- tournament_rounds sorted_population n' ;;
          pureM (winner :: selected)
      end
  end.

Definition _tournament_selection (sorted_population : list (loc * Q))
    (tournament_size : Z) : M (list loc) :=
  tournament_rounds sorted_population (Z.to_nat tournament_size).

(** ** One generation *)

(** Step 1: evaluate every chromosome and store its fitness in it. *)
Fixpoint evaluate `{Host} (weights : fitness_weights)
    (attack_results_batch : gmap string stats) (pop : list loc)
    : M (list (loc * Q)) :=
  match pop with
  | [] => pureM []
  | chrom :: rest =>
      c <- read chrom ;;
      let results := default ∅ (attack_results_batch !! id c) in
      let fit := fitness_function weights c results in
      _ <- write chrom (set_fitness fit c) ;;
      fitness_scores <- evaluate weights attack_results_batch rest ;;
      pureM ((chrom, fit) :: fitness_scores)
  end.

(** Step 4: the [while] loop that fills [offspring]. Every round adds two
    members, so [fuel] rounds suffice when [fuel] is the population size. *)
Fixpoint breed (fuel : nat) (self : engine) (new_population breeding_pool : list loc)
    (offspring : list loc) : M (list loc) :=
  if (Z.of_nat (length new_population + length offspring) <? population_size self)%Z
  then
    if length breeding_pool <? 2 then pureM offspring
    else
      match fuel with
      | O => raise OutOfFuel
      | S fuel' =>
          parent1 <- random_choice breeding_pool ;;
          parent2 <- random_choice breeding_pool ;;
          u <- liftR random_random ;;
          if Qltb u (crossover_rate self) then
            p1 <- read parent1 ;;
            p2 <- read parent2 ;;
            children <- liftR (_crossover (self_generation self) p1 p2) ;;
            child1 <- alloc children.1 ;;
            child2 <- alloc children.2 ;;
            breed fuel' self new_population breeding_pool (offspring ++ [child1; child2])
          else
            copy1 <- deepcopy parent1 ;;
            copy2 <- deepcopy parent2 ;;
            breed fuel' self new_population breeding_pool (offspring ++ [copy1; copy2])
      end
  else pureM offspring.

(** Step 5: [for child in offspring: if random.random() < rate:
    child = self._mutate(child)]. [_mutate] returns a new dictionary, and
    the assignment binds it to the loop variable. *)
Fixpoint mutation_loop (self : engine) (offspring : list loc) : M unit :=
  match offspring with
  | [] => pureM tt
  | child :: rest =>
      u <- liftR random_random ;;
      _ <- (if Qltb u (self_mutation_rate self) then
              c <- read child ;;
              mutated <- liftR (_mutate c) ;;
              child' <- alloc mutated ;;
              pureM tt
            else pureM tt) ;;
      mutation_loop self rest
  end.

Definition evolve_generation `{Host} (self : engine)
    (attack_results_batch : gmap string stats) : M (loc * engine) :=
  fitness_scores <-
    evaluate (self_fitness_weights self) attack_results_batch (population self) ;;
  let sorted_population := sorted_reverse snd fitness_scores in
  match head sorted_population, last sorted_population with
  | Some first, Some final =>
      let v_best_fitness := first.2 in
      let v_avg_fitness := np_mean (map snd fitness_scores) in
      let v_worst_fitness := final.2 in
      let new_population := map fst (slice_to sorted_population (elite_size self)) in
      breeding_pool <-
        _tournament_selection sorted_population (population_size self / 2)%Z ;;
      offspring <-
        breed (Z.to_nat (population_size self)) self new_population breeding_pool [] ;;
      _ <- mutation_loop self offspring ;;
      let new_population :=
        new_population ++
        slice_to offspring (population_size self - Z.of_nat (length new_population))%Z in
      let v_generation := S (self_generation self) in
      let v_evolution_data := {|
        generation := v_generation;
        best_fitness := v_best_fitness;
        avg_fitness := v_avg_fitness;
        worst_fitness := v_worst_fitness;
        best_chromosome := first.1;
        improvement :=
          match last (fitness_history self) with
          | Some previous => (v_best_fitness - best_fitness previous)%Q
          | None => 0.0%Q
          end |} in
      pureM (first.1,
             {| population_size := population_size self;
                self_mutation_rate := self_mutation_rate self;
                crossover_rate := crossover_rate self;
                elite_size := elite_size self;
                self_fitness_weights := self_fitness_weights self;
                population := new_population;
                self_generation := v_generation;
                fitness_history := fitness_history self ++ [v_evolution_data];
                best_chromosome_history := best_chromosome_history self ++ [first.1] |})
  | _, _ => raise IndexError
  end.

(** ** Queries *)

Fixpoint read_all (ls : list loc) : M (list (loc * chromosome)) :=
  match ls with
  | [] => pureM []
  | l :: rest =>
      c <- read l ;;
      cs <- read_all rest ;;
      pureM ((l, c) :: cs)
  end.

Definition get_best_chromosome (self : engine) : M (option loc) :=
  match population self with
  | [] => pureM None
  | _ =>
      objects <- read_all (population self) ;;
      match py_max_key (fun x => fitness x.2) objects with
      | Some best => pureM (Some best.1)
      | None => raise ValueError
      end
  end.

Record honeypots_export : Type := {
  hp_count : Z;
  hp_types : list string
}.

Record configuration_export : Type := {
  honeypots : honeypots_export;
  mirages : mirage_config;
  credentials : credential_config;
  x_filesystem : filesystem_config;
  x_network : network_config;
  mathematics : math_config
}.

Record strategy : Type := {
  strategy_id : string;
  fitness_score : Q;
  x_generation : nat;
  configuration : configuration_export
}.

Definition strategy_of (best : chromosome) : strategy := {|
  strategy_id := id best;
  fitness_score := fitness best;
  x_generation := generation_created best;
  configuration := {|
    honeypots := {| hp_count := honeypot_count best; hp_types := honeypot_types best |};
    mirages := mirage best;
    credentials := credential best;
    x_filesystem := filesystem best;
    x_network := network best;
    mathematics := math best |}
|}.

Definition export_best_strategy (self : engine) : M (option strategy) :=
  best <- get_best_chromosome self ;;
  match best with
  | None => pureM None
  | Some l => b <- read l ;; pureM (Some (strategy_of b))
  end.

(** ** Diversity score ([utilities/metrics.py]) *)

(** A state snapshot; a key may be absent. *)
Record process_state : Type := {
  name : option string;
  memory : option Q;
  cpu : option Q
}.

Definition ljust (s : list ascii) (width : nat) : list ascii :=
  s ++ replicate (width - length s) " "%char.

Definition _hamming_distance (str1 str2 : string) : Q :=
  let s1 := String.list_ascii_of_string str1 in
  let s2 := String.list_ascii_of_string str2 in
  let max_len := Nat.max (length s1) (length s2) in
  if decide (max_len = 0) then 0.0%Q else
  let s1 := ljust s1 max_len in
  let s2 := ljust s2 max_len in
  let distance :=
    length (filter (fun p => p.1 <> p.2) (zip s1 s2)) in
  (Qnat distance / Qnat max_len)%Q.

(** Python's true division. *)
Definition py_div (a b : Q) : result Q :=
  if Qeq_bool b 0 then inl ZeroDivisionError else inr (a / b)%Q.

(** The body of the loop: the score against one earlier state. *)
Definition state_diversity (current_state prev_state : process_state) : result Q :=
  let name_diff :=
    _hamming_distance (default "" (name current_state)) (default "" (name prev_state)) in
  match py_div (Qabs (default 0%Q (memory current_state) - default 0%Q (memory prev_state)))
               (py_max (default 1%Q (memory current_state)) (default 1%Q (memory prev_state)))
  with
  | inl e => inl e
  | inr memory_diff =>
      let cpu_diff :=
        (Qabs (default 0%Q (cpu current_state) - default 0%Q (cpu prev_state)) / 100.0)%Q in
      inr (name_diff * 0.4 + memory_diff * 0.3 + cpu_diff * 0.3)%Q
  end.

Fixpoint diversity_loop (current_state : process_state)
    (states : list process_state) : result (list Q) :=
  match states with
  | [] => inr []
  | prev_state :: rest =>
      match state_diversity current_state prev_state with
      | inl e => inl e
      | inr d =>
          match diversity_loop current_state rest with
          | inl e => inl e
          | inr ds => inr (d :: ds)
          end
      end
  end.

Definition calculate_genetic_diversity_score (current_state : process_state)
    (previous_states : list process_state) : result Q :=
  match previous_states with
  | [] => inr 0.0%Q
  | _ =>
      match diversity_loop current_state (slice_last 5 previous_states) with
      | inl e => inl e
      | inr diversity_scores => inr (np_mean diversity_scores)
      end
  end.

(** ** Concrete inputs

    Data on which the properties below are exercised. *)

Definition sample_chromosome : chromosome := {|
  honeypot_count := 5;
  honeypot_types := ["ssh"; "ftp"; "http"];
  mirage := {| count := 8; mutation_rate := 0.3;
               process_types := ["database"; "web_server"; "ssh_daemon"; "backup_service"];
               polymorphism_intensity := 0.5 |};
  credential := {| complexity := 0.3; realism_level := 0.5; diversity := 0.4 |};
  filesystem := {| decoy_density := 0.4; file_types := ["config"; "log"; "key"];
                   fractal_depth := 3 |};
  network := {| service_diversity := 5; response_delay := 1.0; traffic_mimicry := 0.7 |};
  math := {| chaos_parameter := 3.8; entropy_target := 0.7; fractal_complexity := 0.5 |};
  fitness := 0.0;
  generation_created := 0;
  parent_ids := [];
  id := "gen0_chr0"
|}.

(** A source under which one mutation pass skips the first three genes,
    lowers [complexity] by the largest step, and skips the rest. *)
Definition lowering_source : rng :=
  [(1, 1); (1, 1); (1, 1); (0, 0); (0, 0); (1, 1); (1, 1); (1, 1); (1, 1); (1, 1)].

(** Two evaluated chromosomes, as parents. *)
Definition first_parent : chromosome := set_fitness 40 sample_chromosome.

Definition second_parent : chromosome :=
  set_fitness 30 (set_honeypot_count 7 (set_id "gen0_chr1" sample_chromosome)).

(** Telemetry inside the documented domain (counts at least 0, at least one
    attempt) whose failure and repetition counts exceed the attempts. *)
Definition overrun_stats : stats :=
  {[ "total_interaction_time" := VNum 120;
     "data_points_collected" := VNum 100;
     "failed_exploits" := VNum 30;
     "repeated_attempts" := VNum 30;
     "abandoned" := VBool true;
     "total_attempts" := VNum 10 ]}.

(** A host for running the model: the integer part of the base-2
    logarithm, and a plain rendering of a list of numbers. *)
Definition floor_log2 (p : Q) : Q :=
  inject_Z (Z.log2 (Qnum p) - Z.log2 (Z.pos (Qden p))).

Definition render (v : pynum) : string :=
  match v with
  | PInt z => pretty z
  | PFloat q => pretty (Qnum q) +:+ "/" +:+ pretty (Z.pos (Qden q))
  end.

Definition plain_host : Host := {|
  np_log2 := floor_log2;
  py_str := fun l => "[" +:+ String.concat ", " (map render l) +:+ "]"
|}.

(** ** The diversity score in the words of the specification

    A snapshot carries all three keys. The score of a current state against
    a sequence of earlier ones is the average of
    [0.4 * normalized_hamming + 0.3 * |memory - memory'| / max(memory, memory')
     + 0.3 * |cpu - cpu'| / 100], and [0] for an empty sequence. *)

Record snapshot : Type := {
  s_name : string;
  s_memory : Q;
  s_cpu : Q
}.

Definition of_snapshot (s : snapshot) : process_state :=
  {| name := Some (s_name s); memory := Some (s_memory s); cpu := Some (s_cpu s) |}.

Fixpoint mismatches (a b : list ascii) : nat :=
  match a, b with
  | x :: a', y :: b' => (if decide (x = y) then 0 else 1) + mismatches a' b'
  | _, _ => 0
  end.

Definition spec_normalized_hamming (a b : string) : Q :=
  let a := String.list_ascii_of_string a in
  let b := String.list_ascii_of_string b in
  let padded := Nat.max (length a) (length b) in
  (Qnat (mismatches (ljust a padded) (ljust b padded)) / Qnat padded)%Q.

Definition spec_term (current previous : snapshot) : Q :=
  (0.4 * spec_normalized_hamming (s_name current) (s_name previous) +
   0.3 * (Qabs (s_memory current - s_memory previous) /
          Qmax (s_memory current) (s_memory previous)) +
   0.3 * (Qabs (s_cpu current - s_cpu previous) / 100))%Q.

Definition average (l : list Q) : Q :=
  (foldr Qplus 0 l / Qnat (length l))%Q.

Definition spec_diversity_score (current : snapshot) (previous : list snapshot) : Q :=
  match previous with
  | [] => 0%Q
  | _ => average (map (spec_term current) previous)
  end.

(** The domain on which the score is a fraction: positive memory, and a
    processor share between 0 and 100. *)
Definition valid_snapshot (s : snapshot) : Prop :=
  (0 < s_memory s)%Q /\ (0 <= s_cpu s <= 100)%Q.

(** Snapshots for exercising the score. *)
Definition idle_process : snapshot :=
  {| s_name := "sshd"; s_memory := 0; s_cpu := 0 |}.

Definition small_process : snapshot :=
  {| s_name := "sshd"; s_memory := 10; s_cpu := 0 |}.

Definition runaway_process : snapshot :=
  {| s_name := "sshd"; s_memory := 10; s_cpu := 1000 |}.

Definition busy_process : snapshot :=
  {| s_name := "sshd"; s_memory := 10; s_cpu := 100 |}.

(** A generation of four evaluated chromosomes with fitness 10, 20, 30 and
    40, and an engine that owns it (population size 4, one elite). *)
Definition four_chromosomes : list chromosome :=
  [ set_fitness 10 (set_id "gen0_chr0" sample_chromosome);
    set_fitness 20 (set_honeypot_count 6 (set_id "gen0_chr1" sample_chromosome));
    set_fitness 30 (set_honeypot_count 7 (set_id "gen0_chr2" sample_chromosome));
    set_fitness 40 (set_honeypot_count 8 (set_id "gen0_chr3" sample_chromosome)) ].

Definition small_engine (v_mutation_rate v_crossover_rate : Q) : engine := {|
  population_size := 4;
  self_mutation_rate := v_mutation_rate;
  crossover_rate := v_crossover_rate;
  elite_size := 1;
  self_fitness_weights := cfg_fitness_weights GA_CONFIG;
  population := [0; 1; 2; 3];
  self_generation := 0;
  fitness_history := [];
  best_chromosome_history := []
|}.

Definition small_world (g : rng) : world :=
  {| heap := four_chromosomes; source := g |}.

(** An engine whose population has been emptied. *)
Definition empty_engine : engine := {|
  population_size := 4;
  self_mutation_rate := 0.2;
  crossover_rate := 0.8;
  elite_size := 1;
  self_fitness_weights := cfg_fitness_weights GA_CONFIG;
  population := [];
  self_generation := 0;
  fitness_history := [];
  best_chromosome_history := []
|}.

(** A configuration that breaks every constraint on the fixed parameters. *)
Definition broken_config : ga_config := {|
  cfg_population_size := 1;
  cfg_mutation_rate := 2;
  cfg_crossover_rate := -1;
  cfg_elite_size := 4;
  cfg_fitness_weights := cfg_fitness_weights GA_CONFIG
|}.

(** ** Tournaments, as a relation

    [winner] won a tournament over [sorted_population]: three competitors
    at pairwise distinct positions, of which [winner] is one with the
    greatest fitness. *)
Definition won_tournament (sorted_population : list (loc * Q)) (winner : loc) : Prop :=
  exists i j k x y z best,
    NoDup [i; j; k] /\
    sorted_population !! i = Some x /\
    sorted_population !! j = Some y /\
    sorted_population !! k = Some z /\
    best ∈ [x; y; z] /\ winner = best.1 /\
    (x.2 <= best.2)%Q /\ (y.2 <= best.2)%Q /\ (z.2 <= best.2)%Q.

(** The ranked scores of [four_chromosomes]. *)
Definition four_ranked : list (loc * Q) :=
  [(3, 40%Q); (2, 30%Q); (1, 20%Q); (0, 10%Q)].

(** ** Frame conditions

    A computation allocates when every object that exists before it runs
    is still there, unchanged, after it ran. *)
Definition allocates {A} (c : M A) : Prop :=
  forall w a w', c w = inr (a, w') -> heap w `prefix_of` heap w'.

(** [evolve_generation], several times in a row. *)
Fixpoint evolve_generations `{Host} (self : engine)
    (batches : list (gmap string stats)) : M engine :=
  match batches with
  | [] => pureM self
  | attack_results_batch :: rest =>
      r <- evolve_generation self attack_results_batch ;;
      evolve_generations r.2 rest
  end.

(** Telemetry of one engaged attacker. *)
Definition engaged_stats : stats :=
  {[ "total_interaction_time" := VNum 45;
     "data_points_collected" := VNum 67;
     "failed_exploits" := VNum 12;
     "repeated_attempts" := VNum 8;
     "abandoned" := VBool false;
     "total_attempts" := VNum 20 ]}.

(** The fitness that step 1 of [evolve_generation] assigns to a chromosome. *)
Definition evaluated_fitness `{Host} (weights : fitness_weights)
    (attack_results_batch : gmap string stats) (c : chromosome) : Q :=
  fitness_function weights c (default ∅ (attack_results_batch !! id c)).

(** [h'] is [h] with the fitness of some of its chromosomes re-evaluated. *)
Definition reevaluated `{Host} (weights : fitness_weights)
    (attack_results_batch : gmap string stats) (h h' : list chromosome) : Prop :=
  length h' = length h /\
  forall l c, h !! l = Some c ->
    h' !! l = Some c \/
    h' !! l = Some (set_fitness (evaluated_fitness weights attack_results_batch c) c).

(** [h'] holds the objects of [h], each with all its keys except possibly
    ['fitness'] as before. *)
Definition same_but_fitness (h h' : list chromosome) : Prop :=
  forall l c, h !! l = Some c ->
    exists c', h' !! l = Some c' /\ c' = set_fitness (fitness c') c.

(** Every reference of [ls] points into the store of [w]. *)
Definition valid_refs (w : world) (ls : list loc) : Prop :=
  Forall (fun l => l < length (heap w)) ls.

(** ** Evolution statistics ([get_evolution_stats]) *)

(** The returned dictionary; the key ['total_generations'] is absent from
    the one returned for an empty history. *)
Record evolution_stats : Type := {
  stats_generation : nat;
  stats_best_fitness : Q;
  stats_avg_fitness : Q;
  improvement_rate : Q;
  total_generations : option nat
}.

Definition get_evolution_stats (self : engine) : result evolution_stats :=
  match last (fitness_history self) with
  | None =>
      inr {| stats_generation := 0; stats_best_fitness := 0.0; stats_avg_fitness := 0.0;
             improvement_rate := 0.0; total_generations := None |}
  | Some latest =>
      let rate : result Q :=
        if 1 <? length (fitness_history self) then
          match head (fitness_history self) with
          | None => inl IndexError
          | Some first =>
              let first_gen := best_fitness first in
              let current_gen := best_fitness latest in
              if Qltb 0 first_gen then
                match py_div (current_gen - first_gen) first_gen with
                | inl e => inl e
                | inr ratio => inr (ratio * 100)%Q
                end
              else inr 0.0%Q
          end
        else inr 0.0%Q in
      match rate with
      | inl e => inl e
      | inr v_improvement_rate =>
          inr {| stats_generation := generation latest;
                 stats_best_fitness := best_fitness latest;
                 stats_avg_fitness := avg_fitness latest;
                 improvement_rate := v_improvement_rate;
                 total_generations := Some (length (fitness_history self)) |}
      end
  end.

(** The bookkeeping that [evolve_generation] maintains from construction
    on: one record per generation, numbered from 1, each with its best
    chromosome also in [best_chromosome_history], a worst fitness that is
    not above the best, and the improvement over the record before it. *)
Definition history_consistent (self : engine) : Prop :=
  length (fitness_history self) = self_generation self /\
  length (best_chromosome_history self) = self_generation self /\
  (forall i r, fitness_history self !! i = Some r ->
     generation r = S i /\
     best_chromosome_history self !! i = Some (best_chromosome r) /\
     (worst_fitness r <= best_fitness r)%Q /\
     match i with
     | O => improvement r = 0.0%Q
     | S j => exists previous, fitness_history self !! j = Some previous /\
                               improvement r = (best_fitness r - best_fitness previous)%Q
     end).

(** A population is well formed in a store when its members are distinct
    objects of the store. *)
Definition well_formed (w : world) (pop : list loc) : Prop :=
  NoDup pop /\ valid_refs w pop.

(** ** Detection accuracy ([MetricsTracker.calculate_detection_accuracy]) *)

Record accuracy_metrics : Type := {
  accuracy : Q;
  precision : Q;
  recall : Q;
  f1_score : Q
}.

(** The four counts are Python integers; the dictionary returned also
    echoes them, except in the all-zero case. *)
Definition calculate_detection_accuracy
    (true_positives false_positives false_negatives true_negatives : Z)
    : result accuracy_metrics :=
  let total := (true_positives + false_positives + false_negatives + true_negatives)%Z in
  if decide (total = 0%Z) then
    inr {| accuracy := 0.0; precision := 0.0; recall := 0.0; f1_score := 0.0 |}
  else
    match py_div (inject_Z (true_positives + true_negatives)) (inject_Z total) with
    | inl e => inl e
    | inr v_accuracy =>
        let v_precision : result Q :=
          if (0 <? true_positives + false_positives)%Z
          then py_div (inject_Z true_positives) (inject_Z (true_positives + false_positives))
          else inr 0.0%Q in
        let v_recall : result Q :=
          if (0 <? true_positives + false_negatives)%Z
          then py_div (inject_Z true_positives) (inject_Z (true_positives + false_negatives))
          else inr 0.0%Q in
        match v_precision, v_recall with
        | inr p, inr r =>
            let v_f1 : result Q :=
              if Qltb 0 (p + r) then py_div (2 * (p * r)) (p + r) else inr 0.0%Q in
            match v_f1 with
            | inr f => inr {| accuracy := v_accuracy; precision := p; recall := r;
                              f1_score := f |}
            | inl e => inl e
            end
        | inl e, _ => inl e
        | _, inl e => inl e
        end
    end.

(** ** Attacker confusion ([MetricsTracker.calculate_attacker_confusion_metric]) *)

(** One attack attempt; a key may be absent. *)
Record attack_attempt : Type := {
  a_status : option string;
  a_repeated : option pyval;
  a_abandoned : option pyval
}.

(** [sum(1 for x in l if cond(x))] *)
Definition count_if {A} (cond : A -> bool) (l : list A) : nat :=
  length (List.filter cond l).

Definition calculate_attacker_confusion_metric (attack_attempts : list attack_attempt)
    : result Q :=
  match attack_attempts with
  | [] => inr 0.0%Q
  | _ =>
      let n := Qnat (length attack_attempts) in
      let failed_exploits :=
        count_if (fun a => bool_decide (a_status a = Some "failed")) attack_attempts in
      let repeated_attempts :=
        count_if (fun a => truthy (default (VBool false) (a_repeated a))) attack_attempts in
      let abandoned :=
        count_if (fun a => truthy (default (VBool false) (a_abandoned a))) attack_attempts in
      match py_div (Qnat abandoned) n, py_div (Qnat failed_exploits) n,
            py_div (Qnat repeated_attempts) n with
      | inr abandonment_rate, inr failed_rate, inr repeated_rate =>
          inr (failed_rate * 0.4 + repeated_rate * 0.3 + abandonment_rate * 0.3)%Q
      | inl e, _, _ => inl e
      | _, inl e, _ => inl e
      | _, _, inl e => inl e
      end
  end.

(** ** Deception effectiveness ([MetricsTracker.calculate_deception_effectiveness]) *)

Record attacker_interaction : Type := {
  i_deceived : option pyval;
  i_engagement_time : option Q;
  i_data_points : option Q
}.

Definition calculate_deception_effectiveness
    (attacker_interactions : list attacker_interaction) : result Q :=
  match attacker_interactions with
  | [] => inr 0.0%Q
  | _ =>
      let total_interactions := length attacker_interactions in
      let successful_deceptions :=
        count_if (fun i => truthy (default (VBool false) (i_deceived i)))
                 attacker_interactions in
      let avg_engagement_time :=
        np_mean (map (fun i => default 0%Q (i_engagement_time i)) attacker_interactions) in
      let avg_data_collected :=
        np_mean (map (fun i => default 0%Q (i_data_points i)) attacker_interactions) in
      let deception_rate : result Q :=
        if 0 <? total_interactions
        then py_div (Qnat successful_deceptions) (Qnat total_interactions)
        else inr 0%Q in
      match deception_rate with
      | inl e => inl e
      | inr rate =>
          let engagement_score := py_min (avg_engagement_time / 60.0) 1.0 in
          let data_score := py_min (avg_data_collected / 100.0) 1.0 in
          inr (rate * 0.5 + engagement_score * 0.3 + data_score * 0.2)%Q
      end
  end.

(** ** Comparison with a baseline ([MetricsTracker.calculate_comparative_metrics]) *)

Definition calculate_comparative_metrics (our_system baseline_system : gmap string Q)
    : gmap string Q :=
  map_imap (fun metric our_value =>
              let baseline_value := default our_value (baseline_system !! metric) in
              Some (if Qltb 0 baseline_value
                    then ((our_value - baseline_value) / baseline_value) * 100
                    else 0.0)%Q)
           our_system.

(** ** Memory of a process mirage ([deception_layer/polymorphic_process.py]) *)

(** [int(x)]: truncation towards zero. *)
Definition py_int (x : Q) : Z := Z.quot (Qnum x) (Z.pos (Qden x)).

Definition memory_ranges : gmap string (Z * Z) :=
  {[ "database" := (200, 2048)%Z;
     "web_server" := (50, 512)%Z;
     "ssh_daemon" := (2, 20)%Z;
     "backup_service" := (10, 200)%Z;
     "cache_server" := (100, 1024)%Z;
     "api_gateway" := (50, 300)%Z;
     "file_server" := (20, 150)%Z;
     "mail_server" := (30, 200)%Z ]}.

Definition _generate_memory_pattern (process_type : string) : Rand Z :=
  let bounds := default (10, 100)%Z (memory_ranges !! process_type) in
  random_randint bounds.1 bounds.2.

(** [mirage['memory']] is the current memory, an integer. *)
Definition _mutate_memory_footprint (current_memory : Z) : Rand Z :=
  u <~ random_uniform (-0.2) 0.2 ;;
  let delta := (u * inject_Z current_memory)%Q in
  let new_memory := Z.max 10 (py_int (inject_Z current_memory + delta)) in
  ret new_memory.

(** [PolymorphicProcessMirage._calculate_genetic_diversity] *)
Definition _calculate_genetic_diversity (current previous : process_state) : result Q :=
  calculate_genetic_diversity_score current [previous].

(** An engine of three chromosomes, too small to breed. *)
Definition tiny_engine : engine := {|
  population_size := 3;
  self_mutation_rate := 0.2;
  crossover_rate := 0.8;
  elite_size := 1;
  self_fitness_weights := cfg_fitness_weights GA_CONFIG;
  population := [0; 1; 2];
  self_generation := 0;
  fitness_history := [];
  best_chromosome_history := []
|}.

(** A configuration for a population of four with one elite. *)
Definition small_config : ga_config := {|
  cfg_population_size := 4;
  cfg_mutation_rate := 0.2;
  cfg_crossover_rate := 0.8;
  cfg_elite_size := 1;
  cfg_fitness_weights := cfg_fitness_weights GA_CONFIG
|}.

(** A source of a few varied draws. *)
Definition varied_source : rng :=
  [(1, 3); (2, 4); (5, 7); (0, 1); (3, 8); (1, 1); (4, 9); (2, 2); (7, 10); (1, 5)].

(** An engine left with two chromosomes. *)
Definition pair_engine : engine := {|
  population_size := 4;
  self_mutation_rate := 0.2;
  crossover_rate := 0.8;
  elite_size := 1;
  self_fitness_weights := cfg_fitness_weights GA_CONFIG;
  population := [0; 1];
  self_generation := 0;
  fitness_history := [];
  best_chromosome_history := []
|}.

(** An engine after its first generation. *)
Definition one_generation_engine : engine := {|
  population_size := 4;
  self_mutation_rate := 0.2;
  crossover_rate := 0.8;
  elite_size := 1;
  self_fitness_weights := cfg_fitness_weights GA_CONFIG;
  population := [3; 0; 1; 2];
  self_generation := 1;
  fitness_history :=
    [ {| generation := 1; best_fitness := 40; avg_fitness := 25; worst_fitness := 10;
         best_chromosome := 3; improvement := 0.0 |} ];
  best_chromosome_history := [3]
|}.

(** The catalogues from which [_create_random_chromosome] samples. *)
Definition honeypot_catalog : list string :=
  ["ssh"; "ftp"; "http"; "mysql"; "redis"; "smtp"].

Definition process_catalog : list string :=
  ["database"; "web_server"; "ssh_daemon"; "backup_service";
   "cache_server"; "api_gateway"; "file_server"; "mail_server"].

Definition file_catalog : list string :=
  ["config"; "database"; "backup"; "log"; "key"; "credential"].

(** [values] holds between [lo] and [hi] distinct members of [catalog]. *)
Definition sampled_from (catalog : list string) (lo hi : nat) (values : list string) : Prop :=
  NoDup values /\ values ⊆ catalog /\ lo <= length values <= hi.

(** A chromosome as it leaves [_create_random_chromosome]. *)
Definition freshly_created (self_generation : nat) (c : chromosome) : Prop :=
  declared_ranges c /\
  sampled_from honeypot_catalog 3 6 (honeypot_types c) /\
  sampled_from process_catalog 4 8 (process_types (mirage c)) /\
  sampled_from file_catalog 3 6 (file_types (filesystem c)) /\
  fitness c = 0.0%Q /\ generation_created c = self_generation /\ parent_ids c = [].

(** The keys that [_mutate] has no statement for. *)
Definition untouched_by_mutation (c : chromosome) :=
  (id c, fitness c, generation_created c, parent_ids c,
   honeypot_types c, process_types (mirage c), file_types (filesystem c),
   polymorphism_intensity (mirage c), fractal_depth (filesystem c),
   response_delay (network c), traffic_mimicry (network c),
   entropy_target (math c), fractal_complexity (math c)).

(** Every member of [pop] is stored in [w] and satisfies [P]. *)
Definition population_satisfies (P : chromosome -> Prop) (w : world) (pop : list loc)
    : Prop :=
  Forall (fun l => exists c, heap w !! l = Some c /\ P c) pop.

(** ** The step of a mutation pass

    [within_one_step c0 m]: every gene that [_mutate] can alter differs in
    [m] from its value in [c0] by no more than the amplitude of its
    mutation. *)
Definition within_one_step (c0 m : chromosome) : Prop :=
  (honeypot_count c0 - 2 <= honeypot_count m <= honeypot_count c0 + 2)%Z /\
  (count (mirage c0) - 3 <= count (mirage m) <= count (mirage c0) + 3)%Z /\
  (mutation_rate (mirage c0) - 0.1 <= mutation_rate (mirage m)
     <= mutation_rate (mirage c0) + 0.1)%Q /\
  (complexity (credential c0) - 0.1 <= complexity (credential m)
     <= complexity (credential c0) + 0.1)%Q /\
  (realism_level (credential c0) - 0.1 <= realism_level (credential m)
     <= realism_level (credential c0) + 0.1)%Q /\
  (diversity (credential c0) - 0.1 <= diversity (credential m)
     <= diversity (credential c0) + 0.1)%Q /\
  (decoy_density (filesystem c0) - 0.1 <= decoy_density (filesystem m)
     <= decoy_density (filesystem c0) + 0.1)%Q /\
  (service_diversity (network c0) - 2 <= service_diversity (network m)
     <= service_diversity (network c0) + 2)%Q /\
  (chaos_parameter (math c0) - 0.1 <= chaos_parameter (math m)
     <= chaos_parameter (math c0) + 0.1)%Q.

(** The genes of the gated blocks of [_mutate] after the [k]-th are in [m]
    as they are in [c0]. *)
Definition blocks_pending (k : nat) (c0 m : chromosome) : Prop :=
  (k < 1 -> honeypot_count m = honeypot_count c0) /\
  (k < 2 -> count (mirage m) = count (mirage c0)) /\
  (k < 3 -> mutation_rate (mirage m) = mutation_rate (mirage c0)) /\
  (k < 4 -> complexity (credential m) = complexity (credential c0)) /\
  (k < 5 -> realism_level (credential m) = realism_level (credential c0)) /\
  (k < 6 -> diversity (credential m) = diversity (credential c0)) /\
  (k < 7 -> decoy_density (filesystem m) = decoy_density (filesystem c0)) /\
  (k < 8 -> service_diversity (network m) = service_diversity (network c0)) /\
  (k < 9 -> chaos_parameter (math m) = chaos_parameter (math c0)).

Definition mutation_progress (k : nat) (c0 m : chromosome) : Prop :=
  within_one_step c0 m /\ blocks_pending k c0 m.

(** The declared ranges of the bounded genes that crossover hands on
    without arithmetic: it swaps [honeypot_count], the mirage [count], the
    credential block and the file-system block between the children and
    leaves [mutation_rate] and [polymorphism_intensity] alone. The network
    and math genes, which it blends, are not among them. *)
Record copied_gene_ranges (c : chromosome) : Prop := {
  cg_honeypot_count : (3 <= honeypot_count c <= 10)%Z;
  cg_count : (5 <= count (mirage c) <= 15)%Z;
  cg_mutation_rate : (0.1 <= mutation_rate (mirage c) <= 0.5)%Q;
  cg_polymorphism_intensity : (0.3 <= polymorphism_intensity (mirage c) <= 1.0)%Q;
  cg_complexity : (0.3 <= complexity (credential c) <= 0.9)%Q;
  cg_realism_level : (0.5 <= realism_level (credential c) <= 1.0)%Q;
  cg_diversity : (0.4 <= diversity (credential c) <= 0.9)%Q;
  cg_decoy_density : (0.1 <= decoy_density (filesystem c) <= 0.8)%Q;
  cg_fractal_depth : (2 <= fractal_depth (filesystem c) <= 5)%Z
}.

(* ================================================================= *)
(** * Properties *)

(** ** Facts about the random source *)

Lemma unit_of_range r : (0 <= unit_of r < 1)%Q.
Proof.
  destruct r as [n d]. unfold unit_of, Qle, Qlt. cbn [fst snd Qnum Qden].
  pose proof (Nat.mod_upper_bound n (S d) ltac:(lia)) as Hm.
  assert (Hp : Z.pos (Pos.of_nat (S d)) = Z.of_nat (S d)).
  { rewrite <- positive_nat_Z, Nat2Pos.id by lia. reflexivity. }
  rewrite Hp. lia.
Qed.

Lemma random_random_range g : (0 <= (random_random g).1 < 1)%Q.
Proof.
  destruct g as [|r g]; simpl; [ lra | apply unit_of_range ].
Qed.

Lemma bind_eq {A B} (c : Rand A) (k : A -> Rand B) g :
  bind c k g = k (c g).1 (c g).2.
Proof. unfold bind. now destruct (c g). Qed.

Lemma Qfloor_unit u n :
  (0 <= u < 1)%Q -> (0 < n)%Z -> (0 <= Qfloor (u * inject_Z n) < n)%Z.
Proof.
  intros [H0 H1] Hn.
  assert (Hq : (0 < inject_Z n)%Q) by (change 0%Q with (inject_Z 0); now rewrite <- Zlt_Qlt).
  split.
  - change 0%Z with (Qfloor (inject_Z 0)). apply Qfloor_resp_le.
    change (inject_Z 0) with 0%Q. nra.
  - apply Z.lt_nge. intros Hge.
    pose proof (Qfloor_le (u * inject_Z n)) as Hf.
    assert (Hi : (inject_Z n <= inject_Z (Qfloor (u * inject_Z n)))%Q)
      by now rewrite <- Zle_Qle.
    nra.
Qed.

Lemma random_randint_range a b g :
  (a <= b)%Z -> (a <= (random_randint a b g).1 <= b)%Z.
Proof.
  intros Hab. unfold random_randint. rewrite bind_eq. cbn [ret fst].
  pose proof (Qfloor_unit _ (b - a + 1) (random_random_range g) ltac:(lia)). lia.
Qed.

Lemma randbelow_range n g : 0 < n -> (randbelow n g).1 < n.
Proof.
  intros Hn. unfold randbelow. rewrite bind_eq. cbn [ret fst].
  pose proof (Qfloor_unit _ (Z.of_nat n) (random_random_range g) ltac:(lia)). lia.
Qed.

Lemma Qltb_lt x y : Qltb x y = true <-> (x < y)%Q.
Proof.
  unfold Qltb. rewrite Qlt_alt. destruct (x ?= y)%Q; split; congruence.
Qed.

Lemma Qltb_ge x y : Qltb x y = false <-> (y <= x)%Q.
Proof.
  unfold Qltb. rewrite Qle_alt.
  rewrite <- (Qcompare_antisym x y).
  destruct (x ?= y)%Q; simpl; split; congruence.
Qed.

Lemma py_min_spec a b :
  (py_min a b <= a)%Q /\ (py_min a b <= b)%Q /\ (py_min a b = a \/ py_min a b = b).
Proof.
  unfold py_min. destruct (Qltb b a) eqn:E.
  - apply Qltb_lt in E. repeat split; [lra | lra | now right].
  - apply Qltb_ge in E. repeat split; [lra | lra | now left].
Qed.

Lemma py_max_spec a b :
  (a <= py_max a b)%Q /\ (b <= py_max a b)%Q /\ (py_max a b = a \/ py_max a b = b).
Proof.
  unfold py_max. destruct (Qltb a b) eqn:E.
  - apply Qltb_lt in E. repeat split; [lra | lra | now right].
  - apply Qltb_ge in E. repeat split; [lra | lra | now left].
Qed.

(** [max(lo, min(hi, x))], the clamping idiom of [_mutate]. *)
Lemma clamp_Q lo hi x :
  (lo <= hi)%Q -> (lo <= py_max lo (py_min hi x) <= hi)%Q.
Proof.
  intros Hlh.
  destruct (py_max_spec lo (py_min hi x)) as (H1 & H2 & [H3 | H3]);
    destruct (py_min_spec hi x) as (H4 & H5 & _); rewrite H3 in *; lra.
Qed.

Lemma clamp_Z lo hi x :
  (lo <= hi)%Z -> (lo <= Z.max lo (Z.min hi x) <= hi)%Z.
Proof. lia. Qed.

Lemma declared_mutation_ranges c : declared_ranges c -> mutation_ranges c.
Proof. intros []; constructor; simpl in *; try lra; lia. Qed.

(** A property kept by the body of a gated block is kept by the block. *)
Lemma gated_preserves {A} (P : A -> Prop) p body a g :
  (forall a' g', P a' -> P (body a' g').1) -> P a -> P (gated p body a g).1.
Proof.
  intros Hbody Ha. unfold gated, bind, random_random.
  destruct g as [|r g']; destruct (Qltb _ p); simpl; auto.
Qed.

Lemma bind_preserves {A} (P : A -> Prop) (c : Rand A) (k : A -> Rand A) g :
  P (c g).1 -> (forall a g', P a -> P (k a g').1) -> P (bind c k g).1.
Proof.
  intros Hc Hk. unfold bind. destruct (c g) as [a g'] eqn:E. simpl in Hc. auto.
Qed.

Ltac mutation_body :=
  let m := fresh "m" in let g := fresh "g" in
  intros m g []; unfold bind, random_randint, random_uniform, random_random, ret;
  destruct g; cbn [fst snd]; constructor; cbn; try assumption;
  solve [ apply clamp_Q; lra | apply clamp_Z; lia ].

Lemma _mutate_ranges c g : mutation_ranges c -> mutation_ranges (_mutate c g).1.
Proof.
  intros Hc. unfold _mutate. revert c g Hc.
  do 9 (intros c g Hc; apply (bind_preserves mutation_ranges);
        [ apply gated_preserves; [ mutation_body | exact Hc ] | clear c g Hc ]).
  intros c g Hc. exact Hc.
Qed.

(** C2 (as amended). After any number of mutation passes, on any random
    source, every bounded numeric gene of a chromosome that started inside
    the ranges maintained by [_mutate] is still inside them: the declared
    range for every gene except the three credential genes, which are
    clamped to the unit interval. *)
Theorem mutation_passes_keep_ranges n : forall c g,
  mutation_ranges c -> mutation_ranges (mutation_passes n c g).1.
Proof.
  induction n as [|n IH]; intros c g Hc; simpl.
  - exact Hc.
  - rewrite bind_eq. apply IH, _mutate_ranges, Hc.
Qed.

Lemma sample_chromosome_declared : declared_ranges sample_chromosome.
Proof. constructor; cbn; (lia || lra). Qed.

Lemma mutation_passes_keep_ranges_witness :
  mutation_ranges (mutation_passes 2 sample_chromosome lowering_source).1.
Proof.
  apply (mutation_passes_keep_ranges 2 sample_chromosome lowering_source).
  constructor; cbn; (lia || lra).
Defined.

(** C2 (as stated) fails: [complexity] is clamped to [0, 1], not to its
    declared range [0.3, 0.9]. One pass takes it from 0.3 to 0.2. *)
Lemma mutation_leaves_declared_range :
  declared_ranges sample_chromosome /\
  ~ declared_ranges (mutation_passes 1 sample_chromosome lowering_source).1.
Proof.
  split; [ exact sample_chromosome_declared | ].
  intros [_ _ _ _ [Hlow _] _ _ _ _ _ _ _ _ _ _].
  vm_compute in Hlow. apply Hlow. reflexivity.
Qed.



(** ** Crossover *)

(** C3 (as amended). Each child returned by crossover has an id of the form
    [gen<generation>_chr<r>] with [r] drawn from 1000..9999, [parent_ids]
    equal to the ids of the two parents, [generation_created] equal to the
    current generation, and the fitness of the parent it was copied from. *)
Theorem crossover_children_metadata self_generation parent1 parent2 g :
  let children := (_crossover self_generation parent1 parent2 g).1 in
  parent_ids children.1 = [id parent1; id parent2] /\
  parent_ids children.2 = [id parent1; id parent2] /\
  generation_created children.1 = self_generation /\
  generation_created children.2 = self_generation /\
  fitness children.1 = fitness parent1 /\
  fitness children.2 = fitness parent2 /\
  (exists r, (1000 <= r <= 9999)%Z /\
             id children.1 = "gen" +:+ pretty self_generation +:+ "_chr" +:+ pretty r) /\
  (exists r, (1000 <= r <= 9999)%Z /\
             id children.2 = "gen" +:+ pretty self_generation +:+ "_chr" +:+ pretty r).
Proof.
  unfold _crossover. repeat (rewrite bind_eq; cbv zeta). unfold ret. cbn [fst snd].
  repeat match goal with |- context [Qltb ?u 0.5] => destruct (Qltb u 0.5) end;
    cbn; repeat split; try reflexivity;
    eexists; (split; [ | reflexivity ]); apply random_randint_range; lia.
Qed.

(** C3 (as stated) fails: the two ids are drawn independently and may
    coincide, and the fitness of a child is that of its parent, not 0. *)
Lemma crossover_children_not_fresh :
  let children := (_crossover 1 first_parent second_parent []).1 in
  id children.1 = id children.2 /\ ~ (fitness children.1 == 0)%Q.
Proof.
  split; [ reflexivity | ]. vm_compute. discriminate.
Qed.

(** ** Entropy and fitness *)

Lemma bump_counts char d :
  Forall (fun cf => 1 <= cf.2) d ->
  Forall (fun cf => 1 <= cf.2) (bump char d) /\
  counts_sum (bump char d) = S (counts_sum d).
Proof.
  induction d as [|[c n] d IH]; intros Hd; simpl.
  - split; [ repeat constructor | reflexivity ].
  - inversion Hd as [|? ? Hn Hd']; subst. destruct (decide (c = char)); simpl.
    + split; [ constructor; simpl; [ lia | assumption ] | simpl in Hn; lia ].
    + destruct (IH Hd') as [IH1 IH2].
      split; [ constructor; assumption | lia ].
Qed.

Lemma char_freq_counts s d :
  Forall (fun cf => 1 <= cf.2) d ->
  Forall (fun cf => 1 <= cf.2) (fold_left (fun d char => bump char d) s d) /\
  counts_sum (fold_left (fun d char => bump char d) s d) = length s + counts_sum d.
Proof.
  revert d. induction s as [|a s IH]; intros d Hd; simpl.
  - split; [ assumption | reflexivity ].
  - destruct (bump_counts a d Hd) as [H1 H2].
    destruct (IH _ H1) as [H3 H4]. split; [ assumption | lia ].
Qed.

Lemma counts_sum_bound d cf : cf ∈ d -> cf.2 <= counts_sum d.
Proof.
  induction 1 as [cf d | cf cf' d _ IH]; simpl; lia.
Qed.

Lemma py_sum_nonpos l a :
  Forall (fun x => (x <= 0)%Q) l -> (fold_left Qplus l a <= a)%Q.
Proof.
  revert a. induction l as [|x l IH]; intros a Hl; simpl.
  - lra.
  - inversion Hl; subst. specialize (IH (a + x)%Q ltac:(assumption)). lra.
Qed.

Lemma Qnat_ratio n total :
  1 <= n -> n <= total -> (0 < Qnat n / Qnat total <= 1)%Q.
Proof.
  intros Hn Ht. unfold Qnat.
  assert (H1 : (0 < inject_Z (Z.of_nat n))%Q)
    by (change 0%Q with (inject_Z 0); rewrite <- Zlt_Qlt; lia).
  assert (H2 : (inject_Z (Z.of_nat n) <= inject_Z (Z.of_nat total))%Q)
    by (rewrite <- Zle_Qle; lia).
  split.
  - apply Qlt_shift_div_l; lra.
  - apply Qle_shift_div_r; lra.
Qed.

Section Entropy.
Context `{Host}.

(** The one property of the logarithm that the bounds rest on. *)
Hypothesis np_log2_nonpos : forall p, (0 < p)%Q -> (p <= 1)%Q -> (np_log2 p <= 0)%Q.

Lemma calculate_entropy_nonneg data : (0 <= calculate_entropy data)%Q.
Proof using np_log2_nonpos.
  unfold calculate_entropy. destruct (decide (data = "")); [ lra | ].
  set (s := list_ascii_of_string data).
  destruct (char_freq_counts s [] ltac:(constructor)) as [Hpos Hsum].
  simpl in Hsum. rewrite Nat.add_0_r in Hsum.
  set (d := fold_left _ s []) in *.
  match goal with |- (0 <= - py_sum ?l)%Q => assert (Hs : (py_sum l <= 0)%Q) end.
  { apply py_sum_nonpos. apply Forall_forall. intros x Hx.
    apply list_elem_of_In, in_map_iff in Hx as (p & <- & Hp).
    rewrite <- list_elem_of_In in Hp. apply list_elem_of_filter in Hp as [_ Hp].
    apply list_elem_of_In, in_map_iff in Hp as (cf & <- & Hcf).
    rewrite <- list_elem_of_In in Hcf.
    assert (Hcf1 : 1 <= cf.2) by (rewrite Forall_forall in Hpos; apply Hpos; assumption).
    pose proof (counts_sum_bound d cf Hcf) as Hcf2. rewrite Hsum in Hcf2.
    destruct (Qnat_ratio _ _ Hcf1 Hcf2) as [Hp0 Hp1].
    pose proof (np_log2_nonpos _ Hp0 Hp1). nra. }
  lra.
Qed.

Lemma chromosome_diversity_range chrom :
  (0 <= _calculate_chromosome_diversity chrom <= 1)%Q.
Proof using np_log2_nonpos.
  unfold _calculate_chromosome_diversity.
  match goal with
  | |- context [calculate_entropy ?d] =>
      pose proof (calculate_entropy_nonneg d) as He;
      generalize dependent (calculate_entropy d); intros e He
  end.
  assert (Hx : (0 <= e / 10.0)%Q) by (apply Qle_shift_div_l; lra).
  generalize dependent (e / 10.0)%Q. intros x Hx.
  destruct (py_min_spec x 1.0) as (H1 & H2 & [E | E]); rewrite E in *; lra.
Qed.
End Entropy.

Lemma fitness_function_unfold `{Host} weights chrom (attack_results : stats) :
  size attack_results <> 0 ->
  fitness_function weights chrom attack_results =
  ((engagement_score_of attack_results * w_engagement_time weights +
    data_score_of attack_results * w_data_quality weights +
    confusion_score_of attack_results * w_confusion_score weights +
    _calculate_chromosome_diversity chrom * w_genetic_diversity weights) * 1000)%Q.
Proof.
  intros Hne. unfold fitness_function. destruct (decide _); [ contradiction | reflexivity ].
Qed.

(** The second half of C4: without telemetry the fitness is exactly 0. *)
Lemma fitness_function_empty `{Host} weights chrom :
  fitness_function weights chrom ∅ = 0.0%Q.
Proof.
  unfold fitness_function. rewrite map_size_empty.
  destruct (decide (0 = 0)); [ reflexivity | contradiction ].
Qed.

(** The fitness does not read the [fitness] key of the chromosome. *)
Lemma fitness_function_set_fitness `{Host} weights v chrom attack_results :
  fitness_function weights (set_fitness v chrom) attack_results =
  fitness_function weights chrom attack_results.
Proof. reflexivity. Qed.

(** C4, the range: on the telemetry [overrun_stats], which lies inside the
    documented domain, the fitness of every chromosome under the default
    weights is above 1000. *)
Theorem fitness_function_exceeds_scale `{Host} :
  (forall p, (0 < p)%Q -> (p <= 1)%Q -> (np_log2 p <= 0)%Q) ->
  forall chrom,
    (1000 < fitness_function (cfg_fitness_weights GA_CONFIG) chrom overrun_stats)%Q.
Proof.
  intros Hlog chrom.
  rewrite fitness_function_unfold by (vm_compute; discriminate).
  pose proof (chromosome_diversity_range Hlog chrom) as Hd.
  generalize dependent (_calculate_chromosome_diversity chrom). intros d Hd.
  assert (He : (engagement_score_of overrun_stats == 1)%Q) by reflexivity.
  assert (Hp : (data_score_of overrun_stats == 1)%Q) by reflexivity.
  assert (Hc : (confusion_score_of overrun_stats == 26 # 10)%Q) by reflexivity.
  rewrite He, Hp, Hc. cbn [cfg_fitness_weights GA_CONFIG w_engagement_time
    w_data_quality w_confusion_score w_genetic_diversity]. lra.
Qed.

Lemma floor_log2_nonpos p : (0 < p)%Q -> (p <= 1)%Q -> (floor_log2 p <= 0)%Q.
Proof.
  intros H0 H1. unfold floor_log2. change 0%Q with (inject_Z 0). rewrite <- Zle_Qle.
  destruct p as [n d]. unfold Qle, Qlt in *. cbn [Qnum Qden] in *.
  assert (Z.log2 n <= Z.log2 (Z.pos d))%Z by (apply Z.log2_le_mono; lia). lia.
Qed.

Lemma fitness_function_exceeds_scale_witness :
  (1000 < @fitness_function plain_host (cfg_fitness_weights GA_CONFIG)
            sample_chromosome overrun_stats)%Q.
Proof.
  apply (@fitness_function_exceeds_scale plain_host floor_log2_nonpos sample_chromosome).
Defined.

(** Where the factors are ratios of a whole (no more failures or
    repetitions than attempts) and the weights are a convex combination,
    the fitness does lie between 0 and 1000. *)
Lemma fitness_function_range `{Host} weights chrom (attack_results : stats) :
  (forall p, (0 < p)%Q -> (p <= 1)%Q -> (np_log2 p <= 0)%Q) ->
  (0 <= w_engagement_time weights)%Q -> (0 <= w_data_quality weights)%Q ->
  (0 <= w_confusion_score weights)%Q -> (0 <= w_genetic_diversity weights)%Q ->
  (w_engagement_time weights + w_data_quality weights +
   w_confusion_score weights + w_genetic_diversity weights <= 1)%Q ->
  (0 <= engagement_score_of attack_results)%Q ->
  (0 <= data_score_of attack_results)%Q ->
  (0 <= confusion_score_of attack_results <= 1)%Q ->
  (0 <= fitness_function weights chrom attack_results <= 1000)%Q.
Proof.
  intros Hlog W1 W2 W3 W4 Wsum He Hp Hc.
  unfold fitness_function. destruct (decide _); [ lra | ].
  fold (engagement_score_of attack_results) (data_score_of attack_results).
  change ((_ / py_max _ 1 * 0.5 + _ / py_max _ 1 * 0.3 + _)%Q)
    with (confusion_score_of attack_results).
  pose proof (chromosome_diversity_range Hlog chrom) as Hd.
  assert (He1 : (engagement_score_of attack_results <= 1)%Q).
  { unfold engagement_score_of.
    match goal with |- (py_min ?a ?b <= _)%Q => destruct (py_min_spec a b) as (_ & ? & _) end.
    lra. }
  assert (Hp1 : (data_score_of attack_results <= 1)%Q).
  { unfold data_score_of.
    match goal with |- (py_min ?a ?b <= _)%Q => destruct (py_min_spec a b) as (_ & ? & _) end.
    lra. }
  generalize dependent (_calculate_chromosome_diversity chrom).
  generalize dependent (engagement_score_of attack_results).
  generalize dependent (data_score_of attack_results).
  generalize dependent (confusion_score_of attack_results).
  intros c Hc p Hp Hp1 e He He1 d Hd. destruct weights as [we wd wc wv]. cbn in *. nra.
Qed.

(** ** The diversity score *)

Lemma mismatches_filter (a b : list ascii) :
  length (filter (fun p : ascii * ascii => p.1 <> p.2) (zip a b)) = mismatches a b.
Proof.
  revert b. induction a as [|x a IH]; intros [|y b]; try reflexivity.
  cbn [zip zip_with mismatches]. rewrite filter_cons. cbn [fst snd].
  destruct (decide (x <> y)) as [Hne | Heq]; destruct (decide (x = y)) as [He | Hn];
    try contradiction; simpl; rewrite IH; reflexivity.
Qed.

Lemma mismatches_bound (a b : list ascii) : mismatches a b <= length a.
Proof.
  revert b. induction a as [|x a IH]; intros [|y b]; simpl; try lia.
  specialize (IH b). destruct (decide (x = y)); lia.
Qed.

Lemma length_ljust s width : length s <= width -> length (ljust s width) = width.
Proof. intros Hw. unfold ljust. rewrite length_app, length_replicate. lia. Qed.

Lemma _hamming_distance_spec str1 str2 :
  (_hamming_distance str1 str2 == spec_normalized_hamming str1 str2)%Q /\
  (0 <= _hamming_distance str1 str2 <= 1)%Q.
Proof.
  unfold _hamming_distance, spec_normalized_hamming.
  set (s1 := list_ascii_of_string str1). set (s2 := list_ascii_of_string str2).
  set (n := Nat.max (length s1) (length s2)).
  rewrite mismatches_filter.
  destruct (decide (n = 0)) as [Hz | Hnz].
  - rewrite Hz. split; [ | lra ].
    assert (Hs1 : s1 = []) by (destruct s1; [ reflexivity | simpl in n; lia ]).
    assert (Hs2 : s2 = []) by (destruct s2; [ reflexivity | simpl in n; lia ]).
    rewrite Hs1, Hs2. reflexivity.
  - split; [ reflexivity | ].
    pose proof (mismatches_bound (ljust s1 n) (ljust s2 n)) as Hb.
    rewrite length_ljust in Hb by lia.
    set (m := mismatches _ _) in *.
    unfold Qnat.
    assert (Hn : (0 < inject_Z (Z.of_nat n))%Q)
      by (change 0%Q with (inject_Z 0); rewrite <- Zlt_Qlt; lia).
    assert (Hm0 : (0 <= inject_Z (Z.of_nat m))%Q)
      by (change 0%Q with (inject_Z 0); rewrite <- Zle_Qle; lia).
    assert (Hm1 : (inject_Z (Z.of_nat m) <= inject_Z (Z.of_nat n))%Q)
      by (rewrite <- Zle_Qle; lia).
    split; [ apply Qle_shift_div_l | apply Qle_shift_div_r ]; lra.
Qed.

Lemma py_max_Qmax a b : (py_max a b == Qmax a b)%Q.
Proof.
  destruct (py_max_spec a b) as (H1 & H2 & H3).
  destruct (Q.max_spec a b) as [[Hlt E] | [Hle E]]; rewrite E;
    destruct H3 as [H3 | H3]; rewrite H3 in *; lra.
Qed.

Lemma py_div_pos a b : (0 < b)%Q -> py_div a b = inr (a / b)%Q.
Proof.
  intros Hb. unfold py_div. destruct (Qeq_bool b 0) eqn:E; [ | reflexivity ].
  apply Qeq_bool_eq in E. lra.
Qed.

Lemma state_diversity_spec current previous :
  valid_snapshot current -> valid_snapshot previous ->
  exists d, state_diversity (of_snapshot current) (of_snapshot previous) = inr d /\
            (d == spec_term current previous)%Q /\ (0 <= d <= 1)%Q.
Proof.
  intros [Hm [Hc0 Hc1]] [Hm' [Hc0' Hc1']].
  unfold state_diversity, of_snapshot. cbn [name memory cpu default from_option Datatypes.id].
  destruct (py_max_spec (s_memory current) (s_memory previous)) as (M1 & M2 & M3).
  rewrite py_div_pos by lra. eexists. split; [ reflexivity | ].
  destruct (_hamming_distance_spec (s_name current) (s_name previous)) as [Hh [Hh0 Hh1]].
  unfold spec_term. rewrite <- Hh, <- py_max_Qmax.
  set (h := _hamming_distance _ _) in *.
  set (mx := py_max _ _) in *.
  assert (Hmd : (0 <= Qabs (s_memory current - s_memory previous) / mx <= 1)%Q).
  { split; [ apply Qle_shift_div_l | apply Qle_shift_div_r ]; try lra.
    - rewrite Qmult_0_l. apply Qabs_nonneg.
    - rewrite Qmult_1_l. apply Qabs_Qle_condition. split; lra. }
  assert (Hcd : (0 <= Qabs (s_cpu current - s_cpu previous) / 100.0 <= 1)%Q).
  { split; [ apply Qle_shift_div_l | apply Qle_shift_div_r ]; try lra.
    - rewrite Qmult_0_l. apply Qabs_nonneg.
    - rewrite Qmult_1_l. apply Qabs_Qle_condition. split; lra. }
  assert (Hcq : (Qabs (s_cpu current - s_cpu previous) / 100.0 ==
                 Qabs (s_cpu current - s_cpu previous) / 100)%Q).
  { apply Qdiv_comp; reflexivity. }
  rewrite <- Hcq.
  generalize dependent (Qabs (s_memory current - s_memory previous) / mx)%Q.
  generalize dependent (Qabs (s_cpu current - s_cpu previous) / 100.0)%Q.
  intros c Hc _ m Hmd. split; [ ring | lra ].
Qed.

Lemma diversity_loop_spec current previous :
  valid_snapshot current -> Forall valid_snapshot previous ->
  exists ds, diversity_loop (of_snapshot current) (map of_snapshot previous) = inr ds /\
             Forall2 (fun d p => (d == spec_term current p)%Q /\ (0 <= d <= 1)%Q) ds previous.
Proof.
  intros Hc. induction 1 as [|p previous Hp _ (ds & Hds & Hall)]; simpl.
  - exists []. split; [ reflexivity | constructor ].
  - destruct (state_diversity_spec current p Hc Hp) as (d & -> & Hd).
    rewrite Hds. exists (d :: ds). split; [ reflexivity | constructor; assumption ].
Qed.

Lemma fold_left_Qplus l a : (fold_left Qplus l a == a + foldr Qplus 0 l)%Q.
Proof.
  revert a. induction l as [|x l IH]; intros a; simpl; [ ring | rewrite IH; ring ].
Qed.

Lemma np_mean_average current ds (previous : list snapshot) :
  Forall2 (fun d p => (d == spec_term current p)%Q /\ (0 <= d <= 1)%Q) ds previous ->
  previous <> [] ->
  (np_mean ds == average (map (spec_term current) previous))%Q /\ (0 <= np_mean ds <= 1)%Q.
Proof.
  intros Hall Hne. unfold np_mean, average, py_sum.
  rewrite fold_left_Qplus, Qplus_0_l, length_map.
  assert (Hlen : length ds = length previous) by (eapply Forall2_length; eassumption).
  assert (Hsum : (foldr Qplus 0 ds == foldr Qplus 0 (map (spec_term current) previous))%Q /\
                 (0 <= foldr Qplus 0 ds <= Qnat (length ds))%Q).
  { clear Hne Hlen. induction Hall as [|d p ds previous [Hd Hr] _ [IH1 IH2]]; simpl.
    - split; [ reflexivity | split; [ apply Qle_refl | vm_compute; discriminate ] ].
    - split; [ rewrite Hd, IH1; reflexivity | ].
      unfold Qnat in *. rewrite Nat2Z.inj_succ, <- Z.add_1_l, inject_Z_plus.
      change (inject_Z 1) with 1%Q. lra. }
  destruct Hsum as [Hs1 Hs2]. rewrite Hlen in *.
  assert (Hn : (0 < Qnat (length previous))%Q).
  { unfold Qnat. change 0%Q with (inject_Z 0). rewrite <- Zlt_Qlt.
    destruct previous; [ contradiction | simpl; lia ]. }
  split; [ rewrite Hs1; reflexivity | ].
  split; [ apply Qle_shift_div_l | apply Qle_shift_div_r ]; lra.
Qed.

Lemma slice_last_map {A B} (f : A -> B) k l :
  slice_last k (map f l) = map f (slice_last k l).
Proof.
  unfold slice_last. rewrite length_map. generalize (length l - k) as n.
  induction l as [|x l IH]; intros [|n]; simpl; auto.
Qed.

Lemma slice_last_nonempty {A} (l : list A) k : 0 < k -> l <> [] -> slice_last k l <> [].
Proof.
  intros Hk Hl E. apply (f_equal length) in E. unfold slice_last in E.
  rewrite length_drop in E. destruct l; [ contradiction | simpl in E; lia ].
Qed.

(** C9 (as amended). For a current state and earlier states that carry all
    three keys, with positive memory and a processor share between 0 and
    100, the diversity score is defined, lies in [0, 1], and equals the
    specified average taken over the last five of the earlier states (all
    of them when there are at most five); it is 0 when there is none. *)
Theorem diversity_score_on_valid_snapshots current previous :
  valid_snapshot current -> Forall valid_snapshot previous ->
  exists v,
    calculate_genetic_diversity_score (of_snapshot current) (map of_snapshot previous)
      = inr v /\
    (0 <= v <= 1)%Q /\
    (v == spec_diversity_score current (slice_last 5 previous))%Q /\
    (previous = [] -> v = 0.0%Q).
Proof.
  intros Hc Hall. unfold calculate_genetic_diversity_score.
  destruct previous as [|p previous].
  - exists 0.0%Q. simpl. repeat split; try lra; reflexivity.
  - cbn [map]. rewrite <- (map_cons of_snapshot), slice_last_map.
    set (recent := slice_last 5 (p :: previous)).
    assert (Hrecent : Forall valid_snapshot recent).
    { unfold recent, slice_last. apply Forall_drop. exact Hall. }
    assert (Hne : recent <> []) by (apply slice_last_nonempty; [ lia | discriminate ]).
    destruct (diversity_loop_spec current recent Hc Hrecent) as (ds & -> & Hds).
    destruct (np_mean_average current ds recent Hds Hne) as [Hm Hr].
    exists (np_mean ds). repeat split; try apply Hr; [ | discriminate ].
    rewrite Hm. unfold spec_diversity_score. destruct recent; [ contradiction | reflexivity ].
Qed.

Lemma diversity_score_on_valid_snapshots_witness :
  exists v,
    calculate_genetic_diversity_score (of_snapshot small_process)
      (map of_snapshot [busy_process; small_process]) = inr v /\
    (0 <= v <= 1)%Q /\
    (v == spec_diversity_score small_process (slice_last 5 [busy_process; small_process]))%Q /\
    ([busy_process; small_process] = [] -> v = 0.0%Q).
Proof.
  apply (diversity_score_on_valid_snapshots small_process [busy_process; small_process]).
  - split; cbn; lra.
  - repeat constructor; cbn; lra.
Defined.

(** C9 (as stated) fails in three ways: two states without memory raise a
    division by zero; a processor share above 100 takes the score above 1;
    and with six earlier states the oldest one is left out of the average. *)
Lemma diversity_score_undefined_or_off :
  calculate_genetic_diversity_score (of_snapshot idle_process)
    (map of_snapshot [idle_process]) = inl ZeroDivisionError /\
  (exists v, calculate_genetic_diversity_score (of_snapshot small_process)
               (map of_snapshot [runaway_process]) = inr v /\ (1 < v)%Q) /\
  (exists v, calculate_genetic_diversity_score (of_snapshot small_process)
               (map of_snapshot [busy_process; small_process; small_process;
                                 small_process; small_process; small_process]) = inr v /\
             ~ (v == spec_diversity_score small_process
                       [busy_process; small_process; small_process;
                        small_process; small_process; small_process])%Q).
Proof.
  split; [ reflexivity | split ]; eexists; (split; [ reflexivity | ]).
  - reflexivity.
  - vm_compute. discriminate.
Qed.

(** ** Reasoning in the store monad *)

Lemma bindM_inr {A B} (c : M A) (k : A -> M B) w b w' :
  bindM c k w = inr (b, w') <->
  exists a w1, c w = inr (a, w1) /\ k a w1 = inr (b, w').
Proof.
  unfold bindM. split.
  - destruct (c w) as [e | [a w1]]; [ discriminate | eauto ].
  - intros (a & w1 & -> & Hk). exact Hk.
Qed.

Lemma bindM_step {A B} (c : M A) (k : A -> M B) w a w1 :
  c w = inr (a, w1) -> bindM c k w = k a w1.
Proof. unfold bindM. now intros ->. Qed.

Lemma liftR_eq {A} (c : Rand A) w :
  liftR c w = inr ((c (source w)).1, {| heap := heap w; source := (c (source w)).2 |}).
Proof. unfold liftR. now destruct (c (source w)). Qed.

Lemma read_inr l w c w' : read l w = inr (c, w') <-> heap w !! l = Some c /\ w' = w.
Proof.
  unfold read. destruct (heap w !! l); split;
    [ intros [= -> ->]; auto | intros [[= ->] ->]; auto | discriminate | intros [[=] _] ].
Qed.

Lemma read_some l w c : heap w !! l = Some c -> read l w = inr (c, w).
Proof. intros Hl. now apply read_inr. Qed.

(** Inversion of a successful run into its steps. *)
Ltac run_inv H :=
  repeat match type of H with
    | bindM _ _ _ = inr _ =>
        let a := fresh "a" in let w := fresh "w" in let H1 := fresh "Hstep" in
        apply bindM_inr in H as (a & w & H1 & H)
    | pureM _ _ = inr _ => unfold pureM in H; injection H as <- <-
    | raise _ _ = inr _ => discriminate H
    end.

(** ** Maxima *)

Lemma max_from_spec {A} (key : A -> Q) (l : list A) : forall best,
  (max_from key best l = best \/ max_from key best l ∈ l) /\
  (key best <= key (max_from key best l))%Q /\
  (forall x, x ∈ l -> (key x <= key (max_from key best l))%Q).
Proof.
  induction l as [|y l IH]; intros best; simpl.
  - repeat split; [ now left | lra | intros x Hx; inversion Hx ].
  - destruct (Qltb (key best) (key y)) eqn:E.
    + apply Qltb_lt in E. destruct (IH y) as (H1 & H2 & H3).
      repeat split.
      * right. destruct H1 as [-> | H1]; [ left | now right ].
      * lra.
      * intros x Hx. apply elem_of_cons in Hx as [-> | Hx]; auto.
    + apply Qltb_ge in E. destruct (IH best) as (H1 & H2 & H3).
      repeat split.
      * destruct H1 as [-> | H1]; [ now left | right; now right ].
      * exact H2.
      * intros x Hx. apply elem_of_cons in Hx as [-> | Hx]; [ lra | auto ].
Qed.

Lemma py_max_key_spec {A} (key : A -> Q) (l : list A) :
  l <> [] ->
  exists best, py_max_key key l = Some best /\ best ∈ l /\
               forall x, x ∈ l -> (key x <= key best)%Q.
Proof.
  destruct l as [|x l]; [ contradiction | intros _ ].
  destruct (max_from_spec key l x) as (H1 & H2 & H3).
  exists (max_from key x l). split; [ reflexivity | split ].
  - destruct H1 as [-> | H1]; [ left | now right ].
  - intros y Hy. apply elem_of_cons in Hy as [-> | Hy]; auto.
Qed.

(** ** Queries *)

Lemma read_all_spec ls w :
  Forall (fun l => is_Some (heap w !! l)) ls ->
  exists objects, read_all ls w = inr (objects, w) /\
                  Forall2 (fun l o => o.1 = l /\ heap w !! l = Some o.2) ls objects.
Proof.
  induction 1 as [|l ls [c Hc] _ (objects & Hobj & Hall)]; simpl.
  - exists []. split; [ reflexivity | constructor ].
  - exists ((l, c) :: objects). split.
    + rewrite (bindM_step _ _ _ _ _ (read_some _ _ _ Hc)).
      rewrite (bindM_step _ _ _ _ _ Hobj). reflexivity.
    + constructor; [ split | ]; auto.
Qed.

(** C10. With an empty live population both queries return [None] without
    raising. With a non-empty one, [get_best_chromosome] returns a member
    of the population whose fitness is not below that of any other member,
    and [export_best_strategy] exports that same chromosome: the exported
    dictionary carries its id, its fitness, the generation it was created
    in, and each of its genes under the exported key. *)
Theorem best_chromosome_queries self w :
  (population self = [] ->
     get_best_chromosome self w = inr (None, w) /\
     export_best_strategy self w = inr (None, w)) /\
  (population self <> [] ->
     Forall (fun l => is_Some (heap w !! l)) (population self) ->
     exists l best exported,
       get_best_chromosome self w = inr (Some l, w) /\
       l ∈ population self /\
       heap w !! l = Some best /\
       (forall l' c, l' ∈ population self -> heap w !! l' = Some c ->
                     (fitness c <= fitness best)%Q) /\
       export_best_strategy self w = inr (Some exported, w) /\
       strategy_id exported = id best /\
       fitness_score exported = fitness best /\
       x_generation exported = generation_created best /\
       hp_count (honeypots (configuration exported)) = honeypot_count best /\
       hp_types (honeypots (configuration exported)) = honeypot_types best /\
       mirages (configuration exported) = mirage best /\
       credentials (configuration exported) = credential best /\
       x_filesystem (configuration exported) = filesystem best /\
       x_network (configuration exported) = network best /\
       mathematics (configuration exported) = math best).
Proof.
  split.
  - intros Hempty. unfold export_best_strategy, get_best_chromosome.
    rewrite Hempty. split; reflexivity.
  - intros Hne Hvalid.
    destruct (read_all_spec _ w Hvalid) as (objects & Hread & Hall).
    assert (Hobj : objects <> []).
    { intros ->. apply Forall2_nil_inv_r in Hall. contradiction. }
    destruct (py_max_key_spec (fun x => fitness x.2) objects Hobj) as (b & Hmax & Hin & Htop).
    assert (Hbest : get_best_chromosome self w = inr (Some b.1, w)).
    { unfold get_best_chromosome. destruct (population self); [ contradiction | ].
      rewrite (bindM_step _ _ _ _ _ Hread), Hmax. reflexivity. }
    destruct (proj1 (list_elem_of_lookup _ _) Hin) as [i Hi].
    destruct (Forall2_lookup_r _ _ _ _ _ Hall Hi) as (l & Hl & Hfst & Hheap).
    assert (Hexport : export_best_strategy self w = inr (Some (strategy_of b.2), w)).
    { unfold export_best_strategy. rewrite (bindM_step _ _ _ _ _ Hbest).
      rewrite Hfst. rewrite (bindM_step _ _ _ _ _ (read_some _ _ _ Hheap)). reflexivity. }
    exists b.1, b.2, (strategy_of b.2). rewrite Hfst.
    split; [ rewrite Hfst in Hbest; exact Hbest | ].
    split; [ apply list_elem_of_lookup; eauto | ].
    split; [ exact Hheap | ]. split; [ | split; [ exact Hexport | ] ].
    + intros l' c Hl' Hc.
      destruct (proj1 (list_elem_of_lookup _ _) Hl') as [j Hj].
      destruct (Forall2_lookup_l _ _ _ _ _ Hall Hj) as (o & Ho & Ho1 & Ho2).
      rewrite Hc in Ho2. injection Ho2 as ->.
      apply (Htop o). apply list_elem_of_lookup. eauto.
    + cbn [strategy_of strategy_id fitness_score x_generation configuration honeypots
           hp_count hp_types mirages credentials x_filesystem x_network mathematics].
      repeat split.
Qed.


Lemma best_chromosome_queries_witness :
  (get_best_chromosome empty_engine (small_world []) = inr (None, small_world []) /\
   export_best_strategy empty_engine (small_world []) = inr (None, small_world [])) /\
  exists l best exported,
    get_best_chromosome (small_engine 0 1) (small_world []) = inr (Some l, small_world []) /\
    l ∈ population (small_engine 0 1) /\
    heap (small_world []) !! l = Some best /\
    (forall l' c, l' ∈ population (small_engine 0 1) -> heap (small_world []) !! l' = Some c ->
                  (fitness c <= fitness best)%Q) /\
    export_best_strategy (small_engine 0 1) (small_world [])
      = inr (Some exported, small_world []) /\
    strategy_id exported = id best /\
    fitness_score exported = fitness best /\
    x_generation exported = generation_created best /\
    hp_count (honeypots (configuration exported)) = honeypot_count best /\
    hp_types (honeypots (configuration exported)) = honeypot_types best /\
    mirages (configuration exported) = mirage best /\
    credentials (configuration exported) = credential best /\
    x_filesystem (configuration exported) = filesystem best /\
    x_network (configuration exported) = network best /\
    mathematics (configuration exported) = math best.
Proof.
  split.
  - apply (proj1 (best_chromosome_queries empty_engine (small_world []))). reflexivity.
  - apply (proj2 (best_chromosome_queries (small_engine 0 1) (small_world []))).
    + discriminate.
    + repeat constructor; eexists; reflexivity.
Defined.

(** ** Construction *)

Lemma bindM_liftR {A B} (c : Rand A) (k : A -> M B) w :
  bindM (liftR c) k w =
  k (c (source w)).1 {| heap := heap w; source := (c (source w)).2 |}.
Proof. apply bindM_step, liftR_eq. Qed.

Lemma random_sample_enough {A} (population : list A) k w :
  k <= length population ->
  random_sample population k w =
  inr (omap (fun p => population !! p)
         (sample_positions (seq 0 (length population)) k (source w)).1,
       {| heap := heap w;
          source := (sample_positions (seq 0 (length population)) k (source w)).2 |}).
Proof.
  intros Hk. unfold random_sample.
  destruct (length population <? k) eqn:E; [ apply Nat.ltb_lt in E; lia | ].
  rewrite bindM_liftR. reflexivity.
Qed.

Lemma bindM_random_sample {A B} (population : list A) k (cont : list A -> M B) w :
  k <= length population ->
  bindM (random_sample population k) cont w =
  cont (omap (fun p => population !! p)
          (sample_positions (seq 0 (length population)) k (source w)).1)
       {| heap := heap w;
          source := (sample_positions (seq 0 (length population)) k (source w)).2 |}.
Proof. intros Hk. apply bindM_step, random_sample_enough, Hk. Qed.

Lemma randint_to_nat_le a b n g :
  (a <= b)%Z -> (b <= Z.of_nat n)%Z -> Z.to_nat (random_randint a b g).1 <= n.
Proof.
  intros Hab Hb. pose proof (random_randint_range a b g Hab). lia.
Qed.

Lemma _create_random_chromosome_total self_generation w :
  exists chrom g, _create_random_chromosome self_generation w
                  = inr (chrom, {| heap := heap w; source := g |}).
Proof.
  unfold _create_random_chromosome.
  repeat first
    [ rewrite bindM_liftR; cbn [heap source]
    | rewrite bindM_random_sample by (apply randint_to_nat_le; simpl; lia);
      cbn [heap source] ].
  eexists _, _. reflexivity.
Qed.

Lemma bindM_alloc {B} c (k : loc -> M B) w :
  bindM (alloc c) k w =
  k (length (heap w)) {| heap := heap w ++ [c]; source := source w |}.
Proof. reflexivity. Qed.

Lemma initialize_from_total self_generation n : forall i w,
  exists ls w', initialize_from self_generation i n w = inr (ls, w') /\ length ls = n.
Proof.
  induction n as [|n IH]; intros i w; simpl.
  - exists [], w. split; reflexivity.
  - destruct (_create_random_chromosome_total self_generation w) as (chrom & g & Hc).
    rewrite (bindM_step _ _ _ _ _ Hc).
    rewrite bindM_alloc.
    cbv beta. match goal with |- context [bindM (initialize_from _ _ n) _ ?w1] =>
      destruct (IH (S i) w1) as (ls & w' & Hls & Hlen) end.
    rewrite (bindM_step _ _ _ _ _ Hls).
    eexists _, _. split; [ reflexivity | simpl; lia ].
Qed.

(** C5 (as amended). Construction performs no validation: for every
    configuration, valid or not, it succeeds and yields an engine that
    carries the configured parameters, a population of [population_size]
    chromosomes (none when it is not positive), generation 0 and an empty
    history. *)
Theorem construction_always_succeeds config w :
  exists self w',
    __init__ config w = inr (self, w') /\
    population_size self = cfg_population_size config /\
    elite_size self = cfg_elite_size config /\
    self_mutation_rate self = cfg_mutation_rate config /\
    crossover_rate self = cfg_crossover_rate config /\
    length (population self) = Z.to_nat (cfg_population_size config) /\
    self_generation self = 0 /\
    fitness_history self = [].
Proof.
  unfold __init__, _initialize_population.
  destruct (initialize_from_total 0 (Z.to_nat (cfg_population_size config)) 0 w)
    as (ls & w' & Hls & Hlen).
  rewrite (bindM_step _ _ _ _ _ Hls).
  eexists _, _. split; [ reflexivity | ]. cbn. auto 10.
Qed.

(** C5 (as stated) fails: a configuration with a population of 1, an elite
    of 4 and both rates outside [0, 1] is accepted. *)
Lemma construction_accepts_broken_config :
  exists self w',
    __init__ broken_config {| heap := []; source := [] |} = inr (self, w') /\
    population_size self = 1%Z /\ elite_size self = 4%Z /\
    self_mutation_rate self = 2%Q /\ crossover_rate self = (-1)%Q /\
    length (population self) = 1.
Proof.
  eexists _, _. split; [ vm_compute; reflexivity | ]. cbn. auto 10.
Qed.


(** ** Sampling and tournament selection *)

Lemma sample_positions_spec k : forall pool g,
  NoDup pool -> k <= length pool ->
  length (sample_positions pool k g).1 = k /\
  NoDup (sample_positions pool k g).1 /\
  (forall p, p ∈ (sample_positions pool k g).1 -> p ∈ pool).
Proof.
  induction k as [|k IH]; intros pool g Hnd Hk; simpl.
  - repeat split; [ constructor | intros p Hp; inversion Hp ].
  - rewrite bind_eq.
    pose proof (randbelow_range (length pool) g ltac:(lia)) as Hj.
    destruct (lookup_lt_is_Some_2 pool _ Hj) as [p Hp]. rewrite Hp.
    rewrite bind_eq. cbn [ret fst].
    pose proof (delete_Permutation pool _ p Hp) as Hperm.
    assert (Hnd' : NoDup (p :: delete (randbelow (length pool) g).1 pool))
      by (rewrite <- Hperm; exact Hnd).
    apply NoDup_cons in Hnd' as [Hnotin Hnd'].
    assert (Hlen : k <= length (delete (randbelow (length pool) g).1 pool)).
    { apply Permutation_length in Hperm. simpl in Hperm. lia. }
    destruct (IH _ (randbelow (length pool) g).2 Hnd' Hlen) as (H1 & H2 & H3).
    repeat split.
    + simpl. now rewrite H1.
    + apply NoDup_cons. split; [ | exact H2 ]. intros Hin. apply Hnotin, H3, Hin.
    + intros q Hq. apply elem_of_cons in Hq as [-> | Hq].
      * apply list_elem_of_lookup. eauto.
      * eapply list_elem_of_delete_inv, H3, Hq.
Qed.

Lemma omap_lookup_positions {A} (l : list A) positions :
  (forall p, p ∈ positions -> p < length l) ->
  Forall2 (fun p x => l !! p = Some x) positions (omap (fun p => l !! p) positions).
Proof.
  induction positions as [|p positions IH]; intros Hlt; simpl.
  - constructor.
  - destruct (lookup_lt_is_Some_2 l p (Hlt p ltac:(left))) as [x Hx]. rewrite Hx.
    constructor; [ exact Hx | ]. apply IH. intros q Hq. apply Hlt. now right.
Qed.

(** [random.sample] returns members at pairwise distinct positions. *)
Lemma random_sample_spec {A} (population : list A) k w :
  k <= length population ->
  exists t w' positions,
    random_sample population k w = inr (t, w') /\ heap w' = heap w /\
    NoDup positions /\ length positions = k /\
    Forall2 (fun p x => population !! p = Some x) positions t.
Proof.
  intros Hk. rewrite (random_sample_enough population k w Hk).
  destruct (sample_positions_spec k (seq 0 (length population)) (source w))
    as (H1 & H2 & H3); [ apply NoDup_seq | now rewrite length_seq | ].
  eexists _, _, _. split; [ reflexivity | ]. cbn [heap].
  repeat split; [ exact H2 | exact H1 | ].
  apply omap_lookup_positions. intros p Hp. apply H3, elem_of_seq in Hp. lia.
Qed.

Lemma random_sample_too_few {A} (population : list A) k w :
  length population < k -> random_sample population k w = inl ValueError.
Proof.
  intros Hk. unfold random_sample.
  destruct (length population <? k) eqn:E; [ reflexivity | apply Nat.ltb_ge in E; lia ].
Qed.

Lemma tournament_rounds_spec sorted_population n : forall w,
  3 <= length sorted_population ->
  exists pool w',
    tournament_rounds sorted_population n w = inr (pool, w') /\ heap w' = heap w /\
    length pool = n /\ Forall (won_tournament sorted_population) pool.
Proof.
  induction n as [|n IH]; intros w Hlen; simpl.
  - exists [], w. repeat split; constructor.
  - destruct (random_sample_spec sorted_population 3 w Hlen)
      as (t & w1 & positions & Hs & Hheap & Hnd & Hlen3 & Hall).
    rewrite (bindM_step _ _ _ _ _ Hs).
    destruct positions as [|i [|j [|k [|? ?]]]]; try discriminate Hlen3.
    apply Forall2_cons_inv_l in Hall as (x & t1 & Hx & Hall & ->).
    apply Forall2_cons_inv_l in Hall as (y & t2 & Hy & Hall & ->).
    apply Forall2_cons_inv_l in Hall as (z & t3 & Hz & Hall & ->).
    apply Forall2_nil_inv_l in Hall as ->.
    destruct (py_max_key_spec snd [x; y; z] ltac:(discriminate)) as (best & Hbest & Hin & Htop).
    rewrite Hbest.
    destruct (IH w1 Hlen) as (pool & w' & Hpool & Hheap' & Hlenp & Hwon).
    rewrite (bindM_step _ _ _ _ _ Hpool).
    exists (best.1 :: pool), w'. repeat split.
    + congruence.
    + simpl. now rewrite Hlenp.
    + constructor; [ | exact Hwon ].
      exists i, j, k, x, y, z, best. repeat split; auto; apply Htop.
      * left.
      * right; left.
      * right; right; left.
Qed.

(** C6 (as amended). The breeding pool is built by [tournament_size]
    tournaments (the engine passes [population_size // 2]); each tournament
    samples 3 chromosomes without replacement, that is at pairwise distinct
    positions of the ranked population, and its winner is one of the three
    with the greatest fitness. The ranked population must have at least
    three members. *)
Theorem tournament_selection_pool sorted_population tournament_size w :
  3 <= length sorted_population ->
  exists pool w',
    _tournament_selection sorted_population tournament_size w = inr (pool, w') /\
    heap w' = heap w /\
    length pool = Z.to_nat tournament_size /\
    Forall (won_tournament sorted_population) pool.
Proof.
  intros Hlen. unfold _tournament_selection. now apply tournament_rounds_spec.
Qed.

Lemma tournament_selection_pool_witness :
  exists pool w',
    _tournament_selection four_ranked (population_size (small_engine 0 1) / 2)
      (small_world [(1, 2); (0, 0); (1, 1)]) = inr (pool, w') /\
    heap w' = heap (small_world [(1, 2); (0, 0); (1, 1)]) /\
    length pool = Z.to_nat (population_size (small_engine 0 1) / 2) /\
    Forall (won_tournament four_ranked) pool.
Proof.
  apply (tournament_selection_pool four_ranked
           (population_size (small_engine 0 1) / 2)
           (small_world [(1, 2); (0, 0); (1, 1)])).
  simpl. lia.
Defined.

(** With fewer than three ranked chromosomes a tournament cannot be drawn. *)
Lemma tournament_selection_needs_three sorted_population tournament_size w :
  length sorted_population < 3 -> (0 < tournament_size)%Z ->
  _tournament_selection sorted_population tournament_size w = inl ValueError.
Proof.
  intros Hlen Hsize. unfold _tournament_selection.
  destruct (Z.to_nat tournament_size) as [|n] eqn:E; [ lia | ]. simpl.
  unfold bindM. now rewrite random_sample_too_few.
Qed.

(** C6 (as stated) fails: the sample is drawn without replacement, so no
    source makes one chromosome meet itself in a tournament. *)
Lemma tournament_sample_never_repeats :
  ~ (exists w x w', random_sample four_ranked 3 w = inr ([x; x; x], w')).
Proof.
  intros (w & x & w' & Hs).
  destruct (random_sample_spec four_ranked 3 w ltac:(simpl; lia))
    as (t & w1 & positions & Hs' & _ & Hnd & Hlen3 & Hall).
  rewrite Hs in Hs'. injection Hs' as <- <-.
  destruct positions as [|i [|j [|k [|? ?]]]]; try discriminate Hlen3.
  apply Forall2_cons_1 in Hall as [Hi Hall].
  apply Forall2_cons_1 in Hall as [Hj _].
  assert (Hij : i = j).
  { assert (Hfst : forall p, four_ranked !! p = Some x -> (fst <$> four_ranked) !! p = Some x.1)
      by (intros p Hp; now rewrite list_lookup_fmap, Hp).
    eapply (NoDup_lookup (fst <$> four_ranked)); [ | apply Hfst, Hi | apply Hfst, Hj ].
    apply (bool_decide_unpack (NoDup (fst <$> four_ranked))). reflexivity. }
  subst j. apply NoDup_cons in Hnd as [Hnotin _]. apply Hnotin. left.
Qed.


(** ** Computations that only allocate *)

Lemma allocates_pureM {A} (a : A) : allocates (pureM a).
Proof. intros w a' w' [= _ <-]. reflexivity. Qed.

Lemma allocates_raise {A} e : allocates (@raise A e).
Proof. intros w a w' [=]. Qed.

Lemma allocates_bindM {A B} (c : M A) (k : A -> M B) :
  allocates c -> (forall a, allocates (k a)) -> allocates (bindM c k).
Proof.
  intros Hc Hk w b w' Hrun. apply bindM_inr in Hrun as (a & w1 & H1 & H2).
  etrans; [ eapply Hc, H1 | eapply Hk, H2 ].
Qed.

Lemma allocates_liftR {A} (c : Rand A) : allocates (liftR c).
Proof. intros w a w' Hrun. rewrite liftR_eq in Hrun. injection Hrun as _ <-. reflexivity. Qed.

Lemma allocates_read l : allocates (read l).
Proof. intros w c w' Hrun. apply read_inr in Hrun as [_ ->]. reflexivity. Qed.

Lemma allocates_alloc c : allocates (alloc c).
Proof. intros w l w' [= _ <-]. simpl. now apply prefix_app_r. Qed.

Lemma allocates_random_sample {A} (population : list A) k :
  allocates (random_sample population k).
Proof.
  unfold random_sample. destruct (length population <? k).
  - apply allocates_raise.
  - apply allocates_bindM; [ apply allocates_liftR | intros; apply allocates_pureM ].
Qed.

Lemma allocates_random_choice {A} (l : list A) : allocates (random_choice l).
Proof.
  unfold random_choice. apply allocates_bindM; [ apply allocates_liftR | ].
  intros j. destruct (l !! j); [ apply allocates_pureM | apply allocates_raise ].
Qed.

Lemma allocates_deepcopy l : allocates (deepcopy l).
Proof.
  unfold deepcopy. apply allocates_bindM; [ apply allocates_read | apply allocates_alloc ].
Qed.

Create HintDb allocates.
#[export] Hint Resolve allocates_pureM allocates_raise allocates_liftR allocates_read
  allocates_alloc allocates_random_sample allocates_random_choice allocates_deepcopy
  : allocates.

Ltac allocates_step :=
  first
    [ apply allocates_bindM; [ | intros ? ]
    | match goal with
      | |- allocates (if ?b then _ else _) => destruct b
      | |- allocates (match ?x with _ => _ end) => destruct x
      end
    | solve [ auto with allocates ] ].

Lemma allocates_tournament_rounds sorted_population n :
  allocates (tournament_rounds sorted_population n).
Proof.
  induction n as [|n IH]; simpl; repeat allocates_step.
Qed.

Lemma allocates_breed fuel self new_population breeding_pool : forall offspring,
  allocates (breed fuel self new_population breeding_pool offspring).
Proof.
  induction fuel as [|fuel IH]; intros offspring; simpl; repeat allocates_step.
Qed.

Lemma allocates_mutation_loop self offspring : allocates (mutation_loop self offspring).
Proof.
  induction offspring as [|child rest IH]; simpl; repeat allocates_step.
Qed.

Lemma prefix_lookup {A} (l k : list A) i x :
  l `prefix_of` k -> l !! i = Some x -> k !! i = Some x.
Proof. intros [k' ->] Hi. now apply lookup_app_l_Some. Qed.

(** The defect behind C1, in general: whichever children the mutation step
    selects, it leaves every chromosome object, and so every child, as it
    was; the mutated copies are not stored anywhere. *)
Lemma mutation_loop_changes_no_chromosome self offspring w u w' :
  mutation_loop self offspring w = inr (u, w') ->
  forall l c, heap w !! l = Some c -> heap w' !! l = Some c.
Proof.
  intros Hrun l c Hl. eapply prefix_lookup; [ | exact Hl ].
  eapply allocates_mutation_loop, Hrun.
Qed.

(** C1, at a concrete generation. The engine has mutation rate 1, so every
    child is selected; on the exhausted source one mutation pass lowers
    [honeypot_count] from 5 to 3; yet the three children installed in the
    next population still carry 5. *)
Theorem selected_children_are_installed_unmutated :
  exists best self' w',
    @evolve_generation plain_host (small_engine 1 0) ∅ (small_world [])
      = inr (best, self', w') /\
    population self' = [0; 4; 5; 6] /\
    Forall (fun child =>
              exists c, heap w' !! child = Some c /\
                        honeypot_count c = 5%Z /\
                        honeypot_count (_mutate c (source w')).1 = 3%Z)
           [4; 5; 6].
Proof.
  eexists _, _, _. split; [ vm_compute; reflexivity | ].
  split; [ reflexivity | ].
  repeat constructor; eexists; (split; [ reflexivity | split; reflexivity ]).
Qed.


(** ** Ranking *)

Lemma insert_desc_Permutation {A} (key : A -> Q) x l : insert_desc key x l ≡ₚ x :: l.
Proof.
  induction l as [|y l IH]; simpl; [ reflexivity | ].
  destruct (Qltb (key x) (key y)); [ | reflexivity ].
  rewrite IH. apply Permutation_swap.
Qed.

Lemma sorted_reverse_Permutation {A} (key : A -> Q) l : sorted_reverse key l ≡ₚ l.
Proof.
  unfold sorted_reverse. induction l as [|x l IH]; simpl; [ reflexivity | ].
  now rewrite insert_desc_Permutation, IH.
Qed.

Lemma insert_desc_sorted {A} (key : A -> Q) x l :
  StronglySorted (fun a b => (key b <= key a)%Q) l ->
  StronglySorted (fun a b => (key b <= key a)%Q) (insert_desc key x l).
Proof.
  induction 1 as [|y l Hsorted IH Hall]; simpl.
  - repeat constructor.
  - destruct (Qltb (key x) (key y)) eqn:E.
    + apply Qltb_lt in E. constructor; [ exact IH | ].
      rewrite insert_desc_Permutation. constructor; [ lra | exact Hall ].
    + apply Qltb_ge in E. constructor; [ now constructor | ].
      constructor; [ exact E | ].
      eapply Forall_impl; [ exact Hall | ]. intros z Hz. simpl in Hz. lra.
Qed.

Lemma sorted_reverse_sorted {A} (key : A -> Q) l :
  StronglySorted (fun a b => (key b <= key a)%Q) (sorted_reverse key l).
Proof.
  unfold sorted_reverse. induction l as [|x l IH]; simpl;
    [ constructor | now apply insert_desc_sorted ].
Qed.

(** ** Evaluation *)

Ltac run_steps H :=
  repeat first
    [ progress cbv beta zeta in H
    | match type of H with
      | bindM _ _ _ = inr _ =>
          let a := fresh "a" in let w := fresh "w" in let H1 := fresh "Hstep" in
          apply bindM_inr in H as (a & w & H1 & H)
      end ].

Lemma evaluate_spec `{Host} weights batch h0 pop : forall w scores w1,
  reevaluated weights batch h0 (heap w) ->
  evaluate weights batch pop w = inr (scores, w1) ->
  reevaluated weights batch h0 (heap w1) /\
  source w1 = source w /\
  (forall l c, h0 !! l = Some c ->
     heap w !! l = Some (set_fitness (evaluated_fitness weights batch c) c) ->
     heap w1 !! l = Some (set_fitness (evaluated_fitness weights batch c) c)) /\
  Forall2 (fun l s =>
             s.1 = l /\
             exists c, h0 !! l = Some c /\ s.2 = evaluated_fitness weights batch c /\
                       heap w1 !! l = Some (set_fitness (evaluated_fitness weights batch c) c))
          pop scores.
Proof.
  induction pop as [|l rest IH]; intros w scores w1 Hre Hrun; simpl in Hrun.
  - injection Hrun as <- <-. repeat split; auto; apply Hre.
  - run_steps Hrun. apply read_inr in Hstep as [Hl ->].
    injection Hstep0 as _ <-.
    injection Hrun as <- <-.
    destruct Hre as [Hlen Hre].
    assert (Hlt : l < length h0) by (rewrite <- Hlen; eapply lookup_lt_Some, Hl).
    destruct (lookup_lt_is_Some_2 _ _ Hlt) as [c Hc].
    assert (Hval : set_fitness (fitness_function weights a (default ∅ (batch !! id a))) a
                   = set_fitness (evaluated_fitness weights batch c) c).
    { destruct (Hre l c Hc) as [Hsame | Hdone]; rewrite Hl in *.
      - injection Hsame as ->. reflexivity.
      - injection Hdone as ->. reflexivity. }
    assert (Hfit : fitness_function weights a (default ∅ (batch !! id a))
                   = evaluated_fitness weights batch c).
    { apply (f_equal fitness) in Hval. exact Hval. }
    rewrite Hval in Hstep1.
    assert (Hre' : reevaluated weights batch h0
              (<[l := set_fitness (evaluated_fitness weights batch c) c]> (heap w))).
    { split; [ now rewrite length_insert | ].
      intros l' c' Hc'. destruct (decide (l' = l)) as [-> | Hne].
      - right. rewrite Hc in Hc'. injection Hc' as <-.
        apply list_lookup_insert_eq. now rewrite Hlen.
      - rewrite list_lookup_insert_ne by auto. now apply Hre. }
    eapply IH in Hstep1 as (Hre1 & Hsrc & Hstable & Hall); [ | exact Hre' ].
    repeat split; try apply Hre1.
    + exact Hsrc.
    + intros l' c' Hc' Hdone. apply Hstable; [ exact Hc' | ].
      cbn [heap]. destruct (decide (l' = l)) as [-> | Hne].
      * rewrite Hc in Hc'. injection Hc' as <-.
        apply list_lookup_insert_eq. now rewrite Hlen.
      * now rewrite list_lookup_insert_ne by auto.
    + constructor; [ | exact Hall ]. split; [ reflexivity | ].
      exists c. repeat split; [ exact Hc | exact Hfit | ].
      apply Hstable; [ exact Hc | ]. cbn [heap].
      apply list_lookup_insert_eq. now rewrite Hlen.
Qed.

Lemma reevaluated_refl `{Host} weights batch h : reevaluated weights batch h h.
Proof. split; [ reflexivity | intros l c Hc; now left ]. Qed.

Lemma reevaluated_same_but_fitness `{Host} weights batch h h' :
  reevaluated weights batch h h' -> same_but_fitness h h'.
Proof.
  intros [_ Hre] l c Hc. destruct (Hre l c Hc) as [H1 | H1]; rewrite H1; eexists;
    (split; [ reflexivity | now destruct c ]).
Qed.

Lemma same_but_fitness_trans h1 h2 h3 :
  same_but_fitness h1 h2 -> same_but_fitness h2 h3 -> same_but_fitness h1 h3.
Proof.
  intros H12 H23 l c Hc. destruct (H12 l c Hc) as (c2 & Hc2 & E2).
  destruct (H23 l c2 Hc2) as (c3 & Hc3 & E3). exists c3. split; [ exact Hc3 | ].
  rewrite E3 at 1. rewrite E2. reflexivity.
Qed.

Lemma prefix_same_but_fitness h h' : h `prefix_of` h' -> same_but_fitness h h'.
Proof.
  intros Hp l c Hc. exists c. split; [ eapply prefix_lookup; eassumption | now destruct c ].
Qed.


(** ** One generation *)

Lemma lookup_map {A B} (f : A -> B) (l : list A) i : map f l !! i = f <$> l !! i.
Proof. change (map f l) with (f <$> l). apply list_lookup_fmap. Qed.

Lemma scores_fst (P : loc -> loc * Q -> Prop) pop scores :
  Forall2 (fun l s => s.1 = l /\ P l s) pop scores -> fst <$> scores = pop.
Proof.
  induction 1 as [|l s pop scores [Hs _] _ IH]; [ reflexivity | ].
  now rewrite fmap_cons, IH, Hs.
Qed.

Lemma evolve_generation_inv `{Host} self batch w best self' w' :
  evolve_generation self batch w = inr (best, self', w') ->
  exists scores w1 first offspring record,
    evaluate (self_fitness_weights self) batch (population self) w = inr (scores, w1) /\
    head (sorted_reverse snd scores) = Some first /\
    heap w1 `prefix_of` heap w' /\
    best = first.1 /\
    population self' =
      map fst (slice_to (sorted_reverse snd scores) (elite_size self)) ++ offspring /\
    fitness_history self' = fitness_history self ++ [record] /\
    best_chromosome record = first.1 /\
    best_fitness record = first.2 /\
    generation record = S (self_generation self) /\
    self_generation self' = S (self_generation self).
Proof.
  intros Hrun. unfold evolve_generation in Hrun. run_steps Hrun.
  destruct (head (sorted_reverse snd a)) as [first|] eqn:Hhead; [ | discriminate Hrun ].
  destruct (last (sorted_reverse snd a)) as [final|] eqn:Hlast; [ | discriminate Hrun ].
  run_steps Hrun. injection Hrun as <- <- <-.
  eexists a, w0, first, _, _. split; [ exact Hstep | ].
  split; [ exact Hhead | ]. split.
  - etrans; [ eapply allocates_tournament_rounds, Hstep0 | ].
    etrans; [ eapply allocates_breed, Hstep1 | ].
    eapply allocates_mutation_loop, Hstep2.
  - cbn. repeat split; reflexivity.
Qed.

(** C8. When a generation step completes, rank the chromosomes of
    generation N by the fitness the step evaluated for them, descending.
    Every ranked chromosome is still in the store as the same object, with
    its id and genes and the evaluated fitness; and the first [elite_size]
    of the ranking sit at the same places of the installed population of
    generation N+1. *)
Theorem elites_carried_over `{Host} self batch w best self' w' :
  evolve_generation self batch w = inr (best, self', w') ->
  exists ranked : list (loc * Q),
    map fst ranked ≡ₚ population self /\
    StronglySorted (fun a b => (b.2 <= a.2)%Q) ranked /\
    (forall l f, (l, f) ∈ ranked ->
       exists c, heap w !! l = Some c /\
                 f = evaluated_fitness (self_fitness_weights self) batch c /\
                 heap w' !! l = Some (set_fitness f c) /\
                 id (set_fitness f c) = id c /\
                 fitness (set_fitness f c) = f) /\
    (forall i l f,
       (Z.of_nat i < elite_size self)%Z -> ranked !! i = Some (l, f) ->
       population self' !! i = Some l).
Proof.
  intros Hrun.
  apply evolve_generation_inv in Hrun
    as (scores & w1 & first & offspring & record & Heval & _ & Hprefix & _ & Hpop & _).
  destruct (evaluate_spec _ _ (heap w) _ _ _ _ (reevaluated_refl _ _ _) Heval)
    as (_ & _ & _ & Hall).
  exists (sorted_reverse snd scores). split; [ | split; [ | split ] ].
  - change (map fst (sorted_reverse snd scores)) with (fst <$> sorted_reverse snd scores).
    rewrite sorted_reverse_Permutation.
    now rewrite (scores_fst _ _ _ Hall).
  - apply sorted_reverse_sorted.
  - intros l f Hin. rewrite sorted_reverse_Permutation in Hin.
    apply list_elem_of_lookup in Hin as [j Hj].
    destruct (Forall2_lookup_r _ _ _ _ _ Hall Hj) as (l' & _ & Hl' & c & Hc & Hf & Hheap).
    cbn [fst snd] in *. subst l'. exists c. rewrite Hf.
    repeat split; [ exact Hc | eapply prefix_lookup; eassumption ].
  - intros i l f Hi Hranked. rewrite Hpop. unfold slice_to.
    destruct (0 <=? elite_size self)%Z eqn:E; [ | apply Z.leb_gt in E; lia ].
    apply lookup_app_l_Some. rewrite lookup_map, lookup_take_lt by lia.
    now rewrite Hranked.
Qed.

Lemma elites_carried_over_witness :
  exists best self' w' (ranked : list (loc * Q)),
    @evolve_generation plain_host (small_engine 0 1)
      {[ "gen0_chr2" := engaged_stats ]} (small_world []) = inr (best, self', w') /\
    map fst ranked ≡ₚ population (small_engine 0 1) /\
    StronglySorted (fun a b => (b.2 <= a.2)%Q) ranked /\
    (forall l f, (l, f) ∈ ranked ->
       exists c, heap (small_world []) !! l = Some c /\
                 f = @evaluated_fitness plain_host
                       (self_fitness_weights (small_engine 0 1))
                       {[ "gen0_chr2" := engaged_stats ]} c /\
                 heap w' !! l = Some (set_fitness f c) /\
                 id (set_fitness f c) = id c /\
                 fitness (set_fitness f c) = f) /\
    (forall i l f,
       (Z.of_nat i < elite_size (small_engine 0 1))%Z -> ranked !! i = Some (l, f) ->
       population self' !! i = Some l).
Proof.
  eexists _, _, _.
  assert (Hrun : @evolve_generation plain_host (small_engine 0 1)
            {[ "gen0_chr2" := engaged_stats ]} (small_world []) = inr (_, _, _))
    by (vm_compute; reflexivity).
  destruct (@elites_carried_over plain_host _ _ _ _ _ _ Hrun) as (ranked & Hranked).
  exists ranked. split; [ exact Hrun | exact Hranked ].
Defined.

(** ** History *)

Lemma evolve_generation_frame `{Host} self batch w best self' w' :
  evolve_generation self batch w = inr (best, self', w') ->
  (exists record, fitness_history self' = fitness_history self ++ [record]) /\
  same_but_fitness (heap w) (heap w').
Proof.
  intros Hrun.
  apply evolve_generation_inv in Hrun
    as (scores & w1 & first & offspring & record & Heval & _ & Hprefix & _ & _ & Hhist & _).
  split; [ eauto | ].
  destruct (evaluate_spec _ _ (heap w) _ _ _ _ (reevaluated_refl _ _ _) Heval)
    as (Hre & _).
  eapply same_but_fitness_trans;
    [ eapply reevaluated_same_but_fitness, Hre | apply prefix_same_but_fitness, Hprefix ].
Qed.

(** C7 (as amended). Through every sequence of later generation steps the
    history only grows at its end: each record appended earlier stays in
    place with all its fields, the reference [best_chromosome] included.
    The chromosome object a record refers to is shared with the live
    population; it keeps its id and genes, and only its [fitness] key may
    be assigned again. *)
Theorem history_records_are_kept `{Host} batches : forall self w self' w',
  evolve_generations self batches w = inr (self', w') ->
  fitness_history self `prefix_of` fitness_history self' /\
  same_but_fitness (heap w) (heap w').
Proof.
  induction batches as [|batch batches IH]; intros self w self' w' Hrun; simpl in Hrun.
  - injection Hrun as <- <-. split; [ reflexivity | ].
    intros l c Hc. exists c. split; [ exact Hc | now destruct c ].
  - run_steps Hrun. destruct a as [best self1].
    apply evolve_generation_frame in Hstep as [[record Hhist] Hframe].
    apply IH in Hrun as [Hprefix Hframe']. cbn [snd] in *. split.
    + etrans; [ | exact Hprefix ]. rewrite Hhist. now apply prefix_app_r.
    + eapply same_but_fitness_trans; eassumption.
Qed.

Lemma history_records_are_kept_witness :
  exists self' w',
    @evolve_generations plain_host (small_engine 0 1)
      [ {[ "gen0_chr3" := engaged_stats ]}; ∅ ] (small_world []) = inr (self', w') /\
    fitness_history (small_engine 0 1) `prefix_of` fitness_history self' /\
    same_but_fitness (heap (small_world [])) (heap w').
Proof.
  eexists _, _.
  assert (Hrun : @evolve_generations plain_host (small_engine 0 1)
            [ {[ "gen0_chr3" := engaged_stats ]}; ∅ ] (small_world []) = inr (_, _))
    by (vm_compute; reflexivity).
  split; [ exact Hrun | ].
  exact (@history_records_are_kept plain_host _ _ _ _ _ Hrun).
Defined.

(** C7 (as stated) fails: the record of generation 1 refers to the best
    chromosome itself, which stays in the population as the elite; the next
    step re-evaluates it, and the fitness seen through the record changes. *)
Lemma history_snapshot_is_rewritten :
  exists best1 self1 w1 best2 self2 w2 record c1 c2,
    @evolve_generation plain_host (small_engine 0 1)
      {[ "gen0_chr3" := engaged_stats ]} (small_world []) = inr (best1, self1, w1) /\
    fitness_history self1 = [record] /\
    heap w1 !! best_chromosome record = Some c1 /\
    @evolve_generation plain_host self1 ∅ w1 = inr (best2, self2, w2) /\
    fitness_history self2 !! 0 = Some record /\
    heap w2 !! best_chromosome record = Some c2 /\
    (fitness c1 == best_fitness record)%Q /\
    ~ (fitness c2 == fitness c1)%Q.
Proof.
  eexists _, _, _, _, _, _, _, _, _.
  split; [ vm_compute; reflexivity | ].
  split; [ reflexivity | ].
  split; [ reflexivity | ].
  split; [ vm_compute; reflexivity | ].
  split; [ reflexivity | ].
  split; [ reflexivity | ].
  split; [ reflexivity | ].
  vm_compute. discriminate.
Qed.


(** ** A generation step completes *)

Lemma bindM_read {B} l c (k : chromosome -> M B) w :
  heap w !! l = Some c -> bindM (read l) k w = k c w.
Proof. intros Hl. apply bindM_step, read_some, Hl. Qed.

Lemma bindM_deepcopy {B} l c (k : loc -> M B) w :
  heap w !! l = Some c ->
  bindM (deepcopy l) k w =
  k (length (heap w)) {| heap := heap w ++ [c]; source := source w |}.
Proof.
  intros Hl. apply bindM_step. unfold deepcopy. now rewrite (bindM_read _ _ _ _ Hl).
Qed.

Lemma valid_refs_grow w w' ls :
  length (heap w) <= length (heap w') -> valid_refs w ls -> valid_refs w' ls.
Proof.
  intros Hle Hvalid. eapply Forall_impl; [ exact Hvalid | ]. intros l Hl. simpl in Hl. lia.
Qed.

Lemma evaluate_total `{Host} weights batch pop : forall w,
  valid_refs w pop ->
  exists scores w1, evaluate weights batch pop w = inr (scores, w1) /\
                    length (heap w1) = length (heap w).
Proof.
  induction pop as [|l rest IH]; intros w Hvalid; simpl.
  - exists [], w. split; reflexivity.
  - apply Forall_cons in Hvalid as [Hl Hrest].
    destruct (lookup_lt_is_Some_2 _ _ Hl) as [c Hc].
    rewrite (bindM_read _ _ _ _ Hc). cbv zeta.
    unfold write at 1. unfold bindM at 1.
    match goal with |- context [bindM (evaluate _ _ rest) _ ?w1] =>
      destruct (IH w1) as (scores & w2 & Heval & Hlen) end.
    { eapply valid_refs_grow; [ | exact Hrest ]. cbn [heap]. now rewrite length_insert. }
    rewrite (bindM_step _ _ _ _ _ Heval).
    eexists _, _. split; [ reflexivity | ].
    rewrite Hlen. cbn [heap]. now rewrite length_insert.
Qed.

Lemma random_choice_total {A} (l : list A) w :
  0 < length l ->
  exists x g, random_choice l w = inr (x, {| heap := heap w; source := g |}) /\ x ∈ l.
Proof.
  intros Hlen. unfold random_choice. rewrite bindM_liftR.
  pose proof (randbelow_range (length l) (source w) Hlen) as Hj.
  destruct (lookup_lt_is_Some_2 _ _ Hj) as [x Hx]. rewrite Hx.
  eexists _, _. split; [ reflexivity | ]. apply list_elem_of_lookup. eauto.
Qed.

Lemma valid_ref_lookup w ls l :
  valid_refs w ls -> l ∈ ls -> exists c, heap w !! l = Some c.
Proof.
  intros Hvalid Hin. unfold valid_refs in Hvalid. rewrite Forall_forall in Hvalid.
  apply lookup_lt_is_Some_2, Hvalid, Hin.
Qed.

Lemma breed_total fuel self new_population breeding_pool : forall offspring w,
  valid_refs w breeding_pool -> valid_refs w offspring ->
  (population_size self - Z.of_nat (length new_population + length offspring)
     <= Z.of_nat fuel)%Z ->
  exists offspring' w',
    breed fuel self new_population breeding_pool offspring w = inr (offspring', w') /\
    valid_refs w' offspring'.
Proof.
  induction fuel as [|fuel IH]; intros offspring w Hpool Hoff Hfuel.
  - cbn [breed].
    destruct (_ <? _)%Z eqn:E; [ apply Z.ltb_lt in E | ].
    + destruct (length breeding_pool <? 2); [ | lia ].
      eexists _, _. split; [ reflexivity | exact Hoff ].
    + eexists _, _. split; [ reflexivity | exact Hoff ].
  - cbn [breed].
    destruct (_ <? _)%Z eqn:E;
      [ | eexists _, _; split; [ reflexivity | exact Hoff ] ].
    destruct (length breeding_pool <? 2) eqn:E2;
      [ eexists _, _; split; [ reflexivity | exact Hoff ] | ].
    apply Nat.ltb_ge in E2.
    destruct (random_choice_total breeding_pool w ltac:(lia)) as (parent1 & g1 & Hc1 & Hin1).
    rewrite (bindM_step _ _ _ _ _ Hc1).
    destruct (random_choice_total breeding_pool {| heap := heap w; source := g1 |} ltac:(lia))
      as (parent2 & g2 & Hc2 & Hin2).
    rewrite (bindM_step _ _ _ _ _ Hc2). cbn [heap source].
    rewrite bindM_liftR. cbn [heap source].
    destruct (valid_ref_lookup w _ _ Hpool Hin1) as [p1 Hp1].
    destruct (valid_ref_lookup w _ _ Hpool Hin2) as [p2 Hp2].
    destruct (Qltb _ (crossover_rate self)).
    + rewrite (bindM_read parent1 p1) by exact Hp1.
      rewrite (bindM_read parent2 p2) by exact Hp2.
      rewrite bindM_liftR, !bindM_alloc. cbn [heap source].
      apply IH.
      * eapply valid_refs_grow; [ | exact Hpool ]. cbn [heap]. rewrite !length_app. lia.
      * apply Forall_app. split.
        -- eapply valid_refs_grow; [ | exact Hoff ]. cbn [heap]. rewrite !length_app. lia.
        -- repeat constructor; cbn [heap]; rewrite !length_app; simpl; lia.
      * rewrite length_app. simpl. lia.
    + rewrite (bindM_deepcopy parent1 p1) by exact Hp1.
      rewrite (bindM_deepcopy parent2 p2)
        by (cbn [heap]; apply lookup_app_l_Some; exact Hp2).
      cbn [heap source].
      apply IH.
      * eapply valid_refs_grow; [ | exact Hpool ]. cbn [heap]. rewrite !length_app. lia.
      * apply Forall_app. split.
        -- eapply valid_refs_grow; [ | exact Hoff ]. cbn [heap]. rewrite !length_app. lia.
        -- repeat constructor; cbn [heap]; rewrite !length_app; simpl; lia.
      * rewrite length_app. simpl. lia.
Qed.

Lemma mutation_loop_total self offspring : forall w,
  valid_refs w offspring -> exists w', mutation_loop self offspring w = inr (tt, w').
Proof.
  induction offspring as [|child rest IH]; intros w Hvalid; simpl.
  - eexists. reflexivity.
  - apply Forall_cons in Hvalid as [Hchild Hrest].
    rewrite bindM_liftR. cbn [heap source].
    destruct (lookup_lt_is_Some_2 _ _ Hchild) as [c Hc].
    destruct (Qltb _ (self_mutation_rate self)).
    + erewrite (bindM_step _ _ _ tt); cycle 1.
      { erewrite bindM_read by exact Hc. rewrite bindM_liftR, bindM_alloc. reflexivity. }
      apply IH. eapply valid_refs_grow; [ | exact Hrest ].
      cbn [heap]. rewrite length_app. lia.
    + erewrite (bindM_step _ _ _ tt) by reflexivity.
      apply IH. exact Hrest.
Qed.

(** X1. On a population of at least three chromosomes, all present in the
    store, a generation step returns; in particular the breeding loop ends
    within the rounds allotted to it. *)
Theorem evolve_generation_returns `{Host} self batch w :
  valid_refs w (population self) -> 3 <= length (population self) ->
  exists best self' w', evolve_generation self batch w = inr (best, self', w').
Proof.
  intros Hvalid Hthree. unfold evolve_generation.
  destruct (evaluate_total (self_fitness_weights self) batch _ w Hvalid)
    as (scores & w1 & Heval & Hlen).
  rewrite (bindM_step _ _ _ _ _ Heval). cbv zeta.
  destruct (evaluate_spec _ _ (heap w) _ _ _ _ (reevaluated_refl _ _ _) Heval)
    as (_ & _ & _ & Hall).
  pose proof (scores_fst _ _ _ Hall) as Hfst.
  pose proof (sorted_reverse_Permutation snd scores) as Hperm.
  set (ranked := sorted_reverse snd scores) in *.
  assert (Hranked : length ranked = length (population self)).
  { rewrite (Permutation_length Hperm), <- Hfst. now rewrite length_fmap. }
  destruct ranked as [|first ranked'] eqn:Eranked; [ simpl in Hranked; lia | ].
  cbn [head]. destruct (last (first :: ranked')) as [final|] eqn:Elast;
    [ | apply last_None in Elast; discriminate ].
  rewrite <- Eranked in *.
  destruct (tournament_selection_pool ranked (population_size self / 2) w1 ltac:(lia))
    as (pool & w2 & Hpool & Hheap & _ & Hwon).
  rewrite (bindM_step _ _ _ _ _ Hpool).
  assert (Hvalid2 : valid_refs w2 pool).
  { eapply Forall_impl; [ exact Hwon | ].
    intros winner (i & j & k & x & y & z & best & _ & Hx & Hy & Hz & Hin & -> & _).
    assert (Hbest : best ∈ ranked).
    { apply elem_of_cons in Hin as [-> | Hin]; [ apply list_elem_of_lookup; eauto | ].
      apply elem_of_cons in Hin as [-> | Hin]; [ apply list_elem_of_lookup; eauto | ].
      apply elem_of_cons in Hin as [-> | Hin]; [ apply list_elem_of_lookup; eauto | ].
      inversion Hin. }
    rewrite Hperm in Hbest.
    assert (Hloc : best.1 ∈ population self)
      by (rewrite <- Hfst; apply list_elem_of_fmap; eauto).
    unfold valid_refs in Hvalid. rewrite Forall_forall in Hvalid.
    rewrite Hheap, Hlen. apply Hvalid, Hloc. }
  destruct (breed_total (Z.to_nat (population_size self)) self
              (map fst (slice_to ranked (elite_size self))) pool [] w2 Hvalid2
              ltac:(constructor) ltac:(lia))
    as (offspring & w3 & Hbreed & Hvalid3).
  rewrite (bindM_step _ _ _ _ _ Hbreed).
  destruct (mutation_loop_total self offspring w3 Hvalid3) as (w4 & Hmut).
  rewrite (bindM_step _ _ _ _ _ Hmut).
  eexists _, _, _. reflexivity.
Qed.

Lemma evolve_generation_returns_witness :
  exists best self' w',
    @evolve_generation plain_host (small_engine 0.5 0.5) ∅ (small_world [(1, 3); (2, 4)])
      = inr (best, self', w').
Proof.
  apply (@evolve_generation_returns plain_host (small_engine 0.5 0.5) ∅
           (small_world [(1, 3); (2, 4)])).
  - repeat constructor.
  - simpl. lia.
Defined.


(* ================================================================= *)
(** * Further properties of the engine *)

(** ** The steps of a generation *)

Lemma evolve_generation_steps `{Host} self batch w best self' w' :
  evolve_generation self batch w = inr (best, self', w') ->
  exists scores w1 first final pool w2 offspring w3 u,
    let ranked := sorted_reverse snd scores in
    let elites := map fst (slice_to ranked (elite_size self)) in
    evaluate (self_fitness_weights self) batch (population self) w = inr (scores, w1) /\
    head ranked = Some first /\ last ranked = Some final /\
    _tournament_selection ranked (population_size self / 2) w1 = inr (pool, w2) /\
    breed (Z.to_nat (population_size self)) self elites pool [] w2 = inr (offspring, w3) /\
    mutation_loop self offspring w3 = inr (u, w') /\
    best = first.1 /\
    population self' =
      elites ++ slice_to offspring (population_size self - Z.of_nat (length elites)) /\
    fitness_history self' =
      fitness_history self ++
      [ {| generation := S (self_generation self);
           best_fitness := first.2;
           avg_fitness := np_mean (map snd scores);
           worst_fitness := final.2;
           best_chromosome := first.1;
           improvement :=
             match last (fitness_history self) with
             | Some previous => (first.2 - best_fitness previous)%Q
             | None => 0.0%Q
             end |} ] /\
    best_chromosome_history self' = best_chromosome_history self ++ [first.1] /\
    self_generation self' = S (self_generation self) /\
    population_size self' = population_size self /\
    elite_size self' = elite_size self /\
    self_mutation_rate self' = self_mutation_rate self /\
    crossover_rate self' = crossover_rate self /\
    self_fitness_weights self' = self_fitness_weights self.
Proof.
  intros Hrun. unfold evolve_generation in Hrun. run_steps Hrun.
  destruct (head (sorted_reverse snd a)) as [first|] eqn:Hhead; [ | discriminate Hrun ].
  destruct (last (sorted_reverse snd a)) as [final|] eqn:Hlast; [ | discriminate Hrun ].
  run_steps Hrun. injection Hrun as <- <- <-.
  exists a, w0, first, final, a0, w1, a1, w2, a2. cbv zeta.
  repeat split; assumption || reflexivity.
Qed.

(** ** Size of the next population *)

Lemma breed_fills fuel self new_population breeding_pool : forall offspring w offspring' w',
  breed fuel self new_population breeding_pool offspring w = inr (offspring', w') ->
  (2 <= length breeding_pool ->
   (population_size self <= Z.of_nat (length new_population + length offspring'))%Z) /\
  (length breeding_pool < 2 -> offspring' = offspring).
Proof.
  induction fuel as [|fuel IH]; intros offspring w offspring' w' Hrun; cbn [breed] in Hrun.
  - destruct (_ <? _)%Z eqn:E.
    + destruct (length breeding_pool <? 2) eqn:E2; [ | discriminate Hrun ].
      injection Hrun as <- <-. apply Nat.ltb_lt in E2. split; [ lia | reflexivity ].
    + injection Hrun as <- <-. apply Z.ltb_ge in E. split; [ lia | reflexivity ].
  - destruct (_ <? _)%Z eqn:E.
    + destruct (length breeding_pool <? 2) eqn:E2.
      * injection Hrun as <- <-. apply Nat.ltb_lt in E2. split; [ lia | reflexivity ].
      * apply Nat.ltb_ge in E2. run_steps Hrun.
        destruct (Qltb _ _); run_steps Hrun; apply IH in Hrun as [Hfull _];
          (split; [ exact Hfull | lia ]).
    + injection Hrun as <- <-. apply Z.ltb_ge in E. split; [ lia | reflexivity ].
Qed.

Lemma tournament_rounds_length sorted_population n : forall w pool w',
  tournament_rounds sorted_population n w = inr (pool, w') -> length pool = n.
Proof.
  induction n as [|n IH]; intros w pool w' Hrun; simpl in Hrun.
  - now injection Hrun as <- <-.
  - run_steps Hrun. destruct (py_max_key snd a); [ | discriminate Hrun ].
    run_steps Hrun. injection Hrun as <- <-. simpl. f_equal. eapply IH, Hstep0.
Qed.

Lemma length_slice_to {A} (l : list A) (k : Z) :
  (0 <= k)%Z -> length (slice_to l k) = Nat.min (Z.to_nat k) (length l).
Proof.
  intros Hk. unfold slice_to. destruct (0 <=? k)%Z eqn:E; [ | apply Z.leb_gt in E; lia ].
  apply length_take.
Qed.

(** X2. When a generation step completes on an engine with
    [population_size >= 4] and [0 <= elite_size <= population_size], the
    installed population has exactly [population_size] members. *)
Theorem next_population_is_full `{Host} self batch w best self' w' :
  evolve_generation self batch w = inr (best, self', w') ->
  (4 <= population_size self)%Z ->
  (0 <= elite_size self <= population_size self)%Z ->
  Z.of_nat (length (population self')) = population_size self.
Proof.
  intros Hrun Hsize Helite.
  apply evolve_generation_steps in Hrun
    as (scores & w1 & first & final & pool & w2 & offspring & w3 & u & Hsteps).
  cbv zeta in Hsteps.
  destruct Hsteps as (_ & _ & _ & Hpool & Hbreed & _ & _ & Hpop & _).
  apply tournament_rounds_length in Hpool.
  apply breed_fills in Hbreed as [Hfull _].
  assert (Hp : 2 <= length pool).
  { rewrite Hpool. assert (2 <= population_size self / 2)%Z
      by (apply Z.div_le_lower_bound; lia). lia. }
  specialize (Hfull Hp).
  rewrite Hpop, length_app.
  set (elites := map fst (slice_to (sorted_reverse snd scores) (elite_size self))) in *.
  assert (He : length elites <= Z.to_nat (elite_size self)).
  { unfold elites. rewrite length_map, length_slice_to by lia. lia. }
  rewrite length_slice_to by lia. lia.
Qed.

Lemma next_population_is_full_witness :
  exists best self' w',
    @evolve_generation plain_host (small_engine 0.5 0.5) ∅ (small_world [(1, 3); (2, 4)])
      = inr (best, self', w') /\
    Z.of_nat (length (population self')) = population_size (small_engine 0.5 0.5).
Proof.
  eexists _, _, _.
  assert (Hrun : @evolve_generation plain_host (small_engine 0.5 0.5) ∅
                   (small_world [(1, 3); (2, 4)]) = inr (_, _, _))
    by (vm_compute; reflexivity).
  split; [ exact Hrun | ].
  apply (@next_population_is_full plain_host _ _ _ _ _ _ Hrun); simpl; lia.
Defined.

(** X3. When [population_size < 4] the breeding pool has fewer than two
    members, no offspring is produced, and a completed step installs the
    elite alone: rank the chromosomes of the population by the fitness the
    step evaluated for them, descending; the installed population is the
    first [elite_size] chromosomes of that ranking (all of them when there
    are fewer). *)
Theorem small_population_keeps_elite_only `{Host} self batch w best self' w' :
  evolve_generation self batch w = inr (best, self', w') ->
  (population_size self < 4)%Z ->
  (0 <= elite_size self)%Z ->
  exists ranked : list (loc * Q),
    map fst ranked ≡ₚ population self /\
    StronglySorted (fun a b => (b.2 <= a.2)%Q) ranked /\
    (forall l f, (l, f) ∈ ranked ->
       exists c, heap w !! l = Some c /\
                 f = evaluated_fitness (self_fitness_weights self) batch c) /\
    population self' = take (Z.to_nat (elite_size self)) (map fst ranked) /\
    length (population self') = Nat.min (Z.to_nat (elite_size self)) (length (population self)).
Proof.
  intros Hrun Hsize Helite.
  apply evolve_generation_steps in Hrun
    as (scores & w1 & first & final & pool & w2 & offspring & w3 & u & Hsteps).
  cbv zeta in Hsteps.
  destruct Hsteps as (Heval & _ & _ & Hpool & Hbreed & _ & _ & Hpop & _).
  destruct (evaluate_spec _ _ (heap w) _ _ _ _ (reevaluated_refl _ _ _) Heval)
    as (_ & _ & _ & Hall).
  apply tournament_rounds_length in Hpool.
  apply breed_fills in Hbreed as [_ Hnone].
  assert (Hp : length pool < 2).
  { rewrite Hpool. assert (population_size self / 2 < 2)%Z
      by (apply Z.div_lt_upper_bound; lia). lia. }
  specialize (Hnone Hp). subst offspring.
  assert (Hperm : map fst (sorted_reverse snd scores) ≡ₚ population self).
  { change (map fst (sorted_reverse snd scores)) with (fst <$> sorted_reverse snd scores).
    rewrite sorted_reverse_Permutation. now rewrite (scores_fst _ _ _ Hall). }
  assert (Heq : population self'
                = take (Z.to_nat (elite_size self)) (map fst (sorted_reverse snd scores))).
  { rewrite Hpop. unfold slice_to at 2.
    destruct (0 <=? _)%Z; rewrite take_nil, app_nil_r; unfold slice_to;
      (destruct (0 <=? elite_size self)%Z eqn:E; [ | apply Z.leb_gt in E; lia ]);
      change (map fst ?l) with (fst <$> l); now rewrite fmap_take. }
  exists (sorted_reverse snd scores). split; [ exact Hperm | ].
  split; [ apply sorted_reverse_sorted | ]. split.
  { intros l f Hin. rewrite sorted_reverse_Permutation in Hin.
    apply list_elem_of_lookup in Hin as [j Hj].
    destruct (Forall2_lookup_r _ _ _ _ _ Hall Hj) as (l' & _ & Hl' & c & Hc & Hf & _).
    cbn [fst snd] in *. subst l'. exists c. split; [ exact Hc | exact Hf ]. }
  split; [ exact Heq | ].
  rewrite Heq, length_take, (Permutation_length Hperm). reflexivity.
Qed.


Lemma small_population_keeps_elite_only_witness :
  exists best self' w' (ranked : list (loc * Q)),
    @evolve_generation plain_host tiny_engine {[ "gen0_chr1" := engaged_stats ]}
      (small_world varied_source) = inr (best, self', w') /\
    map fst ranked ≡ₚ population tiny_engine /\
    StronglySorted (fun a b => (b.2 <= a.2)%Q) ranked /\
    (forall l f, (l, f) ∈ ranked ->
       exists c, heap (small_world varied_source) !! l = Some c /\
                 f = @evaluated_fitness plain_host (self_fitness_weights tiny_engine)
                       {[ "gen0_chr1" := engaged_stats ]} c) /\
    population self' = take (Z.to_nat (elite_size tiny_engine)) (map fst ranked) /\
    length (population self')
      = Nat.min (Z.to_nat (elite_size tiny_engine)) (length (population tiny_engine)).
Proof.
  eexists _, _, _.
  assert (Hrun : @evolve_generation plain_host tiny_engine {[ "gen0_chr1" := engaged_stats ]}
                   (small_world varied_source) = inr (_, _, _))
    by (vm_compute; reflexivity).
  destruct (@small_population_keeps_elite_only plain_host _ _ _ _ _ _ Hrun)
    as (ranked & Hranked); [ simpl; lia | simpl; lia | ].
  exists ranked. split; [ exact Hrun | exact Hranked ].
Defined.

(** ** Failure of a generation step *)

Lemma evaluate_length `{Host} weights batch pop : forall w scores w1,
  evaluate weights batch pop w = inr (scores, w1) -> length scores = length pop.
Proof.
  induction pop as [|l rest IH]; intros w scores w1 Hrun; simpl in Hrun.
  - now injection Hrun as <- <-.
  - run_steps Hrun. injection Hrun as <- <-. simpl. f_equal. eapply IH, Hstep1.
Qed.

(** X4. A generation step on an empty population raises [IndexError] (the
    ranking has no first member); on a population of one or two stored
    chromosomes with [population_size >= 2] it raises [ValueError] (a
    tournament of three cannot be sampled). *)
Theorem evolve_generation_needs_three `{Host} self batch w :
  (population self = [] -> evolve_generation self batch w = inl IndexError) /\
  (population self <> [] -> length (population self) < 3 ->
   valid_refs w (population self) -> (2 <= population_size self)%Z ->
   evolve_generation self batch w = inl ValueError).
Proof.
  split.
  - intros Hempty. unfold evolve_generation. rewrite Hempty. reflexivity.
  - intros Hne Hfew Hvalid Hsize. unfold evolve_generation.
    destruct (evaluate_total (self_fitness_weights self) batch _ w Hvalid)
      as (scores & w1 & Heval & _).
    rewrite (bindM_step _ _ _ _ _ Heval). cbv zeta.
    pose proof (evaluate_length _ _ _ _ _ _ Heval) as Hlen.
    pose proof (Permutation_length (sorted_reverse_Permutation snd scores)) as Hperm.
    destruct (sorted_reverse snd scores) as [|first ranked] eqn:E.
    { destruct (population self); [ contradiction | simpl in *; lia ]. }
    cbn [head]. destruct (last (first :: ranked)) as [final|] eqn:Elast;
      [ | apply last_None in Elast; discriminate ].
    unfold bindM at 1.
    rewrite tournament_selection_needs_three; [ reflexivity | lia | ].
    apply Z.div_str_pos. lia.
Qed.

Lemma evolve_generation_needs_three_witness :
  @evolve_generation plain_host empty_engine ∅ (small_world []) = inl IndexError /\
  @evolve_generation plain_host pair_engine ∅ (small_world []) = inl ValueError.
Proof.
  split.
  - apply (proj1 (@evolve_generation_needs_three plain_host empty_engine ∅ (small_world []))).
    reflexivity.
  - apply (proj2 (@evolve_generation_needs_three plain_host pair_engine ∅ (small_world []))).
    + discriminate.
    + simpl. lia.
    + repeat constructor.
    + simpl. lia.
Defined.


(** ** Objects of the next population *)

Lemma liftR_inr {A} (c : Rand A) w a w' :
  liftR c w = inr (a, w') -> heap w' = heap w.
Proof. rewrite liftR_eq. now intros [= _ <-]. Qed.

Lemma random_choice_inr {A} (l : list A) w x w' :
  random_choice l w = inr (x, w') -> heap w' = heap w /\ x ∈ l.
Proof.
  unfold random_choice. intros Hrun. run_steps Hrun. apply liftR_inr in Hstep.
  destruct (l !! a) eqn:E; [ | discriminate Hrun ].
  injection Hrun as <- <-. split; [ exact Hstep | apply list_elem_of_lookup; eauto ].
Qed.

Lemma alloc_inr c w l w' :
  alloc c w = inr (l, w') -> l = length (heap w) /\ heap w' = heap w ++ [c].
Proof. now intros [= <- <-]. Qed.

Lemma deepcopy_inr l w l' w' :
  deepcopy l w = inr (l', w') ->
  exists c, heap w !! l = Some c /\ l' = length (heap w) /\ heap w' = heap w ++ [c].
Proof.
  unfold deepcopy. intros Hrun. run_steps Hrun.
  apply read_inr in Hstep as [Hl ->]. apply alloc_inr in Hrun as [-> ->]. eauto.
Qed.

Ltac heap_facts :=
  repeat match goal with
    | H : read _ _ = inr _ |- _ => apply read_inr in H as [? ->]
    | H : liftR _ _ = inr _ |- _ => apply liftR_inr in H
    | H : alloc _ _ = inr _ |- _ => apply alloc_inr in H as [-> ?]
    | H : deepcopy _ _ = inr _ |- _ => apply deepcopy_inr in H as (? & ? & -> & ?)
    | H : random_choice _ _ = inr _ |- _ => apply random_choice_inr in H as [? ?]
    end;
  repeat match goal with
    | H : heap ?x = _ |- _ => try rewrite H in *; clear H
    end.

(** The offspring are exactly the objects allocated while breeding. *)
Lemma breed_allocates_offspring fuel self new_population breeding_pool :
  forall offspring w offspring' w',
  breed fuel self new_population breeding_pool offspring w = inr (offspring', w') ->
  length (heap w) <= length (heap w') /\
  offspring' = offspring ++ seq (length (heap w)) (length (heap w') - length (heap w)).
Proof.
  induction fuel as [|fuel IH]; intros offspring w offspring' w' Hrun; cbn [breed] in Hrun.
  - destruct (_ <? _)%Z; [ destruct (length breeding_pool <? 2); [ | discriminate Hrun ] | ];
      injection Hrun as <- <-; rewrite Nat.sub_diag, app_nil_r; auto.
  - destruct (_ <? _)%Z;
      [ | injection Hrun as <- <-; rewrite Nat.sub_diag, app_nil_r; auto ].
    destruct (length breeding_pool <? 2);
      [ injection Hrun as <- <-; rewrite Nat.sub_diag, app_nil_r; auto | ].
    run_steps Hrun.
    destruct (Qltb _ _); run_steps Hrun; apply IH in Hrun as [Hle ->]; heap_facts;
      rewrite !length_app in *; simpl in *;
      (split; [ lia | ]); rewrite <- app_assoc; f_equal;
      match goal with |- _ = seq ?a (?b - ?a) =>
        replace (b - a) with (2 + (b - (a + 1 + 1))) by lia end;
      simpl; repeat f_equal; lia.
Qed.

Lemma slice_to_take {A} (l : list A) k : exists n, slice_to l k = take n l.
Proof. unfold slice_to. destruct (0 <=? k)%Z; eauto. Qed.

Lemma random_sample_inr {A} (population : list A) k w t w' :
  random_sample population k w = inr (t, w') -> heap w' = heap w.
Proof.
  unfold random_sample. destruct (_ <? _); [ discriminate | ].
  intros Hrun. run_steps Hrun. injection Hrun as _ <-. eapply liftR_inr; eassumption.
Qed.

Lemma tournament_rounds_heap sorted_population n : forall w pool w',
  tournament_rounds sorted_population n w = inr (pool, w') -> heap w' = heap w.
Proof.
  induction n as [|n IH]; intros w pool w' Hrun; simpl in Hrun.
  - now injection Hrun as _ <-.
  - run_steps Hrun.
    match goal with H : random_sample _ _ _ = inr _ |- _ => apply random_sample_inr in H end.
    destruct (py_max_key snd _); [ | discriminate Hrun ].
    run_steps Hrun. injection Hrun as _ <-.
    match goal with H : tournament_rounds _ _ _ = inr _ |- _ => apply IH in H end.
    congruence.
Qed.

(** X5. A completed generation step keeps the population well formed: if
    the members of generation N are distinct objects of the store, then so
    are the members of generation N+1 (the elite are old objects, every
    other member is a freshly allocated one). *)
Theorem next_population_is_well_formed `{Host} self batch w best self' w' :
  evolve_generation self batch w = inr (best, self', w') ->
  well_formed w (population self) ->
  well_formed w' (population self').
Proof.
  intros Hrun [Hnodup Hvalid].
  apply evolve_generation_steps in Hrun
    as (scores & w1 & first & final & pool & w2 & offspring & w3 & u & Hsteps).
  cbv zeta in Hsteps.
  destruct Hsteps as (Heval & _ & _ & Hpool & Hbreed & Hmut & _ & Hpop & _).
  destruct (evaluate_spec _ _ (heap w) _ _ _ _ (reevaluated_refl _ _ _) Heval)
    as ([Hlen1 _] & _ & _ & Hall).
  apply tournament_rounds_heap in Hpool.
  apply breed_allocates_offspring in Hbreed as [Hle3 Hoff]. simpl in Hoff.
  apply allocates_mutation_loop in Hmut. apply prefix_length in Hmut.
  assert (Hlen2 : length (heap w2) = length (heap w)) by congruence.
  assert (Hperm : fst <$> sorted_reverse snd scores ≡ₚ population self).
  { rewrite sorted_reverse_Permutation. now rewrite (scores_fst _ _ _ Hall). }
  destruct (slice_to_take (sorted_reverse snd scores) (elite_size self)) as [n Hn].
  destruct (slice_to_take offspring
              (population_size self
               - Z.of_nat (length (map fst (slice_to (sorted_reverse snd scores)
                                                     (elite_size self)))))) as [m Hm].
  rewrite Hpop, Hm, Hn. change (map fst (take n ?l)) with (fst <$> take n l).
  rewrite fmap_take.
  set (ranked := fst <$> sorted_reverse snd scores) in *.
  assert (Hold : forall l, l ∈ take n ranked -> l < length (heap w)).
  { intros l Hl. unfold valid_refs in Hvalid. rewrite Forall_forall in Hvalid.
    apply Hvalid. rewrite <- Hperm. eapply subseteq_take, Hl. }
  assert (Hnew : forall l, l ∈ take m offspring ->
                           length (heap w) <= l < length (heap w3)).
  { intros l Hl. apply subseteq_take in Hl. rewrite Hoff in Hl.
    apply elem_of_seq in Hl. lia. }
  split.
  - apply NoDup_app. repeat split.
    + eapply sublist_NoDup; [ | apply sublist_take ].
      now rewrite Hperm.
    + intros l Hl Hl'. apply Hold in Hl. apply Hnew in Hl'. lia.
    + eapply sublist_NoDup; [ | apply sublist_take ].
      rewrite Hoff. apply NoDup_seq.
  - apply Forall_app. split; apply Forall_forall; intros l Hl.
    + apply Hold in Hl. lia.
    + apply Hnew in Hl. lia.
Qed.

Lemma next_population_is_well_formed_witness :
  exists best self' w',
    @evolve_generation plain_host (small_engine 0.5 0.5) {[ "gen0_chr1" := engaged_stats ]}
      (small_world varied_source) = inr (best, self', w') /\
    well_formed w' (population self').
Proof.
  eexists _, _, _.
  assert (Hrun : @evolve_generation plain_host (small_engine 0.5 0.5)
                   {[ "gen0_chr1" := engaged_stats ]}
                   (small_world varied_source) = inr (_, _, _))
    by (vm_compute; reflexivity).
  split; [ exact Hrun | ].
  apply (@next_population_is_well_formed plain_host _ _ _ _ _ _ Hrun).
  split.
  - apply (bool_decide_unpack (NoDup [0; 1; 2; 3])). reflexivity.
  - repeat constructor.
Defined.


(** ** Bookkeeping *)

Lemma sorted_last {A} (key : A -> Q) (l : list A) final :
  StronglySorted (fun a b => (key b <= key a)%Q) l ->
  last l = Some final -> forall x, x ∈ l -> (key final <= key x)%Q.
Proof.
  induction 1 as [|y l Hsorted IH Hall]; intros Hlast x Hx; [ discriminate | ].
  rewrite Forall_forall in Hall. destruct l as [|z l].
  - injection Hlast as ->. apply list_elem_of_singleton in Hx as ->. lra.
  - assert (Hlast' : last (z :: l) = Some final) by exact Hlast.
    apply elem_of_cons in Hx as [-> | Hx]; [ | now apply IH ].
    apply Hall. apply last_Some_elem_of. exact Hlast'.
Qed.

Lemma sorted_head_last {A} (key : A -> Q) (l : list A) first final :
  StronglySorted (fun a b => (key b <= key a)%Q) l ->
  head l = Some first -> last l = Some final ->
  forall x, x ∈ l -> (key final <= key x <= key first)%Q.
Proof.
  intros Hsorted Hhead Hlast x Hx. split; [ eapply sorted_last; eassumption | ].
  destruct Hsorted as [|y l Hsorted Hall]; [ discriminate | ].
  injection Hhead as ->. rewrite Forall_forall in Hall.
  apply elem_of_cons in Hx as [-> | Hx]; [ lra | now apply Hall ].
Qed.

Lemma evolve_generation_consistent `{Host} self batch w best self' w' :
  evolve_generation self batch w = inr (best, self', w') ->
  history_consistent self -> history_consistent self'.
Proof.
  intros Hrun (Hlen & Hlenb & Hrec).
  apply evolve_generation_steps in Hrun
    as (scores & w1 & first & final & pool & w2 & offspring & w3 & u & Hsteps).
  cbv zeta in Hsteps.
  destruct Hsteps as (Heval & Hhead & Hlast & _ & _ & _ & _ & _ & Hhist & Hbest & Hgen & _).
  unfold history_consistent. rewrite Hhist, Hbest, Hgen, !length_app. simpl.
  split; [ lia | split; [ lia | ] ].
  intros i r Hr.
  destruct (decide (i < length (fitness_history self))) as [Hlt | Hge].
  - rewrite lookup_app_l in Hr by exact Hlt.
    destruct (Hrec i r Hr) as (Hg & Hb & Hs & Hi).
    split; [ exact Hg | ]. split; [ | split; [ exact Hs | ] ].
    + apply lookup_app_l_Some, Hb.
    + destruct i as [|j]; [ exact Hi | ].
      destruct Hi as (previous & Hp & Himp). exists previous.
      split; [ apply lookup_app_l_Some, Hp | exact Himp ].
  - assert (Hi : i = length (fitness_history self)).
    { apply lookup_lt_Some in Hr. rewrite length_app in Hr. simpl in Hr. lia. }
    subst i. rewrite list_lookup_middle in Hr by reflexivity. injection Hr as <-.
    cbn [generation best_chromosome worst_fitness avg_fitness best_fitness improvement].
    assert (Hspread : (final.2 <= first.2)%Q).
    { apply (sorted_head_last snd _ first final (sorted_reverse_sorted snd scores)
               Hhead Hlast first).
      eapply head_Some_elem_of, Hhead. }
    split; [ lia | ]. split; [ | split; [ exact Hspread | ] ].
    + rewrite Hlen, <- Hlenb. apply list_lookup_middle. reflexivity.
    + destruct (length (fitness_history self)) as [|j] eqn:E.
      * apply nil_length_inv in E. now rewrite E.
      * rewrite last_lookup, E. cbn [pred].
        destruct (lookup_lt_is_Some_2 (fitness_history self) j ltac:(lia)) as [p Hp].
        rewrite Hp. exists p. split; [ apply lookup_app_l_Some, Hp | reflexivity ].
Qed.

(** X6. The engine's bookkeeping is an invariant of every sequence of
    completed generation steps: the history holds one record per
    generation, numbered 1, 2, ..., whose [best_chromosome] is the entry
    of [best_chromosome_history] at the same place, with
    [worst_fitness <= best_fitness], and whose
    [improvement] is its [best_fitness] minus that of the record before it
    (0.0 for the first); the generation counter advances by one per step. *)
Theorem history_stays_consistent `{Host} batches : forall self w self' w',
  history_consistent self ->
  evolve_generations self batches w = inr (self', w') ->
  history_consistent self' /\
  self_generation self' = self_generation self + length batches.
Proof.
  induction batches as [|batch batches IH]; intros self w self' w' Hcons Hrun;
    simpl in Hrun.
  - injection Hrun as <- <-. split; [ exact Hcons | simpl; lia ].
  - run_steps Hrun. destruct a as [best self1]. cbn [snd] in Hrun.
    pose proof (evolve_generation_consistent _ _ _ _ _ _ Hstep Hcons) as Hcons1.
    destruct (IH _ _ _ _ Hcons1 Hrun) as [Hcons' Hgen]. split; [ exact Hcons' | ].
    apply evolve_generation_steps in Hstep
      as (? & ? & ? & ? & ? & ? & ? & ? & ? & Hsteps).
    cbv zeta in Hsteps.
    destruct Hsteps as (_ & _ & _ & _ & _ & _ & _ & _ & _ & _ & Hg & _).
    rewrite Hgen, Hg. simpl. lia.
Qed.

Lemma history_stays_consistent_witness :
  exists self' w',
    @evolve_generations plain_host (small_engine 0.5 0.5)
      [ {[ "gen0_chr1" := engaged_stats ]}; ∅; {[ "gen0_chr0" := overrun_stats ]} ]
      (small_world varied_source) = inr (self', w') /\
    history_consistent self' /\
    self_generation self' = self_generation (small_engine 0.5 0.5) + 3.
Proof.
  eexists _, _.
  assert (Hrun : @evolve_generations plain_host (small_engine 0.5 0.5)
            [ {[ "gen0_chr1" := engaged_stats ]}; ∅; {[ "gen0_chr0" := overrun_stats ]} ]
            (small_world varied_source) = inr (_, _))
    by (vm_compute; reflexivity).
  split; [ exact Hrun | ].
  apply (@history_stays_consistent plain_host _ _ _ _ _) with (2 := Hrun).
  split; [ reflexivity | split; [ reflexivity | intros [|k] rec Hk; discriminate Hk ] ].
Defined.


(** ** Statistics *)

(** X7. [get_evolution_stats] never raises, whatever the history. With an
    empty history it returns zeros and no ['total_generations'] key.
    Otherwise it reports the latest record and the number of records; the
    improvement rate is 0.0 when there is a single record or the first best
    fitness is not positive (the guard against a division by zero), and
    [(latest - first) / first * 100] otherwise. *)
Theorem get_evolution_stats_never_raises self :
  exists s,
    get_evolution_stats self = inr s /\
    match fitness_history self with
    | [] =>
        s = {| stats_generation := 0; stats_best_fitness := 0.0; stats_avg_fitness := 0.0;
               improvement_rate := 0.0; total_generations := None |}
    | first :: _ =>
        exists latest,
          last (fitness_history self) = Some latest /\
          stats_generation s = generation latest /\
          stats_best_fitness s = best_fitness latest /\
          stats_avg_fitness s = avg_fitness latest /\
          total_generations s = Some (length (fitness_history self)) /\
          (length (fitness_history self) <= 1 \/ (best_fitness first <= 0)%Q ->
           improvement_rate s = 0.0%Q) /\
          (1 < length (fitness_history self) -> (0 < best_fitness first)%Q ->
           improvement_rate s
           = ((best_fitness latest - best_fitness first) / best_fitness first * 100)%Q)
    end.
Proof.
  unfold get_evolution_stats.
  destruct (fitness_history self) as [|first rest] eqn:Ehist.
  - eexists. split; reflexivity.
  - destruct (last (first :: rest)) as [latest|] eqn:Elast;
      [ | apply last_None in Elast; discriminate ].
    cbn [head].
    destruct (1 <? length (first :: rest)) eqn:Elen.
    + apply Nat.ltb_lt in Elen.
      destruct (Qltb 0 (best_fitness first)) eqn:Epos.
      * apply Qltb_lt in Epos. rewrite py_div_pos by exact Epos.
        eexists. split; [ reflexivity | ]. exists latest. cbn.
        repeat split; try reflexivity.
        intros [Hle | Hle]; [ simpl in *; lia | lra ].
      * apply Qltb_ge in Epos.
        eexists. split; [ reflexivity | ]. exists latest. cbn.
        repeat split; try reflexivity. intros _ Hpos. lra.
    + apply Nat.ltb_ge in Elen.
      eexists. split; [ reflexivity | ]. exists latest. cbn.
      repeat split; try reflexivity. intros Hlt. simpl in *. lia.
Qed.

Lemma get_evolution_stats_latest self :
  fitness_history self <> [] ->
  exists s latest,
    get_evolution_stats self = inr s /\
    last (fitness_history self) = Some latest /\
    stats_generation s = generation latest /\
    total_generations s = Some (length (fitness_history self)).
Proof.
  intros Hne. unfold get_evolution_stats.
  destruct (last (fitness_history self)) as [latest|] eqn:Elast;
    [ | apply last_None in Elast; contradiction ].
  destruct (1 <? length (fitness_history self)).
  - destruct (head (fitness_history self)) as [first|] eqn:Ehead;
      [ | apply head_None in Ehead; contradiction ].
    destruct (Qltb 0 (best_fitness first)) eqn:Epos.
    + apply Qltb_lt in Epos. rewrite py_div_pos by exact Epos.
      eexists _, latest. repeat split.
    + eexists _, latest. repeat split.
  - eexists _, latest. repeat split.
Qed.

(** X8. On an engine whose bookkeeping is consistent and that has evolved
    at least once, [get_evolution_stats] reports the generation counter
    both as ['generation'] and as ['total_generations']. *)
Theorem stats_report_the_generation_counter self :
  history_consistent self -> 0 < self_generation self ->
  exists s,
    get_evolution_stats self = inr s /\
    stats_generation s = self_generation self /\
    total_generations s = Some (self_generation self).
Proof.
  intros (Hlen & _ & Hrec) Hpos.
  assert (Hne : fitness_history self <> []).
  { intros E. rewrite E in Hlen. simpl in Hlen. lia. }
  destruct (get_evolution_stats_latest self Hne) as (s & latest & Hs & Hlast & Hg & Ht).
  exists s. split; [ exact Hs | ].
  rewrite Hg, Ht, Hlen. split; [ | reflexivity ].
  rewrite last_lookup in Hlast.
  destruct (Hrec _ _ Hlast) as [Hgen _]. rewrite Hgen, <- Hlen.
  destruct (fitness_history self); [ contradiction | simpl; lia ].
Qed.

Lemma stats_report_the_generation_counter_witness :
  exists s,
    get_evolution_stats one_generation_engine = inr s /\
    stats_generation s = self_generation one_generation_engine /\
    total_generations s = Some (self_generation one_generation_engine).
Proof.
  apply (stats_report_the_generation_counter one_generation_engine).
  - split; [ reflexivity | split; [ reflexivity | ] ].
    intros [|k] rec Hk; [ | discriminate Hk ]. injection Hk as <-. cbn.
    repeat split; try reflexivity; vm_compute; discriminate.
  - simpl. lia.
Defined.


(** ** Chromosomes without telemetry *)

(** X9. In a completed generation step, a chromosome of the population
    whose id has no entry in the batch (or an empty one) is stored with
    fitness exactly 0.0 and is otherwise unchanged. *)
Theorem unseen_chromosome_scores_zero `{Host} self batch w best self' w' :
  evolve_generation self batch w = inr (best, self', w') ->
  forall l c,
    l ∈ population self -> heap w !! l = Some c ->
    batch !! id c = None \/ batch !! id c = Some ∅ ->
    heap w' !! l = Some (set_fitness 0.0 c).
Proof.
  intros Hrun l c Hin Hc Hbatch.
  apply evolve_generation_inv in Hrun
    as (scores & w1 & first & offspring & record & Heval & _ & Hprefix & _).
  destruct (evaluate_spec _ _ (heap w) _ _ _ _ (reevaluated_refl _ _ _) Heval)
    as (_ & _ & _ & Hall).
  apply list_elem_of_lookup in Hin as [i Hi].
  destruct (Forall2_lookup_l _ _ _ _ _ Hall Hi) as (s & _ & _ & c0 & Hc0 & _ & Hheap).
  rewrite Hc in Hc0. injection Hc0 as <-.
  apply (prefix_lookup _ _ _ _ Hprefix).
  assert (Hzero : evaluated_fitness (self_fitness_weights self) batch c = 0.0%Q).
  { unfold evaluated_fitness. destruct Hbatch as [-> | ->]; apply fitness_function_empty. }
  now rewrite Hzero in Hheap.
Qed.

Lemma unseen_chromosome_scores_zero_witness :
  exists best self' w',
    @evolve_generation plain_host (small_engine 0.5 0.5) {[ "gen0_chr1" := engaged_stats ]}
      (small_world varied_source) = inr (best, self', w') /\
    heap w' !! 2 = Some (set_fitness 0.0 (set_fitness 30
                           (set_honeypot_count 7 (set_id "gen0_chr2" sample_chromosome)))).
Proof.
  eexists _, _, _.
  assert (Hrun : @evolve_generation plain_host (small_engine 0.5 0.5)
                   {[ "gen0_chr1" := engaged_stats ]}
                   (small_world varied_source) = inr (_, _, _))
    by (vm_compute; reflexivity).
  split; [ exact Hrun | ].
  apply (@unseen_chromosome_scores_zero plain_host _ _ _ _ _ _ Hrun 2).
  - right; right; left.
  - reflexivity.
  - left. reflexivity.
Defined.

(** ** Crossover and the genes *)

(** X10. Crossover keeps the copied genes in range: when both parents
    have every bounded gene outside the network and math blocks inside its
    declared range, so have both children (each such gene of a child is
    the value one of the parents has for it; the network and math genes
    are blended and are not covered). *)
Theorem crossover_keeps_copied_gene_ranges self_generation parent1 parent2 g :
  copied_gene_ranges parent1 -> copied_gene_ranges parent2 ->
  copied_gene_ranges (_crossover self_generation parent1 parent2 g).1.1 /\
  copied_gene_ranges (_crossover self_generation parent1 parent2 g).1.2.
Proof.
  intros [] []. unfold _crossover. repeat (rewrite bind_eq; cbv zeta).
  unfold ret. cbn [fst snd].
  repeat match goal with |- context [Qltb ?u 0.5] => destruct (Qltb u 0.5) end;
    split; constructor; cbn; assumption.
Qed.

Lemma crossover_keeps_copied_gene_ranges_witness :
  copied_gene_ranges (_crossover 1 first_parent second_parent varied_source).1.1 /\
  copied_gene_ranges (_crossover 1 first_parent second_parent varied_source).1.2.
Proof.
  apply (crossover_keeps_copied_gene_ranges 1 first_parent second_parent varied_source);
    constructor; cbn; (lia || lra).
Defined.

(** X11. What crossover keeps and what it exchanges. The categorical
    genes [honeypot_types] and [process_types] and the mirage's
    [mutation_rate] and [polymorphism_intensity] stay with the child of
    their own parent; [honeypot_count], the mirage [count], the credential
    block and the file-system block are each either kept or exchanged
    between the two children. *)
Theorem crossover_keeps_or_exchanges self_generation parent1 parent2 g :
  let child1 := (_crossover self_generation parent1 parent2 g).1.1 in
  let child2 := (_crossover self_generation parent1 parent2 g).1.2 in
  (honeypot_types child1 = honeypot_types parent1 /\
   honeypot_types child2 = honeypot_types parent2 /\
   process_types (mirage child1) = process_types (mirage parent1) /\
   process_types (mirage child2) = process_types (mirage parent2) /\
   mutation_rate (mirage child1) = mutation_rate (mirage parent1) /\
   mutation_rate (mirage child2) = mutation_rate (mirage parent2) /\
   polymorphism_intensity (mirage child1) = polymorphism_intensity (mirage parent1) /\
   polymorphism_intensity (mirage child2) = polymorphism_intensity (mirage parent2)) /\
  ((honeypot_count child1, honeypot_count child2)
     = (honeypot_count parent1, honeypot_count parent2) \/
   (honeypot_count child1, honeypot_count child2)
     = (honeypot_count parent2, honeypot_count parent1)) /\
  ((count (mirage child1), count (mirage child2))
     = (count (mirage parent1), count (mirage parent2)) \/
   (count (mirage child1), count (mirage child2))
     = (count (mirage parent2), count (mirage parent1))) /\
  ((credential child1, credential child2) = (credential parent1, credential parent2) \/
   (credential child1, credential child2) = (credential parent2, credential parent1)) /\
  ((filesystem child1, filesystem child2) = (filesystem parent1, filesystem parent2) \/
   (filesystem child1, filesystem child2) = (filesystem parent2, filesystem parent1)).
Proof.
  unfold _crossover. repeat (rewrite bind_eq; cbv zeta). unfold ret. cbn [fst snd].
  repeat match goal with |- context [Qltb ?u 0.5] => destruct (Qltb u 0.5) end;
    cbn; repeat split; try reflexivity; try (now left); now right.
Qed.


(** ** Mutation and the other keys *)

Lemma _mutate_untouched c0 c g :
  untouched_by_mutation c = untouched_by_mutation c0 ->
  untouched_by_mutation (_mutate c g).1 = untouched_by_mutation c0.
Proof.
  set (P := fun m => untouched_by_mutation m = untouched_by_mutation c0).
  intros Hc. change (P (_mutate c g).1). change (P c) in Hc.
  unfold _mutate. revert c g Hc.
  do 9 (intros c g Hc; apply (bind_preserves P);
        [ apply gated_preserves; [ clear c g Hc | exact Hc ] | clear c g Hc ];
        [ intros m g Hm; unfold bind, random_randint, random_uniform, random_random, ret;
          destruct g; cbn [fst snd]; exact Hm | ]).
  intros c g Hc. exact Hc.
Qed.

(** X12. Mutation never alters the categorical genes ([honeypot_types],
    [process_types], [file_types]), the metadata ([id], [fitness],
    [generation_created], [parent_ids]) or the numeric genes it has no
    statement for ([polymorphism_intensity], [fractal_depth],
    [response_delay], [traffic_mimicry], [entropy_target],
    [fractal_complexity]), whatever the number of passes and the source. *)
Theorem mutation_leaves_other_keys n : forall c g,
  untouched_by_mutation (mutation_passes n c g).1 = untouched_by_mutation c.
Proof.
  induction n as [|n IH]; intros c g; simpl; [ reflexivity | ].
  rewrite bind_eq, IH. now apply _mutate_untouched.
Qed.


(** ** Creation *)

Lemma random_uniform_range a b g :
  (a <= b)%Q -> (a <= (random_uniform a b g).1 <= b)%Q.
Proof.
  intros Hab. unfold random_uniform. rewrite bind_eq. cbn [ret fst].
  pose proof (random_random_range g). nra.
Qed.

Lemma lookups_NoDup {A} (l : list A) ps xs :
  NoDup l -> NoDup ps -> Forall2 (fun p x => l !! p = Some x) ps xs -> NoDup xs.
Proof.
  intros Hnd Hndp Hall. induction Hall as [|p x ps xs Hp Hall IH]; [ constructor | ].
  apply NoDup_cons in Hndp as [Hnotin Hndp]. apply NoDup_cons. split; [ | auto ].
  intros Hin. apply list_elem_of_lookup in Hin as [i Hi].
  destruct (Forall2_lookup_r _ _ _ _ _ Hall Hi) as (q & Hq & Hqx).
  assert (q = p) by exact (NoDup_lookup l q p x Hnd Hqx Hp). subst q.
  apply Hnotin, list_elem_of_lookup. eauto.
Qed.

Lemma sampled_members (catalog : list string) k g :
  NoDup catalog -> k <= length catalog ->
  let values := omap (fun p => catalog !! p)
                  (sample_positions (seq 0 (length catalog)) k g).1 in
  NoDup values /\ values ⊆ catalog /\ length values = k.
Proof.
  intros Hnd Hk.
  destruct (sample_positions_spec k (seq 0 (length catalog)) g)
    as (Hlen & Hndp & Hsub); [ apply NoDup_seq | now rewrite length_seq | ].
  set (positions := (sample_positions (seq 0 (length catalog)) k g).1) in *.
  assert (Hall : Forall2 (fun p x => catalog !! p = Some x) positions
                         (omap (fun p => catalog !! p) positions)).
  { apply omap_lookup_positions. intros p Hp. apply Hsub, elem_of_seq in Hp. lia. }
  cbv zeta. generalize dependent (omap (fun p => catalog !! p) positions).
  intros values Hall. repeat split.
  - eapply lookups_NoDup; eassumption.
  - intros x Hx. apply list_elem_of_lookup in Hx as [i Hi].
    destruct (Forall2_lookup_r _ _ _ _ _ Hall Hi) as (q & _ & Hqx).
    apply list_elem_of_lookup. eauto.
  - rewrite <- Hlen. symmetry. eapply Forall2_length, Hall.
Qed.

Lemma sampled_between (catalog : list string) lo hi g g' :
  NoDup catalog -> (0 <= lo <= hi)%Z -> (hi <= Z.of_nat (length catalog))%Z ->
  sampled_from catalog (Z.to_nat lo) (Z.to_nat hi)
    (omap (fun p => catalog !! p)
       (sample_positions (seq 0 (length catalog))
          (Z.to_nat (random_randint lo hi g).1) g').1).
Proof.
  intros Hnd Hlo Hhi.
  pose proof (random_randint_range lo hi g ltac:(lia)) as Hk.
  destruct (sampled_members catalog (Z.to_nat (random_randint lo hi g).1) g' Hnd ltac:(lia))
    as (H1 & H2 & H3).
  split; [ exact H1 | split; [ exact H2 | rewrite H3; lia ] ].
Qed.

Lemma inject_Z_between lo hi z :
  (lo <= z <= hi)%Z -> (inject_Z lo <= inject_Z z <= inject_Z hi)%Q.
Proof. intros [H1 H2]. split; now rewrite <- Zle_Qle. Qed.

Lemma _create_random_chromosome_spec self_generation w :
  exists chrom g,
    _create_random_chromosome self_generation w
      = inr (chrom, {| heap := heap w; source := g |}) /\
    freshly_created self_generation chrom /\ id chrom = "".
Proof.
  unfold _create_random_chromosome.
  repeat first
    [ rewrite bindM_liftR; cbn [heap source]
    | rewrite bindM_random_sample by (apply randint_to_nat_le; simpl; lia);
      cbn [heap source] ].
  eexists _, _. split; [ reflexivity | ].
  split; [ | reflexivity ].
  split; [ | split; [ | split; [ | split; [ | repeat split ] ] ] ].
  - constructor; cbn;
      first [ apply random_randint_range; lia
            | apply random_uniform_range; lra
            | apply (inject_Z_between 3 10), random_randint_range; lia ].
  - apply (sampled_between honeypot_catalog 3 6);
      [ apply (bool_decide_unpack (NoDup honeypot_catalog)); reflexivity | lia | simpl; lia ].
  - apply (sampled_between process_catalog 4 8);
      [ apply (bool_decide_unpack (NoDup process_catalog)); reflexivity | lia | simpl; lia ].
  - apply (sampled_between file_catalog 3 6);
      [ apply (bool_decide_unpack (NoDup file_catalog)); reflexivity | lia | simpl; lia ].
Qed.

(** X13. [_create_random_chromosome] always returns, allocates nothing,
    and yields a chromosome with every bounded numeric gene inside its
    declared range, each categorical gene a list of distinct catalogue
    members of the declared length (3 to 6 honeypot types, 4 to 8 process
    types, 3 to 6 file types), fitness 0.0, no parents, and the given
    generation. *)
Theorem created_chromosome_is_in_range self_generation w :
  exists chrom w',
    _create_random_chromosome self_generation w = inr (chrom, w') /\
    heap w' = heap w /\
    freshly_created self_generation chrom.
Proof.
  destruct (_create_random_chromosome_spec self_generation w) as (chrom & g & Hrun & Hc & _).
  eexists chrom, _. split; [ exact Hrun | ]. split; [ reflexivity | exact Hc ].
Qed.


Lemma freshly_created_set_id self_generation v c :
  freshly_created self_generation c -> freshly_created self_generation (set_id v c).
Proof.
  intros ([] & Hrest). split; [ constructor; assumption | exact Hrest ].
Qed.

Lemma initialize_from_spec self_generation n : forall i w,
  exists w',
    initialize_from self_generation i n w = inr (seq (length (heap w)) n, w') /\
    length (heap w') = length (heap w) + n /\
    heap w `prefix_of` heap w' /\
    forall j, j < n ->
      exists c, heap w' !! (length (heap w) + j) = Some c /\
                id c = "gen0_chr" +:+ pretty (i + j) /\
                freshly_created self_generation c.
Proof.
  induction n as [|n IH]; intros i w; simpl.
  - exists w. repeat split; [ lia | reflexivity | intros j Hj; lia ].
  - destruct (_create_random_chromosome_spec self_generation w) as (chrom & g & Hc & Hfresh & _).
    rewrite (bindM_step _ _ _ _ _ Hc), bindM_alloc. cbv beta. cbn [heap source].
    match goal with |- context [bindM (initialize_from _ _ n) _ ?w1] =>
      destruct (IH (S i) w1) as (w' & Hrun & Hlen & Hprefix & Hobj) end.
    cbn [heap] in *. rewrite length_app in *. simpl in *.
    rewrite (bindM_step _ _ _ _ _ Hrun).
    exists w'. split; [ | split; [ lia | split ] ].
    + unfold pureM. repeat f_equal. lia.
    + etrans; [ | exact Hprefix ]. now apply prefix_app_r.
    + intros [|j] Hj.
      * exists (set_id ("gen0_chr" +:+ pretty i) chrom). rewrite !Nat.add_0_r.
        split; [ | split; [ reflexivity | now apply freshly_created_set_id ] ].
        eapply prefix_lookup; [ exact Hprefix | ]. apply list_lookup_middle. reflexivity.
      * destruct (Hobj j ltac:(lia)) as (c & Hl & Hid & Hf). exists c.
        replace (length (heap w) + S j) with (length (heap w) + 1 + j) by lia.
        replace (i + S j) with (S i + j) by lia. auto.
Qed.

(** X14. Construction, for every configuration and store: it allocates
    [population_size] new chromosomes (none when that is not positive) and
    leaves the existing objects alone; the population refers to them in
    order and is well formed; the i-th has id [gen0_chr<i>], so the ids
    are pairwise distinct; and each one is freshly created for generation
    0 (genes in range, fitness 0.0, no parents). *)
Theorem construction_populates config w :
  exists self w',
    __init__ config w = inr (self, w') /\
    heap w `prefix_of` heap w' /\
    population self = seq (length (heap w)) (Z.to_nat (cfg_population_size config)) /\
    well_formed w' (population self) /\
    (forall i l, population self !! i = Some l ->
       exists c, heap w' !! l = Some c /\ id c = "gen0_chr" +:+ pretty i /\
                 freshly_created 0 c) /\
    (forall i j l l' c c',
       population self !! i = Some l -> population self !! j = Some l' ->
       heap w' !! l = Some c -> heap w' !! l' = Some c' -> id c = id c' -> i = j).
Proof.
  unfold __init__, _initialize_population.
  set (n := Z.to_nat (cfg_population_size config)).
  destruct (initialize_from_spec 0 n 0 w) as (w' & Hrun & Hlen & Hprefix & Hobj).
  rewrite (bindM_step _ _ _ _ _ Hrun).
  eexists _, w'. split; [ reflexivity | ]. cbn [population].
  assert (Hmember : forall i l, seq (length (heap w)) n !! i = Some l ->
            exists c, heap w' !! l = Some c /\ id c = "gen0_chr" +:+ pretty i /\
                      freshly_created 0 c).
  { intros i l Hl. apply lookup_seq in Hl as [-> Hi].
    destruct (Hobj i Hi) as (c & Hc & Hid & Hf). exists c. auto. }
  split; [ exact Hprefix | split; [ reflexivity | split; [ | split ] ] ].
  - split; [ apply NoDup_seq | ]. apply Forall_forall. intros l Hl.
    apply elem_of_seq in Hl. lia.
  - exact Hmember.
  - intros i j l l' c c' Hi Hj Hc Hc' Hid.
    destruct (Hmember i l Hi) as (d & Hd & Hdi & _).
    destruct (Hmember j l' Hj) as (d' & Hd' & Hdj & _).
    rewrite Hc in Hd. injection Hd as <-. rewrite Hc' in Hd'. injection Hd' as <-.
    rewrite Hdi, Hdj in Hid. cbn in Hid. injection Hid as Hid.
    now apply pretty_nat_inj in Hid.
Qed.

(** ** Genes of every generation *)

Lemma population_satisfies_grow P w w' pop :
  heap w `prefix_of` heap w' -> population_satisfies P w pop -> population_satisfies P w' pop.
Proof.
  intros Hp Hpop. eapply Forall_impl; [ exact Hpop | ].
  intros l (c & Hc & HP). exists c. split; [ eapply prefix_lookup; eassumption | exact HP ].
Qed.

Lemma population_satisfies_lookup P w pop l c :
  population_satisfies P w pop -> l ∈ pop -> heap w !! l = Some c -> P c.
Proof.
  intros Hpop Hin Hl. unfold population_satisfies in Hpop. rewrite Forall_forall in Hpop.
  destruct (Hpop l Hin) as (c' & Hc' & HP). congruence.
Qed.

Lemma two_allocations_satisfy P w w' offspring pool c1 c2 :
  heap w' = (heap w ++ [c1]) ++ [c2] -> P c1 -> P c2 ->
  population_satisfies P w pool -> population_satisfies P w offspring ->
  population_satisfies P w' pool /\
  population_satisfies P w' (offspring ++ [length (heap w); length (heap w ++ [c1])]).
Proof.
  intros Hheap Hc1 Hc2 Hpool Hoff.
  assert (Hprefix : heap w `prefix_of` heap w').
  { rewrite Hheap, <- app_assoc. now apply prefix_app_r. }
  split; [ eapply population_satisfies_grow; eassumption | ].
  apply Forall_app. split; [ eapply population_satisfies_grow; eassumption | ].
  rewrite Hheap. constructor; [ | constructor; [ | constructor ] ].
  - exists c1. split; [ | exact Hc1 ].
    apply lookup_app_l_Some, list_lookup_middle. reflexivity.
  - exists c2. split; [ | exact Hc2 ]. apply list_lookup_middle. reflexivity.
Qed.

Lemma breed_offspring_satisfy (P : chromosome -> Prop) fuel self new_population pool :
  (forall gen p1 p2 g, P p1 -> P p2 ->
     P (_crossover gen p1 p2 g).1.1 /\ P (_crossover gen p1 p2 g).1.2) ->
  forall offspring w offspring' w',
    breed fuel self new_population pool offspring w = inr (offspring', w') ->
    population_satisfies P w pool -> population_satisfies P w offspring ->
    population_satisfies P w' offspring'.
Proof.
  intros Hcross. induction fuel as [|fuel IH];
    intros offspring w offspring' w' Hrun Hpool Hoff; cbn [breed] in Hrun.
  - destruct (_ <? _)%Z; [ destruct (length pool <? 2); [ | discriminate Hrun ] | ];
      injection Hrun as <- <-; exact Hoff.
  - destruct (_ <? _)%Z; [ | injection Hrun as <- <-; exact Hoff ].
    destruct (length pool <? 2); [ injection Hrun as <- <-; exact Hoff | ].
    run_steps Hrun.
    apply random_choice_inr in Hstep as [Hh0 Hin1].
    apply random_choice_inr in Hstep0 as [Hh1 Hin2].
    apply liftR_inr in Hstep1.
    assert (Hh2 : heap w2 = heap w) by congruence.
    destruct (Qltb _ _); run_steps Hrun.
    + apply read_inr in Hstep as [Hr1 ->]. apply read_inr in Hstep0 as [Hr2 ->].
      rewrite liftR_eq in Hstep2. injection Hstep2 as <- <-.
      apply alloc_inr in Hstep3 as [-> Hh6]. apply alloc_inr in Hstep4 as [-> Hh7].
      cbn [heap] in *. rewrite Hh2 in Hr1, Hr2.
      pose proof (population_satisfies_lookup P w pool _ _ Hpool Hin1 Hr1) as Hp1.
      pose proof (population_satisfies_lookup P w pool _ _ Hpool Hin2 Hr2) as Hp2.
      destruct (Hcross (self_generation self) a2 a3 (source w2) Hp1 Hp2) as [Hc1 Hc2].
      rewrite Hh6, Hh2 in Hh7. rewrite Hh6, Hh2 in Hrun.
      destruct (two_allocations_satisfy P w w7 offspring pool _ _ Hh7 Hc1 Hc2 Hpool Hoff)
        as [Hpool' Hoff'].
      eapply IH; eassumption.
    + apply deepcopy_inr in Hstep as (c1 & Hr1 & -> & Hh6).
      apply deepcopy_inr in Hstep0 as (c2 & Hr2 & -> & Hh7).
      rewrite Hh2 in Hr1, Hh6. rewrite Hh6 in Hr2, Hh7.
      pose proof (population_satisfies_lookup P w pool _ _ Hpool Hin1 Hr1) as Hp1.
      assert (Hr2' : heap w !! a0 = Some c2).
      { unfold population_satisfies in Hpool. rewrite Forall_forall in Hpool.
        destruct (Hpool a0 Hin2) as (c & Hc & _).
        rewrite (lookup_app_l_Some _ _ _ _ Hc) in Hr2. congruence. }
      pose proof (population_satisfies_lookup P w pool _ _ Hpool Hin2 Hr2') as Hp2.
      rewrite Hh6, Hh2 in Hrun.
      destruct (two_allocations_satisfy P w w4 offspring pool _ _ Hh7 Hp1 Hp2 Hpool Hoff)
        as [Hpool' Hoff'].
      eapply IH; eassumption.
Qed.


(** ** The ranges of the copied genes along the generations *)

Lemma copied_gene_ranges_set_fitness v c :
  copied_gene_ranges c -> copied_gene_ranges (set_fitness v c).
Proof. intros []. constructor; assumption. Qed.

Lemma _crossover_copied_gene_ranges self_generation parent1 parent2 g :
  copied_gene_ranges parent1 -> copied_gene_ranges parent2 ->
  copied_gene_ranges (_crossover self_generation parent1 parent2 g).1.1 /\
  copied_gene_ranges (_crossover self_generation parent1 parent2 g).1.2.
Proof.
  intros [] []. unfold _crossover. repeat (rewrite bind_eq; cbv zeta).
  unfold ret. cbn [fst snd].
  repeat match goal with |- context [Qltb ?u 0.5] => destruct (Qltb u 0.5) end;
    split; constructor; cbn; assumption.
Qed.

Lemma random_sample_members {A} (population : list A) k w t w' :
  random_sample population k w = inr (t, w') -> t ⊆ population.
Proof.
  intros Hrun. destruct (decide (k <= length population)) as [Hk | Hk].
  - destruct (random_sample_spec population k w Hk) as (t' & w1 & ps & Hs & _ & _ & _ & Hall).
    rewrite Hs in Hrun. injection Hrun as <- <-.
    intros x Hx. apply list_elem_of_lookup in Hx as [i Hi].
    destruct (Forall2_lookup_r _ _ _ _ _ Hall Hi) as (p & _ & Hp).
    eapply list_elem_of_lookup_2, Hp.
  - rewrite random_sample_too_few in Hrun by lia. discriminate Hrun.
Qed.

Lemma tournament_rounds_members sorted_population n : forall w pool w',
  tournament_rounds sorted_population n w = inr (pool, w') ->
  pool ⊆ fst <$> sorted_population.
Proof.
  induction n as [|n IH]; intros w pool w' Hrun; simpl in Hrun.
  - injection Hrun as <- _. intros x Hx. inversion Hx.
  - run_steps Hrun.
    match goal with H : random_sample _ _ _ = inr _ |- _ =>
      apply random_sample_members in H; rename H into Hsub end.
    destruct (py_max_key snd a) as [best|] eqn:Hbest; [ | discriminate Hrun ].
    run_steps Hrun. injection Hrun as <- _.
    match goal with H : tournament_rounds _ _ _ = inr _ |- _ => apply IH in H; rename H into Hrest end.
    assert (Hin : best ∈ a).
    { destruct a as [|x a]; [ discriminate Hbest | ].
      destruct (py_max_key_spec snd (x :: a) ltac:(discriminate)) as (b & Hb & Hin & _).
      congruence. }
    intros l Hl. apply elem_of_cons in Hl as [-> | Hl]; [ | now apply Hrest ].
    apply list_elem_of_fmap. exists best. split; [ reflexivity | now apply Hsub ].
Qed.

Lemma next_population_satisfies `{Host} (P : chromosome -> Prop) self batch w best self' w' :
  evolve_generation self batch w = inr (best, self', w') ->
  (forall gen p1 p2 g, P p1 -> P p2 ->
     P (_crossover gen p1 p2 g).1.1 /\ P (_crossover gen p1 p2 g).1.2) ->
  (forall l c, l ∈ population self -> heap w !! l = Some c ->
     P (set_fitness (evaluated_fitness (self_fitness_weights self) batch c) c)) ->
  population_satisfies P w' (population self').
Proof.
  intros Hrun Hcross Hinv.
  apply evolve_generation_steps in Hrun
    as (scores & w1 & first & final & pool & w2 & offspring & w3 & u & Hsteps).
  cbv zeta in Hsteps.
  destruct Hsteps as (Heval & _ & _ & Hpool & Hbreed & Hmut & _ & Hpop & _).
  destruct (evaluate_spec _ _ (heap w) _ _ _ _ (reevaluated_refl _ _ _) Heval)
    as (_ & _ & _ & Hall).
  assert (Hperm : fst <$> sorted_reverse snd scores ≡ₚ population self).
  { rewrite sorted_reverse_Permutation. now rewrite (scores_fst _ _ _ Hall). }
  assert (Hranked : population_satisfies P w1 (fst <$> sorted_reverse snd scores)).
  { unfold population_satisfies. rewrite Hperm. apply Forall_forall. intros l Hl.
    apply list_elem_of_lookup in Hl as [i Hi].
    destruct (Forall2_lookup_l _ _ _ _ _ Hall Hi) as (s & _ & _ & c & Hc & _ & Hc1).
    exists (set_fitness (evaluated_fitness (self_fitness_weights self) batch c) c).
    split; [ exact Hc1 | ]. apply (Hinv l); [ | exact Hc ].
    eapply list_elem_of_lookup_2, Hi. }
  pose proof (tournament_rounds_members _ _ _ _ _ Hpool) as Hsub.
  apply tournament_rounds_heap in Hpool.
  assert (Hpool2 : population_satisfies P w2 pool).
  { unfold population_satisfies in *. rewrite Forall_forall in *.
    intros l Hl. rewrite Hpool. apply Hranked, Hsub, Hl. }
  assert (Hgrow2 : heap w2 `prefix_of` heap w3) by (eapply allocates_breed, Hbreed).
  assert (Hgrow3 : heap w3 `prefix_of` heap w') by (eapply allocates_mutation_loop, Hmut).
  eapply (breed_offspring_satisfy P) in Hbreed;
    [ | exact Hcross | exact Hpool2 | constructor ].
  destruct (slice_to_take (sorted_reverse snd scores) (elite_size self)) as [n Hn].
  destruct (slice_to_take offspring
              (population_size self
               - Z.of_nat (length (map fst (slice_to (sorted_reverse snd scores)
                                                     (elite_size self)))))) as [m Hm].
  rewrite Hpop, Hm, Hn. change (map fst (take n ?l)) with (fst <$> take n l).
  rewrite fmap_take. apply Forall_app. split.
  - apply Forall_take. eapply population_satisfies_grow; [ | exact Hranked ].
    rewrite <- Hpool. etrans; eassumption.
  - apply Forall_take. eapply population_satisfies_grow; eassumption.
Qed.

(** X15. The ranges of the copied genes are an invariant of the
    generations: if every member of generation N has each bounded gene
    outside the network and math blocks inside its declared range, so has
    every member of generation N+1 that a completed step installs (the
    elite keep their genes, the offspring are crossover children or copies
    of pool members, and the mutation step changes no stored chromosome). *)
Theorem next_population_keeps_copied_gene_ranges `{Host} self batch w best self' w' :
  evolve_generation self batch w = inr (best, self', w') ->
  population_satisfies copied_gene_ranges w (population self) ->
  population_satisfies copied_gene_ranges w' (population self').
Proof.
  intros Hrun Hinv.
  eapply next_population_satisfies; [ exact Hrun | | ].
  - intros gen p1 p2 g. apply _crossover_copied_gene_ranges.
  - intros l c Hl Hc. apply copied_gene_ranges_set_fitness.
    eapply population_satisfies_lookup; eassumption.
Qed.

Lemma next_population_keeps_copied_gene_ranges_witness :
  exists best self' w',
    @evolve_generation plain_host (small_engine 0.5 0.5) {[ "gen0_chr1" := engaged_stats ]}
      (small_world varied_source) = inr (best, self', w') /\
    population_satisfies copied_gene_ranges w' (population self').
Proof.
  eexists _, _, _.
  assert (Hrun : @evolve_generation plain_host (small_engine 0.5 0.5)
                   {[ "gen0_chr1" := engaged_stats ]}
                   (small_world varied_source) = inr (_, _, _))
    by (vm_compute; reflexivity).
  split; [ exact Hrun | ].
  apply (@next_population_keeps_copied_gene_ranges plain_host _ _ _ _ _ _ Hrun).
  repeat constructor; eexists; (split; [ reflexivity | ]); constructor; cbn; (lia || lra).
Defined.


(** * Properties of the metrics tracker *)

(** ** Detection accuracy *)

Lemma py_div_nonzero a b : ~ (b == 0)%Q -> py_div a b = inr (a / b)%Q.
Proof.
  intros Hb. unfold py_div. destruct (Qeq_bool b 0) eqn:E; [ | reflexivity ].
  apply Qeq_bool_eq in E. contradiction.
Qed.

Lemma inject_Z_pos z : (0 < z)%Z -> (0 < inject_Z z)%Q.
Proof. intros Hz. change 0%Q with (inject_Z 0). now rewrite <- Zlt_Qlt. Qed.

Lemma inject_Z_nonneg z : (0 <= z)%Z -> (0 <= inject_Z z)%Q.
Proof. intros Hz. change 0%Q with (inject_Z 0). now rewrite <- Zle_Qle. Qed.

Lemma inject_Z_nonzero z : z <> 0%Z -> ~ (inject_Z z == 0)%Q.
Proof. intros Hz E. unfold Qeq in E. simpl in E. lia. Qed.

Lemma ratio_of_part a b :
  (0 <= a)%Z -> (a <= b)%Z -> (0 < b)%Z -> (0 <= inject_Z a / inject_Z b <= 1)%Q.
Proof.
  intros Ha Hab Hb. pose proof (inject_Z_pos b Hb). pose proof (inject_Z_nonneg a Ha).
  assert (inject_Z a <= inject_Z b)%Q by now rewrite <- Zle_Qle.
  split; [ apply Qle_shift_div_l | apply Qle_shift_div_r ]; lra.
Qed.

(** X16. Detection accuracy never divides by zero: for all four integer
    counts, of either sign, the function returns its dictionary (every
    division is guarded by a test of its denominator). *)
Theorem detection_accuracy_never_raises tp fp fn tn :
  exists m, calculate_detection_accuracy tp fp fn tn = inr m.
Proof.
  unfold calculate_detection_accuracy.
  destruct (decide (tp + fp + fn + tn = 0)%Z) as [Hz | Hnz]; [ eauto | ].
  rewrite py_div_nonzero by now apply inject_Z_nonzero.
  destruct (0 <? tp + fp)%Z eqn:E1; destruct (0 <? tp + fn)%Z eqn:E2;
    try apply Z.ltb_lt in E1; try apply Z.ltb_lt in E2;
    repeat (rewrite py_div_pos by now apply inject_Z_pos);
    match goal with
    | |- context [Qltb 0 ?s] =>
        destruct (Qltb 0 s) eqn:E3;
        [ apply Qltb_lt in E3; rewrite py_div_pos by exact E3 | ]; eauto
    end.
Qed.

(** X17. On counts that are not negative, the four rates of the detection
    accuracy all lie between 0 and 1; and without a true positive the
    precision, the recall and the F1 score are all 0. *)
Theorem detection_accuracy_rates tp fp fn tn :
  (0 <= tp)%Z -> (0 <= fp)%Z -> (0 <= fn)%Z -> (0 <= tn)%Z ->
  exists m,
    calculate_detection_accuracy tp fp fn tn = inr m /\
    (0 <= accuracy m <= 1)%Q /\ (0 <= precision m <= 1)%Q /\
    (0 <= recall m <= 1)%Q /\ (0 <= f1_score m <= 1)%Q /\
    (tp = 0%Z -> (precision m == 0)%Q /\ (recall m == 0)%Q /\ (f1_score m == 0)%Q).
Proof.
  intros Htp Hfp Hfn Htn. unfold calculate_detection_accuracy.
  destruct (decide (tp + fp + fn + tn = 0)%Z) as [Hz | Hnz].
  { eexists. split; [ reflexivity | ]. cbn. repeat split; lra. }
  rewrite py_div_pos by (apply inject_Z_pos; lia).
  pose proof (ratio_of_part (tp + tn) (tp + fp + fn + tn) ltac:(lia) ltac:(lia) ltac:(lia))
    as Hacc.
  assert (Hzero : forall d, tp = 0%Z -> (inject_Z tp / d == 0)%Q).
  { intros d ->. unfold Qdiv. apply Qmult_0_l. }
  assert (Hp : exists p, (if (0 <? tp + fp)%Z
                          then py_div (inject_Z tp) (inject_Z (tp + fp))
                          else inr 0.0%Q) = inr p /\ (0 <= p <= 1)%Q /\
                         (tp = 0%Z -> (p == 0)%Q)).
  { destruct (0 <? tp + fp)%Z eqn:E;
      [ apply Z.ltb_lt in E
      | exists 0.0%Q; split; [ reflexivity | split; [ lra | reflexivity ] ] ].
    rewrite py_div_pos by now apply inject_Z_pos.
    eexists. split; [ reflexivity | split; [ apply ratio_of_part; lia | apply Hzero ] ]. }
  assert (Hr : exists r, (if (0 <? tp + fn)%Z
                          then py_div (inject_Z tp) (inject_Z (tp + fn))
                          else inr 0.0%Q) = inr r /\ (0 <= r <= 1)%Q /\
                         (tp = 0%Z -> (r == 0)%Q)).
  { destruct (0 <? tp + fn)%Z eqn:E;
      [ apply Z.ltb_lt in E
      | exists 0.0%Q; split; [ reflexivity | split; [ lra | reflexivity ] ] ].
    rewrite py_div_pos by now apply inject_Z_pos.
    eexists. split; [ reflexivity | split; [ apply ratio_of_part; lia | apply Hzero ] ]. }
  destruct Hp as (p & -> & Hp & Hp0). destruct Hr as (r & -> & Hr & Hr0).
  destruct (Qltb 0 (p + r)) eqn:E.
  - apply Qltb_lt in E. rewrite py_div_pos by exact E.
    eexists. split; [ reflexivity | ]. cbn [accuracy precision recall f1_score].
    split; [ exact Hacc | ]. split; [ exact Hp | ]. split; [ exact Hr | ]. split.
    + split; [ apply Qle_shift_div_l | apply Qle_shift_div_r ]; nra.
    + intros Hnone. specialize (Hp0 Hnone). specialize (Hr0 Hnone). lra.
  - apply Qltb_ge in E.
    eexists. split; [ reflexivity | ]. cbn [accuracy precision recall f1_score].
    split; [ exact Hacc | ]. split; [ exact Hp | ]. split; [ exact Hr | ].
    split; [ lra | ]. intros _. repeat split; lra.
Qed.

Lemma detection_accuracy_rates_witness :
  exists m,
    calculate_detection_accuracy 8 2 4 6 = inr m /\
    (0 <= accuracy m <= 1)%Q /\ (0 <= precision m <= 1)%Q /\
    (0 <= recall m <= 1)%Q /\ (0 <= f1_score m <= 1)%Q /\
    (8%Z = 0%Z -> (precision m == 0)%Q /\ (recall m == 0)%Q /\ (f1_score m == 0)%Q).
Proof. apply (detection_accuracy_rates 8 2 4 6); lia. Defined.


(** ** Attacker confusion and deception effectiveness *)

Lemma count_if_le {A} (cond : A -> bool) (l : list A) : count_if cond l <= length l.
Proof.
  unfold count_if. induction l as [|x l IH]; simpl; [ lia | ].
  destruct (cond x); simpl; lia.
Qed.

Lemma Qnat_share n total : n <= total -> 0 < total -> (0 <= Qnat n / Qnat total <= 1)%Q.
Proof. intros Hn Ht. unfold Qnat. apply ratio_of_part; lia. Qed.

Lemma Qnat_pos n : 0 < n -> (0 < Qnat n)%Q.
Proof. intros Hn. apply inject_Z_pos. lia. Qed.

(** X18. The attacker confusion score is defined for every list of
    attempts, whatever keys the attempts carry, and lies between 0 and 1
    (it is a convex combination of three shares of the attempts). *)
Theorem attacker_confusion_in_unit_interval attack_attempts :
  exists v, calculate_attacker_confusion_metric attack_attempts = inr v /\ (0 <= v <= 1)%Q.
Proof.
  unfold calculate_attacker_confusion_metric.
  destruct attack_attempts as [|a rest]; [ exists 0.0%Q; split; [ reflexivity | lra ] | ].
  set (l := a :: rest). assert (Hl : 0 < length l) by (simpl; lia).
  rewrite !py_div_pos by (apply Qnat_pos, Hl).
  eexists. split; [ reflexivity | ].
  repeat match goal with
  | |- context [(Qnat (count_if ?c l) / Qnat (length l))%Q] =>
      let Hs := fresh "Hs" in
      pose proof (Qnat_share _ _ (count_if_le c l) Hl) as Hs;
      generalize dependent (Qnat (count_if c l) / Qnat (length l))%Q; intros
  end.
  lra.
Qed.

Lemma py_sum_nonneg l : Forall (fun x => (0 <= x)%Q) l -> (0 <= py_sum l)%Q.
Proof.
  unfold py_sum. rewrite fold_left_Qplus. induction 1 as [|x l Hx _ IH]; simpl; lra.
Qed.

Lemma np_mean_nonneg l : l <> [] -> Forall (fun x => (0 <= x)%Q) l -> (0 <= np_mean l)%Q.
Proof.
  intros Hne Hl. unfold np_mean. apply Qle_shift_div_l.
  - apply Qnat_pos. destruct l; [ contradiction | simpl; lia ].
  - rewrite Qmult_0_l. now apply py_sum_nonneg.
Qed.

(** X19. The deception effectiveness is defined for every list of
    interactions and never exceeds 1: the deception rate is a share, and
    the engagement and data scores are capped at 1 by [min]. *)
Theorem deception_effectiveness_at_most_one attacker_interactions :
  exists v, calculate_deception_effectiveness attacker_interactions = inr v /\ (v <= 1)%Q.
Proof.
  unfold calculate_deception_effectiveness.
  destruct attacker_interactions as [|i rest]; [ exists 0.0%Q; split; [ reflexivity | lra ] | ].
  set (l := i :: rest). assert (Hl : 0 < length l) by (simpl; lia).
  destruct (0 <? length l) eqn:E; [ | apply Nat.ltb_ge in E; lia ].
  rewrite py_div_pos by (apply Qnat_pos, Hl).
  eexists. split; [ reflexivity | ].
  pose proof (Qnat_share _ _
    (count_if_le (fun i => truthy (default (VBool false) (i_deceived i))) l) Hl) as Hrate.
  generalize dependent (Qnat (count_if (fun i => truthy (default (VBool false) (i_deceived i))) l)
                        / Qnat (length l))%Q.
  intros rate Hrate.
  repeat match goal with
  | |- context [py_min ?a 1.0] =>
      let Hm := fresh "Hm" in
      destruct (py_min_spec a 1.0) as (_ & Hm & _);
      generalize dependent (py_min a 1.0); intros
  end.
  lra.
Qed.

(** X20. When no interaction reports a negative engagement time or a
    negative number of data points, the deception effectiveness lies
    between 0 and 1. *)
Theorem deception_effectiveness_in_unit_interval attacker_interactions :
  Forall (fun i => (0 <= default 0 (i_engagement_time i))%Q /\
                   (0 <= default 0 (i_data_points i))%Q) attacker_interactions ->
  exists v, calculate_deception_effectiveness attacker_interactions = inr v /\
            (0 <= v <= 1)%Q.
Proof.
  intros Hall. unfold calculate_deception_effectiveness.
  destruct attacker_interactions as [|i rest]; [ exists 0.0%Q; split; [ reflexivity | lra ] | ].
  set (l := i :: rest) in *. assert (Hl : 0 < length l) by (simpl; lia).
  destruct (0 <? length l) eqn:E; [ | apply Nat.ltb_ge in E; lia ].
  rewrite py_div_pos by (apply Qnat_pos, Hl).
  eexists. split; [ reflexivity | ].
  pose proof (Qnat_share _ _
    (count_if_le (fun i => truthy (default (VBool false) (i_deceived i))) l) Hl) as Hrate.
  generalize dependent (Qnat (count_if (fun i => truthy (default (VBool false) (i_deceived i))) l)
                        / Qnat (length l))%Q.
  intros rate Hrate.
  assert (Ht : (0 <= np_mean (map (fun i => default 0%Q (i_engagement_time i)) l) / 60.0)%Q).
  { apply Qle_shift_div_l; [ lra | ]. rewrite Qmult_0_l. apply np_mean_nonneg; [ discriminate | ].
    apply Forall_map. eapply Forall_impl; [ exact Hall | ]. intros x [Hx _]. exact Hx. }
  assert (Hd : (0 <= np_mean (map (fun i => default 0%Q (i_data_points i)) l) / 100.0)%Q).
  { apply Qle_shift_div_l; [ lra | ]. rewrite Qmult_0_l. apply np_mean_nonneg; [ discriminate | ].
    apply Forall_map. eapply Forall_impl; [ exact Hall | ]. intros x [_ Hx]. exact Hx. }
  generalize dependent (np_mean (map (fun i => default 0%Q (i_engagement_time i)) l) / 60.0)%Q.
  intros t Ht.
  generalize dependent (np_mean (map (fun i => default 0%Q (i_data_points i)) l) / 100.0)%Q.
  intros d Hd.
  destruct (py_min_spec t 1.0) as (_ & Ht1 & [Et | Et]);
    destruct (py_min_spec d 1.0) as (_ & Hd1 & [Ed | Ed]); rewrite Et, Ed in *; lra.
Qed.

Lemma deception_effectiveness_in_unit_interval_witness :
  exists v,
    calculate_deception_effectiveness
      [ {| i_deceived := Some (VBool true); i_engagement_time := Some 90%Q;
           i_data_points := Some 40%Q |};
        {| i_deceived := None; i_engagement_time := None; i_data_points := Some 10%Q |} ]
      = inr v /\ (0 <= v <= 1)%Q.
Proof.
  apply deception_effectiveness_in_unit_interval.
  repeat constructor; cbn; lra.
Defined.

(** ** Comparison with a baseline *)

(** X21. The comparison reports exactly the metrics of our system: a
    metric has an improvement figure if and only if our system has a
    value for it, whatever the baseline contains. *)
Theorem comparative_metrics_keys our_system baseline_system metric :
  is_Some (calculate_comparative_metrics our_system baseline_system !! metric) <->
  is_Some (our_system !! metric).
Proof.
  unfold calculate_comparative_metrics. rewrite map_lookup_imap.
  destruct (our_system !! metric) as [v|]; simpl; split; intros [x Hx]; eauto; discriminate.
Qed.

(** X22. The improvement figure of a metric of our system: it is 0 when
    the baseline lacks the metric (the baseline then defaults to our own
    value) and when the baseline value is not positive; otherwise it is
    the relative difference in percent, and it is positive exactly when
    our value is above the baseline. *)
Theorem comparative_metrics_entry our_system baseline_system metric our_value :
  our_system !! metric = Some our_value ->
  exists r,
    calculate_comparative_metrics our_system baseline_system !! metric = Some r /\
    (baseline_system !! metric = None -> (r == 0)%Q) /\
    (forall b, baseline_system !! metric = Some b ->
       ((b <= 0)%Q -> r = 0.0%Q) /\
       ((0 < b)%Q -> r = ((our_value - b) / b * 100)%Q /\ ((0 < r)%Q <-> (b < our_value)%Q))).
Proof.
  intros Hour. unfold calculate_comparative_metrics.
  rewrite map_lookup_imap, Hour. cbn [mbind option_bind].
  eexists. split; [ reflexivity | ]. split.
  - intros ->. cbn [default from_option Datatypes.id].
    destruct (Qltb 0 our_value) eqn:E; [ apply Qltb_lt in E | reflexivity ].
    field. lra.
  - intros b ->. cbn [default from_option Datatypes.id]. split.
    + intros Hb. destruct (Qltb 0 b) eqn:E; [ apply Qltb_lt in E; lra | reflexivity ].
    + intros Hb. destruct (Qltb 0 b) eqn:E; [ | apply Qltb_ge in E; lra ].
      split; [ reflexivity | ].
      assert (Hq : ((our_value - b) / b * 100 == (our_value - b) * (100 / b))%Q) by (field; lra).
      assert (Hk : (0 < 100 / b)%Q) by (apply Qlt_shift_div_l; lra).
      rewrite Hq. generalize dependent (100 / b)%Q. intros k _ Hk. split; intros; nra.
Qed.

Lemma comparative_metrics_entry_witness :
  exists r,
    calculate_comparative_metrics {[ "accuracy" := 0.9%Q ]} {[ "accuracy" := 0.6%Q ]}
      !! "accuracy" = Some r /\
    (({[ "accuracy" := 0.6%Q ]} : gmap string Q) !! "accuracy" = None -> (r == 0)%Q) /\
    (forall b, ({[ "accuracy" := 0.6%Q ]} : gmap string Q) !! "accuracy" = Some b ->
       ((b <= 0)%Q -> r = 0.0%Q) /\
       ((0 < b)%Q -> r = ((0.9 - b) / b * 100)%Q /\ ((0 < r)%Q <-> (b < 0.9)%Q))).
Proof.
  apply (comparative_metrics_entry {[ "accuracy" := 0.9%Q ]} {[ "accuracy" := 0.6%Q ]}
           "accuracy" 0.9%Q).
  reflexivity.
Defined.


(** * Properties of the process mirage's memory *)

Lemma memory_ranges_bounds process_type :
  let bounds := default (10, 100)%Z (memory_ranges !! process_type) in
  (2 <= bounds.1)%Z /\ (bounds.1 <= bounds.2)%Z /\ (bounds.2 <= 2048)%Z.
Proof.
  assert (Hall : map_Forall (fun _ b => (2 <= b.1)%Z /\ (b.1 <= b.2)%Z /\ (b.2 <= 2048)%Z)
                            memory_ranges).
  { unfold memory_ranges.
    repeat (apply map_Forall_insert_2; [ cbn; lia | ]).
    apply map_Forall_empty. }
  cbv zeta. destruct (memory_ranges !! process_type) as [b|] eqn:E.
  - exact (Hall _ _ E).
  - cbn. lia.
Qed.

(** X23. The memory given to a new mirage lies in the range tabulated for
    its process type, or in 10..100 for a type that is not in the table;
    in every case it is between 2 and 2048 megabytes, so it is positive. *)
Theorem generated_memory_within_range process_type g :
  let bounds := default (10, 100)%Z (memory_ranges !! process_type) in
  (bounds.1 <= (_generate_memory_pattern process_type g).1 <= bounds.2)%Z /\
  (2 <= (_generate_memory_pattern process_type g).1 <= 2048)%Z.
Proof.
  cbv zeta. destruct (memory_ranges_bounds process_type) as (H1 & H2 & H3).
  unfold _generate_memory_pattern.
  pose proof (random_randint_range _ _ g H2) as Hr. cbv zeta in *. lia.
Qed.

Lemma py_int_floor x : (0 <= x)%Q -> py_int x = Qfloor x.
Proof.
  intros Hx. unfold py_int, Qfloor. destruct x as [n d]. cbn [Qnum Qden].
  apply Z.quot_div_nonneg; [ | lia ].
  unfold Qle in Hx. cbn in Hx. lia.
Qed.

Lemma py_int_nonpos x : (x <= 0)%Q -> (py_int x <= 0)%Z.
Proof.
  intros Hx. unfold py_int. destruct x as [n d]. cbn [Qnum Qden].
  unfold Qle in Hx. cbn in Hx.
  rewrite <- (Z.opp_involutive n), Z.quot_opp_l by lia.
  assert (0 <= Z.quot (- n) (Z.pos d))%Z by (apply Z.quot_pos; lia). lia.
Qed.

Lemma within_fifth (M u x F : Q) :
  (-0.2 <= u <= 0.2)%Q -> (x == M + u * M)%Q -> (F <= x)%Q -> (x < F + 1)%Q -> (10 < F)%Q ->
  (4 * M - 5 < 5 * F /\ 5 * F <= 6 * M)%Q.
Proof.
  intros Hu Hx Hf1 Hf2 Hten.
  assert (HM : (0 < M)%Q).
  { destruct (Qlt_le_dec 0 M) as [HM | HM]; [ exact HM | ]. nra. }
  split; nra.
Qed.

(** X24. A memory mutation never goes below 10 megabytes, and unless it
    lands on that floor the new value is within 20 percent of the old one,
    up to the truncation to an integer:
    [0.8 * old - 1 < new <= 1.2 * old]. *)
Theorem mutated_memory_bounds current_memory g :
  let new_memory := (_mutate_memory_footprint current_memory g).1 in
  (10 <= new_memory)%Z /\
  (new_memory = 10%Z \/
   (4 * current_memory - 5 < 5 * new_memory <= 6 * current_memory)%Z).
Proof.
  cbv zeta. unfold _mutate_memory_footprint. rewrite bind_eq. cbn [ret fst].
  pose proof (random_uniform_range (-0.2) 0.2 g ltac:(lra)) as Hu.
  set (u := (random_uniform (-0.2) 0.2 g).1) in *.
  set (M := inject_Z current_memory).
  set (x := (M + u * M)%Q).
  split; [ lia | ].
  destruct (Z.max_spec 10 (py_int x)) as [[Hlt ->] | [Hle ->]]; [ right | now left ].
  destruct (Qlt_le_dec 0 x) as [Hx | Hx]; [ | apply py_int_nonpos in Hx; lia ].
  rewrite py_int_floor in * by lra.
  pose proof (Qfloor_le x) as Hf1. pose proof (Qlt_floor x) as Hf2.
  rewrite inject_Z_plus in Hf2. change (inject_Z 1) with 1%Q in Hf2.
  assert (Hten : (10 < inject_Z (Qfloor x))%Q).
  { change 10%Q with (inject_Z 10). rewrite <- Zlt_Qlt. exact Hlt. }
  pose proof (within_fifth M u x _ Hu ltac:(reflexivity) Hf1 Hf2 Hten) as Hq.
  unfold M in Hq. destruct Hq as [Hq1 Hq2].
  split.
  - rewrite Zlt_Qlt. unfold Z.sub. rewrite inject_Z_plus, !inject_Z_mult.
    change (inject_Z 4) with 4%Q. change (inject_Z 5) with 5%Q.
    change (inject_Z (- (5))) with (- (5))%Q. lra.
  - rewrite Zle_Qle, !inject_Z_mult.
    change (inject_Z 5) with 5%Q. change (inject_Z 6) with 6%Q. lra.
Qed.

(** X25. The diversity that [morph_characteristics] computes between the
    state before and the state after a morph is defined, not negative and
    at most [0.7] plus the CPU term whenever both states carry a positive
    memory, as they do by X23 and X24: the division by the larger memory
    cannot fail. *)
Theorem mirage_diversity_is_defined current previous mc mp :
  memory current = Some (inject_Z mc) -> memory previous = Some (inject_Z mp) ->
  (0 < mc)%Z -> (0 < mp)%Z ->
  exists d,
    _calculate_genetic_diversity current previous = inr d /\
    (0 <= d)%Q /\
    (d <= 0.7 + 0.3 * (Qabs (default 0 (cpu current) - default 0 (cpu previous)) / 100))%Q.
Proof.
  intros Hc Hp Hmc Hmp.
  unfold _calculate_genetic_diversity, calculate_genetic_diversity_score, slice_last.
  cbn [length Nat.sub drop diversity_loop]. unfold state_diversity.
  rewrite Hc, Hp. cbn [default from_option Datatypes.id].
  pose proof (inject_Z_pos _ Hmc) as Hc0. pose proof (inject_Z_pos _ Hmp) as Hp0.
  set (a := inject_Z mc) in *. set (b := inject_Z mp) in *.
  destruct (py_max_spec a b) as (M1 & M2 & M3).
  rewrite py_div_pos by lra.
  eexists. split; [ reflexivity | ].
  destruct (_hamming_distance_spec (default "" (name current)) (default "" (name previous)))
    as [_ [Hh0 Hh1]].
  set (h := _hamming_distance _ _) in *.
  assert (Hmd : (0 <= Qabs (a - b) / py_max a b <= 1)%Q).
  { split; [ apply Qle_shift_div_l | apply Qle_shift_div_r ]; try lra.
    - rewrite Qmult_0_l. apply Qabs_nonneg.
    - rewrite Qmult_1_l. apply Qabs_Qle_condition. split; lra. }
  assert (Hcd : (0 <= Qabs (default 0 (cpu current) - default 0 (cpu previous)) / 100.0)%Q).
  { apply Qle_shift_div_l; [ lra | ]. rewrite Qmult_0_l. apply Qabs_nonneg. }
  assert (Hcq : (Qabs (default 0 (cpu current) - default 0 (cpu previous)) / 100 ==
                 Qabs (default 0 (cpu current) - default 0 (cpu previous)) / 100.0)%Q).
  { apply Qdiv_comp; reflexivity. }
  rewrite Hcq. clear Hcq. clearbody h.
  generalize dependent (Qabs (a - b) / py_max a b)%Q. intros m Hmd.
  generalize dependent (Qabs (default 0 (cpu current) - default 0 (cpu previous)) / 100.0)%Q.
  intros c Hcd.
  unfold np_mean, py_sum. cbn [fold_left length]. unfold Qnat. cbn [Z.of_nat inject_Z Pos.of_succ_nat].
  assert (Hone : forall y, ((0 + y) / 1 == y)%Q) by (intros; field).
  rewrite Hone. lra.
Qed.

Lemma mirage_diversity_is_defined_witness :
  exists d,
    _calculate_genetic_diversity
      {| name := Some "nginx"; memory := Some (inject_Z 120); cpu := Some 12%Q |}
      {| name := Some "nginx-worker"; memory := Some (inject_Z 100); cpu := Some 9%Q |}
      = inr d /\
    (0 <= d)%Q /\
    (d <= 0.7 + 0.3 * (Qabs (12 - 9) / 100))%Q.
Proof.
  apply (mirage_diversity_is_defined
           {| name := Some "nginx"; memory := Some (inject_Z 120); cpu := Some 12%Q |}
           {| name := Some "nginx-worker"; memory := Some (inject_Z 100); cpu := Some 9%Q |}
           120 100); (reflexivity || lia).
Defined.


(** ** The best chromosome after a generation *)

Lemma _crossover_fitness self_generation parent1 parent2 g :
  fitness (_crossover self_generation parent1 parent2 g).1.1 = fitness parent1 /\
  fitness (_crossover self_generation parent1 parent2 g).1.2 = fitness parent2.
Proof.
  unfold _crossover. repeat (rewrite bind_eq; cbv zeta). unfold ret. cbn [fst snd].
  repeat match goal with |- context [Qltb ?u 0.5] => destruct (Qltb u 0.5) end;
    split; reflexivity.
Qed.

Lemma max_from_first {A} (key : A -> Q) (l : list A) : forall best,
  (forall x, x ∈ l -> (key x <= key best)%Q) -> max_from key best l = best.
Proof.
  induction l as [|y l IH]; intros best Hall; simpl; [ reflexivity | ].
  destruct (Qltb (key best) (key y)) eqn:E.
  - apply Qltb_lt in E. specialize (Hall y ltac:(left)). lra.
  - apply IH. intros x Hx. apply Hall. now right.
Qed.

(** X26. After a completed generation step with at least one elite, the
    best chromosome of the new population, as [get_best_chromosome]
    reports it, is the very chromosome that the step returned as the best
    of the old one: offspring inherit their parents' stored fitness, so no
    new member exceeds the first elite, and [max] keeps the earliest of
    equals. *)
Theorem best_of_next_generation_is_the_elite `{Host} self batch w best self' w' :
  evolve_generation self batch w = inr (best, self', w') ->
  (1 <= elite_size self)%Z ->
  get_best_chromosome self' w' = inr (Some best, w').
Proof.
  intros Hrun Helite.
  pose proof (evolve_generation_steps _ _ _ _ _ _ Hrun)
    as (scores & w1 & first & final & pool & w2 & offspring & w3 & u & Hsteps).
  cbv zeta in Hsteps.
  destruct Hsteps as (Heval & Hhead & Hlast & Hpool & Hbreed & Hmut & -> & Hpop & _).
  destruct (evaluate_spec _ _ (heap w) _ _ _ _ (reevaluated_refl _ _ _) Heval)
    as (_ & _ & _ & Hall).
  pose proof (sorted_reverse_sorted snd scores) as Hsorted.
  assert (Htop : forall s, s ∈ scores -> (s.2 <= first.2)%Q).
  { intros s Hs. rewrite <- sorted_reverse_Permutation in Hs.
    apply (sorted_head_last snd _ first final Hsorted Hhead Hlast s Hs). }
  assert (Hsat : population_satisfies (fun c => (fitness c <= first.2)%Q) w' (population self')).
  { eapply next_population_satisfies; [ exact Hrun | | ].
    - intros gen p1 p2 g Hp1 Hp2.
      destruct (_crossover_fitness gen p1 p2 g) as [-> ->]. now split.
    - intros l c Hl Hc. cbn [fitness set_fitness].
      apply list_elem_of_lookup in Hl as [i Hi].
      destruct (Forall2_lookup_l _ _ _ _ _ Hall Hi) as (s & Hs & _ & c' & Hc' & Hf & _).
      assert (c' = c) by congruence. subst c'. rewrite <- Hf.
      apply Htop. eapply list_elem_of_lookup_2, Hs. }
  assert (Hfirst : exists cb, heap w' !! first.1 = Some cb /\ fitness cb = first.2).
  { assert (Hin : first ∈ scores).
    { rewrite <- sorted_reverse_Permutation. eapply head_Some_elem_of, Hhead. }
    apply list_elem_of_lookup in Hin as [j Hj].
    destruct (Forall2_lookup_r _ _ _ _ _ Hall Hj) as (l & _ & Hl & c & _ & Hf & Hc1).
    rewrite <- Hl in Hc1. eexists. split.
    - eapply prefix_lookup; [ | exact Hc1 ].
      apply tournament_rounds_heap in Hpool. rewrite <- Hpool.
      etrans; [ eapply allocates_breed, Hbreed | eapply allocates_mutation_loop, Hmut ].
    - cbn [fitness set_fitness]. now rewrite Hf. }
  destruct Hfirst as (cb & Hcb & Hfit).
  assert (Hshape : exists rest, population self' = first.1 :: rest).
  { rewrite Hpop. unfold slice_to.
    destruct (0 <=? elite_size self)%Z eqn:E; [ | apply Z.leb_gt in E; lia ].
    destruct (sorted_reverse snd scores) as [|x ranked]; [ discriminate Hhead | ].
    injection Hhead as ->.
    destruct (Z.to_nat (elite_size self)) as [|n] eqn:En; [ lia | ].
    cbn [take map app]. eauto. }
  destruct Hshape as [rest Hshape].
  unfold get_best_chromosome. rewrite Hshape in *.
  assert (Hvalid : Forall (fun l => is_Some (heap w' !! l)) (first.1 :: rest)).
  { eapply Forall_impl; [ exact Hsat | ]. intros l (c & Hc & _). eauto. }
  destruct (read_all_spec _ w' Hvalid) as (objects & Hread & Hobjects).
  rewrite (bindM_step _ _ _ _ _ Hread).
  apply Forall2_cons_inv_l in Hobjects as (o & os & [Ho1 Ho2] & Hos & ->).
  cbn [py_max_key]. rewrite max_from_first; [ now rewrite Ho1 | ].
  intros x Hx. cbn beta.
  assert (o.2 = cb) by congruence. subst cb. rewrite Hfit.
  apply list_elem_of_lookup in Hx as [j Hj].
  destruct (Forall2_lookup_r _ _ _ _ _ Hos Hj) as (l & Hl & _ & Hx2).
  apply (population_satisfies_lookup (fun c => (fitness c <= first.2)%Q) w'
           (first.1 :: rest) l x.2 Hsat); [ | exact Hx2 ].
  right. eapply list_elem_of_lookup_2, Hl.
Qed.

Lemma best_of_next_generation_is_the_elite_witness :
  exists best self' w',
    @evolve_generation plain_host (small_engine 0.5 0.5) {[ "gen0_chr1" := engaged_stats ]}
      (small_world varied_source) = inr (best, self', w') /\
    get_best_chromosome self' w' = inr (Some best, w').
Proof.
  eexists _, _, _.
  assert (Hrun : @evolve_generation plain_host (small_engine 0.5 0.5)
                   {[ "gen0_chr1" := engaged_stats ]}
                   (small_world varied_source) = inr (_, _, _))
    by (vm_compute; reflexivity).
  split; [ exact Hrun | ].
  apply (@best_of_next_generation_is_the_elite plain_host _ _ _ _ _ _ Hrun).
  simpl. lia.
Defined.


(** ** The step of a mutation pass *)

Lemma gated_step {A} (P Q : A -> Prop) p body a g :
  (forall a' g', P a' -> Q (body a' g').1) -> (P a -> Q a) -> P a -> Q (gated p body a g).1.
Proof.
  intros Hbody Hskip Ha. unfold gated. rewrite bind_eq.
  destruct (Qltb _ p); [ now apply Hbody | now apply Hskip ].
Qed.

Lemma bind_step {A} (P : A -> Prop) (R : A -> Prop) (c : Rand A) (k : A -> Rand A) g :
  P (c g).1 -> (forall a g', P a -> R (k a g').1) -> R (bind c k g).1.
Proof.
  intros Hc Hk. unfold bind. destruct (c g) as [a g'] eqn:E. simpl in Hc. auto.
Qed.

Lemma clamp_step_Z lo hi x0 d step :
  (lo <= x0 <= hi)%Z -> (- step <= d <= step)%Z ->
  (x0 - step <= Z.max lo (Z.min hi (x0 + d)) <= x0 + step)%Z.
Proof. lia. Qed.

Lemma clamp_step_Q lo hi x0 d step :
  (lo <= x0 <= hi)%Q -> (- step <= d <= step)%Q ->
  (x0 - step <= py_max lo (py_min hi (x0 + d)) <= x0 + step)%Q.
Proof.
  intros Hx Hd.
  destruct (py_max_spec lo (py_min hi (x0 + d))) as (H1 & H2 & [H3 | H3]);
    destruct (py_min_spec hi (x0 + d)) as (H4 & H5 & [H6 | H6]);
    rewrite H3 in *; try rewrite H6 in *; lra.
Qed.

Lemma mutation_progress_skip k c0 m :
  mutation_progress k c0 m -> mutation_progress (S k) c0 m.
Proof.
  intros [Hstep Hpend]. split; [ exact Hstep | ].
  unfold blocks_pending in *.
  repeat match goal with H : _ /\ _ |- _ => destruct H end.
  repeat split; intros; auto with lia.
Qed.

Ltac nine :=
  split; [ | split; [ | split; [ | split; [ | split; [ | split; [ | split; [ | split ] ] ] ] ] ] ].

Ltac pending_goal :=
  let Hk := fresh "Hk" in
  intros Hk; first [ lia | match goal with H : _ -> ?e |- ?e => apply H; lia end ].

Ltac block_body Hc0 :=
  intros m g [Hstep Hpend]; rewrite bind_eq; cbn [ret fst];
  unfold within_one_step, blocks_pending in *;
  destruct Hstep as (S1 & S2 & S3 & S4 & S5 & S6 & S7 & S8 & S9);
  destruct Hpend as (E1 & E2 & E3 & E4 & E5 & E6 & E7 & E8 & E9);
  destruct Hc0;
  split; [ nine; cbn; try assumption | nine; cbn; pending_goal ].

Ltac block k c0 :=
  let c := fresh "c" in let g := fresh "g" in let Hc := fresh "Hc" in
  intros c g Hc; apply (bind_step (mutation_progress (S k) c0));
    [ apply (gated_step (mutation_progress k c0));
      [ clear c g Hc | apply mutation_progress_skip | exact Hc ] | clear c g Hc ].

Lemma _mutate_progress c0 c g :
  mutation_ranges c0 -> mutation_progress 0 c0 c -> mutation_progress 9 c0 (_mutate c g).1.
Proof.
  intros Hc0 Hc. unfold _mutate. cbv zeta. revert c g Hc.
  block 0 c0.
  { block_body Hc0. rewrite (E1 ltac:(lia)).
    apply clamp_step_Z; [ lia | apply (random_randint_range (-2) 2); lia ]. }
  block 1 c0.
  { block_body Hc0. rewrite (E2 ltac:(lia)).
    apply clamp_step_Z; [ lia | apply (random_randint_range (-3) 3); lia ]. }
  block 2 c0.
  { block_body Hc0. rewrite (E3 ltac:(lia)).
    apply clamp_step_Q; [ lra | apply (random_uniform_range (-0.1) 0.1); lra ]. }
  block 3 c0.
  { block_body Hc0. rewrite (E4 ltac:(lia)).
    apply clamp_step_Q; [ lra | apply (random_uniform_range (-0.1) 0.1); lra ]. }
  block 4 c0.
  { block_body Hc0. rewrite (E5 ltac:(lia)).
    apply clamp_step_Q; [ lra | apply (random_uniform_range (-0.1) 0.1); lra ]. }
  block 5 c0.
  { block_body Hc0. rewrite (E6 ltac:(lia)).
    apply clamp_step_Q; [ lra | apply (random_uniform_range (-0.1) 0.1); lra ]. }
  block 6 c0.
  { block_body Hc0. rewrite (E7 ltac:(lia)).
    apply clamp_step_Q; [ lra | apply (random_uniform_range (-0.1) 0.1); lra ]. }
  block 7 c0.
  { block_body Hc0. rewrite (E8 ltac:(lia)).
    apply clamp_step_Q; [ lra | ].
    pose proof (random_randint_range (-2) 2 g ltac:(lia)) as [Hd1 Hd2].
    rewrite Zle_Qle in Hd1, Hd2. split; [ exact Hd1 | exact Hd2 ]. }
  block 8 c0.
  { block_body Hc0. rewrite (E9 ltac:(lia)).
    apply clamp_step_Q; [ lra | apply (random_uniform_range (-0.1) 0.1); lra ]. }
  intros c g Hc. exact Hc.
Qed.

(** X27. One mutation pass moves no gene of an in-range chromosome by
    more than the amplitude of its mutation: 2 for [honeypot_count] and
    [service_diversity], 3 for the mirage [count], and 0.1 for
    [mutation_rate], the three credential genes, [decoy_density] and
    [chaos_parameter] (clamping only pulls a value back towards the
    range the old value was in). *)
Theorem mutation_moves_within_one_step c g :
  mutation_ranges c -> within_one_step c (_mutate c g).1.
Proof.
  intros Hc. apply _mutate_progress; [ exact Hc | ].
  split; [ unfold within_one_step; nine; (lia || lra) | ].
  unfold blocks_pending. nine; reflexivity.
Qed.

Lemma mutation_moves_within_one_step_witness :
  within_one_step sample_chromosome (_mutate sample_chromosome varied_source).1.
Proof.
  apply (mutation_moves_within_one_step sample_chromosome varied_source).
  apply declared_mutation_ranges. constructor; cbn; (lia || lra).
Defined.


(** ** The normalised Hamming distance *)

Lemma mismatches_sym (a b : list ascii) : mismatches a b = mismatches b a.
Proof.
  revert b. induction a as [|x a IH]; intros [|y b]; simpl; try reflexivity.
  rewrite IH. destruct (decide (x = y)), (decide (y = x)); congruence.
Qed.

Lemma mismatches_refl (a : list ascii) : mismatches a a = 0.
Proof.
  induction a as [|x a IH]; simpl; [ reflexivity | ].
  destruct (decide (x = x)); [ exact IH | contradiction ].
Qed.

Lemma Qnat_zero_ratio n : (Qnat 0 / Qnat n == 0)%Q.
Proof. unfold Qdiv. change (Qnat 0) with 0%Q. apply Qmult_0_l. Qed.

(** X28. The normalised Hamming distance of two strings lies between 0
    and 1, does not depend on the order of its arguments, and is 0 between
    a string and itself. *)
Theorem hamming_distance_properties str1 str2 :
  (0 <= _hamming_distance str1 str2 <= 1)%Q /\
  _hamming_distance str1 str2 = _hamming_distance str2 str1 /\
  (_hamming_distance str1 str1 == 0)%Q.
Proof.
  split; [ apply _hamming_distance_spec | ]. split.
  - unfold _hamming_distance. rewrite !mismatches_filter.
    rewrite (Nat.max_comm (length (list_ascii_of_string str2))).
    destruct (decide _); [ reflexivity | ]. now rewrite mismatches_sym.
  - unfold _hamming_distance. rewrite mismatches_filter.
    destruct (decide _); [ reflexivity | ].
    rewrite mismatches_refl. apply Qnat_zero_ratio.
Qed.

Lemma list_ascii_of_string_app s t :
  list_ascii_of_string (s +:+ t) = list_ascii_of_string s ++ list_ascii_of_string t.
Proof. induction s as [|c s IH]; simpl; [ reflexivity | now rewrite IH ]. Qed.

(** X29. Trailing spaces do not count: the shorter string is padded with
    spaces before the comparison, so a string and the same string followed
    by any number of spaces are at distance 0 although they differ. *)
Theorem hamming_distance_ignores_trailing_spaces str k :
  (_hamming_distance str (str +:+ string_of_list_ascii (replicate k " "%char)) == 0)%Q.
Proof.
  unfold _hamming_distance. rewrite mismatches_filter.
  rewrite list_ascii_of_string_app, list_ascii_of_string_of_list_ascii.
  set (l := list_ascii_of_string str).
  rewrite length_app, length_replicate.
  replace (Nat.max (length l) (length l + k)) with (length l + k) by lia.
  destruct (decide _); [ reflexivity | ].
  unfold ljust. rewrite length_app, length_replicate.
  replace (length l + k - length l) with k by lia.
  replace (length l + k - (length l + k)) with 0 by lia.
  cbn [replicate]. rewrite app_nil_r, mismatches_refl. apply Qnat_zero_ratio.
Qed.

(** ** The fitness scale *)

Lemma share_of_attempts x total :
  (0 <= x)%Q -> (x <= total)%Q -> (0 <= x / py_max total 1 <= 1)%Q.
Proof.
  intros Hx Ht. destruct (py_max_spec total 1) as (M1 & M2 & _).
  split; [ apply Qle_shift_div_l | apply Qle_shift_div_r ]; lra.
Qed.

(** X30. On consistent telemetry the fitness stays on its scale: when the
    interaction time and the number of data points are not negative, the
    failed and the repeated attempts are each between 0 and the total
    number of attempts, and the weights are not negative and add up to at
    most 1, the fitness of every chromosome lies between 0 and 1000. *)
Theorem fitness_within_scale `{Host} weights chrom (attack_results : stats) :
  (forall p, (0 < p)%Q -> (p <= 1)%Q -> (np_log2 p <= 0)%Q) ->
  (0 <= w_engagement_time weights)%Q -> (0 <= w_data_quality weights)%Q ->
  (0 <= w_confusion_score weights)%Q -> (0 <= w_genetic_diversity weights)%Q ->
  (w_engagement_time weights + w_data_quality weights +
   w_confusion_score weights + w_genetic_diversity weights <= 1)%Q ->
  (0 <= num_of (dict_get attack_results "total_interaction_time" (VNum 0)))%Q ->
  (0 <= num_of (dict_get attack_results "data_points_collected" (VNum 0)))%Q ->
  (0 <= num_of (dict_get attack_results "failed_exploits" (VNum 0))
     <= num_of (dict_get attack_results "total_attempts" (VNum 1)))%Q ->
  (0 <= num_of (dict_get attack_results "repeated_attempts" (VNum 0))
     <= num_of (dict_get attack_results "total_attempts" (VNum 1)))%Q ->
  (0 <= fitness_function weights chrom attack_results <= 1000)%Q.
Proof.
  intros Hlog W1 W2 W3 W4 Wsum Ht Hd [Hf0 Hf1] [Hr0 Hr1].
  apply fitness_function_range; try assumption.
  - unfold engagement_score_of.
    assert (Hx : (0 <= num_of (dict_get attack_results "total_interaction_time" (VNum 0))
                       / 120.0)%Q) by (apply Qle_shift_div_l; lra).
    match goal with |- (0 <= py_min ?a ?b)%Q =>
      destruct (py_min_spec a b) as (_ & _ & [E | E]); rewrite E end; lra.
  - unfold data_score_of.
    assert (Hx : (0 <= num_of (dict_get attack_results "data_points_collected" (VNum 0))
                       / 100.0)%Q) by (apply Qle_shift_div_l; lra).
    match goal with |- (0 <= py_min ?a ?b)%Q =>
      destruct (py_min_spec a b) as (_ & _ & [E | E]); rewrite E end; lra.
  - unfold confusion_score_of. cbv zeta.
    pose proof (share_of_attempts _ _ Hf0 Hf1) as Hf.
    pose proof (share_of_attempts _ _ Hr0 Hr1) as Hr.
    generalize dependent (num_of (dict_get attack_results "failed_exploits" (VNum 0))
                          / py_max (num_of (dict_get attack_results "total_attempts" (VNum 1))) 1)%Q.
    intros a Ha.
    generalize dependent (num_of (dict_get attack_results "repeated_attempts" (VNum 0))
                          / py_max (num_of (dict_get attack_results "total_attempts" (VNum 1))) 1)%Q.
    intros b Hb.
    destruct (truthy _); lra.
Qed.

Lemma fitness_within_scale_witness :
  (0 <= @fitness_function plain_host (cfg_fitness_weights GA_CONFIG)
          sample_chromosome engaged_stats <= 1000)%Q.
Proof.
  apply (@fitness_within_scale plain_host (cfg_fitness_weights GA_CONFIG)
           sample_chromosome engaged_stats floor_log2_nonpos);
    cbn; try split; (vm_compute; discriminate).
Defined.
